(** * Mimirion: the diff engine, the commit manager, the file tracker and
      the remote manager

    A shallow embedding of the core of the Mimirion version-control engine
    ([src/diff.cpp], [src/commit.cpp], [src/file_tracker.cpp], the tables of
    [src/remote.cpp] and the helpers of [src/utils.cpp] they call), followed
    by the properties its specification states about it and by further
    properties of the same code: what is stored is read back, what the
    operations keep and what they do at their edges.

    Conventions of the embedding:
    - [std::string] is [string]; [std::vector<std::string>] is [list string];
      [std::unordered_map<std::string, T>] is [gmap string T];
    - [int] is [Z] restricted to the 32-bit range, a conversion from [size_t]
      wraps ([utils.size_to_int]);
    - the file system is a finite map from path to content;
    - the collaborators the code calls but does not define (SHA-256 of
      OpenSSL, the clock, the user's identity, whether a stream opens) are
      variables of the sections that use them. *)

From Stdlib Require Import ZArith Ascii String DecimalString DecimalZ.
From stdpp Require Import base option gmap strings list sorting fin_maps.

(** ** Helpers of the C++ standard library and of [utils.cpp] *)

Module utils.

Definition newline : ascii := "010"%char.
Definition tab : ascii := "009"%char.

(** [int] is 32 bits wide. *)
Definition int_range (z : Z) : Prop := (- 2 ^ 31 <= z < 2 ^ 31)%Z.

Definition in_int_range (z : Z) : bool :=
  ((- 2 ^ 31 <=? z) && (z <? 2 ^ 31))%Z.

Definition wrap_int (z : Z) : Z := ((z + 2 ^ 31) mod 2 ^ 32 - 2 ^ 31)%Z.

(** [static_cast<int>(v.size())], and the implicit conversion of a [size_t]
    assigned to an [int] field. *)
Definition size_to_int (n : nat) : Z := wrap_int (Z.of_nat n).

(** [s.back()] of a non-empty string; [None] on the empty one. *)
Fixpoint back (s : string) : option ascii :=
  match s with
  | EmptyString => None
  | String c EmptyString => Some c
  | String _ rest => back rest
  end.

(** [s.substr(pos)] for [pos <= s.size()]. *)
Fixpoint substr_from (pos : nat) (s : string) : string :=
  match pos, s with
  | O, _ => s
  | S p, String _ rest => substr_from p rest
  | S _, EmptyString => EmptyString
  end.

(** [s.substr(pos, len)] for [pos <= s.size()]: at most [len] characters. *)
Definition substr (pos len : nat) (s : string) : string :=
  String.substring pos len s.

(** [s.find(c)]: the first position of [c], [None] standing for [npos]. *)
Fixpoint find_char (c : ascii) (s : string) : option nat :=
  match s with
  | EmptyString => None
  | String x rest =>
      if Ascii.eqb x c then Some O else S <$> find_char c rest
  end.

(** [s.find(c, pos)]; a start beyond the end finds nothing. *)
Definition find_char_from (c : ascii) (pos : nat) (s : string) : option nat :=
  if decide (pos <= String.length s)%nat
  then (fun i => (pos + i)%nat) <$> find_char c (substr_from pos s)
  else None.

(** [s.find(p)] for a non-empty pattern [p]. *)
Fixpoint find_str (p : string) (s : string) : option nat :=
  match s with
  | EmptyString => None
  | String _ rest =>
      if String.prefix p s then Some O else S <$> find_str p rest
  end.

Definition find_str_from (p : string) (pos : nat) (s : string) : option nat :=
  if decide (pos <= String.length s)%nat
  then (fun i => (pos + i)%nat) <$> find_str p (substr_from pos s)
  else None.

(** [operator<<] on an [int]: decimal digits, a minus sign when negative. *)
Definition to_string (z : Z) : string := NilZero.string_of_int (Z.to_int z).

Definition is_digit (c : ascii) : bool :=
  let n := nat_of_ascii c in (48 <=? n)%nat && (n <=? 57)%nat.

Definition digit_value (c : ascii) : Z := Z.of_nat (nat_of_ascii c - 48).

(** [isspace] in the C locale. *)
Definition isspace (c : ascii) : bool :=
  let n := nat_of_ascii c in (n =? 32)%nat || ((9 <=? n)%nat && (n <=? 13)%nat).

Fixpoint skip_space (s : string) : string :=
  match s with
  | String c rest => if isspace c then skip_space rest else s
  | EmptyString => s
  end.

(** The digits [strtol] consumes, accumulated in base ten; what follows the
    last digit is ignored. *)
Fixpoint parse_digits (acc : Z) (s : string) : Z :=
  match s with
  | String c rest =>
      if is_digit c then parse_digits (10 * acc + digit_value c) rest else acc
  | EmptyString => acc
  end.

Definition starts_with_digit (s : string) : bool :=
  match s with
  | String c _ => is_digit c
  | EmptyString => false
  end.

(** [std::stoi(s)]: leading white space, an optional sign, then at least one
    digit. [None] stands for the exception it throws, [std::invalid_argument]
    when there is no digit and [std::out_of_range] when the value does not
    fit an [int]. *)
Definition stoi (s : string) : option Z :=
  let s1 := skip_space s in
  let '(negative, s2) :=
    match s1 with
    | String "-"%char rest => (true, rest)
    | String "+"%char rest => (false, rest)
    | _ => (false, s1)
    end in
  if starts_with_digit s2 then
    let v := parse_digits 0 s2 in
    let v := if negative then (- v)%Z else v in
    if in_int_range v then Some v else None
  else None.

(** One call of [std::getline(stream, line)] on a stream that is not at its
    end: the characters up to the first newline, which is consumed and
    dropped, or up to the end. *)
Fixpoint getline_chars (stream : string) : string * string :=
  match stream with
  | EmptyString => (EmptyString, EmptyString)
  | String c rest =>
      if Ascii.eqb c newline then (EmptyString, rest)
      else let '(line, rest') := getline_chars rest in (String c line, rest')
  end.

(** [std::getline] fails exactly when the stream is at its end before any
    character was extracted. *)
Definition getline (stream : string) : option (string * string) :=
  match stream with
  | EmptyString => None
  | _ => Some (getline_chars stream)
  end.

(** One call of [std::getline(stream, token, delimiter)] on a stream that is
    not at its end, and the call itself. *)
Fixpoint getline_until (delimiter : ascii) (stream : string) : string * string :=
  match stream with
  | EmptyString => (EmptyString, EmptyString)
  | String c rest =>
      if Ascii.eqb c delimiter then (EmptyString, rest)
      else
        let '(token, rest') := getline_until delimiter rest in
        (String c token, rest')
  end.

Definition getline_delim (delimiter : ascii) (stream : string)
  : option (string * string) :=
  match stream with
  | EmptyString => None
  | _ => Some (getline_until delimiter stream)
  end.

(** [utils::split]: the tokens [std::getline] reads up to each delimiter. *)
Fixpoint split_loop (fuel : nat) (stream : string) (delimiter : ascii)
  : list string :=
  match fuel with
  | O => []
  | S fuel' =>
      match getline_delim delimiter stream with
      | None => []
      | Some (token, rest) => token :: split_loop fuel' rest delimiter
      end
  end.

Definition split (s : string) (delimiter : ascii) : list string :=
  split_loop (String.length s) s delimiter.

(** [utils::join]: the strings with the delimiter between two of them. *)
Fixpoint join (strings : list string) (delimiter : string) : string :=
  match strings with
  | [] => EmptyString
  | [s] => s
  | s :: rest => s +:+ delimiter +:+ join rest delimiter
  end.

(** The loops of [isBinaryFile]: whether some character of the buffer
    satisfies the test. *)
Fixpoint any_char (p : ascii -> bool) (s : string) : bool :=
  match s with
  | EmptyString => false
  | String c rest => p c || any_char p rest
  end.

(** [c < 32 && c != '\n' && c != '\r' && c != '\t'] on an [unsigned char]. *)
Definition is_control (c : ascii) : bool :=
  (nat_of_ascii c <? 32)%nat
  && negb (Ascii.eqb c newline) && negb (Ascii.eqb c "013")
  && negb (Ascii.eqb c tab).

(** [isBinaryFile]: on the first 4096 bytes of a file that opens, a null
    byte, then a control character other than newline, carriage return and
    tab. [None] is a file that does not open. *)
Definition isBinaryFile (file : option string) : bool :=
  match file with
  | None => false
  | Some content =>
      let buffer := substr 0 4096 content in
      if any_char (fun c => Ascii.eqb c "000") buffer then true
      else any_char is_control buffer
  end.

End utils.

(** ** The diff engine ([src/diff.cpp]) *)

Module DiffEngine.

Record DiffHunk := {
  oldStart : Z;
  oldCount : Z;
  newStart : Z;
  newCount : Z;
  lines : list string
}.

Record FileDiff := {
  oldFile : string;
  newFile : string;
  hunks : list DiffHunk
}.

#[global] Instance DiffHunk_eq_dec : EqDecision DiffHunk.
Proof. solve_decision. Defined.

#[global] Instance FileDiff_eq_dec : EqDecision FileDiff.
Proof. solve_decision. Defined.

(** [splitLines]: [while (std::getline(stream, line)) lines.push_back(line)].
    Every successful [getline] on a non-empty stream consumes a character, so
    [fuel] equal to the length of the content is never exhausted. *)
Fixpoint splitLines_loop (fuel : nat) (stream : string) : list string :=
  match fuel with
  | O => []
  | S fuel' =>
      match utils.getline stream with
      | None => []
      | Some (line, rest) => line :: splitLines_loop fuel' rest
      end
  end.

Definition splitLines (content : string) : list string :=
  splitLines_loop (String.length content) content.

(** The search loop of the special case of [computeHunks]: the first index
    [i < oldLines.size()] with [i < newLines.size()] and
    [oldLines[i] != newLines[i]], counted from [i]. *)
Fixpoint firstMismatch (i : nat) (oldLines newLines : list string) : option nat :=
  match oldLines, newLines with
  | o :: oldRest, n :: newRest =>
      if bool_decide (o ≠ n) then Some i
      else firstMismatch (S i) oldRest newRest
  | _, _ => None
  end.

(** The comparison loop of the default case of [computeHunks], on what is left
    of the two vectors from [i] and from [j]. While a new line is left the loop
    emits a context line (equal heads, both indices advance) or an added line
    ([j] advances); once the new lines are exhausted it removes the old lines
    left. *)
Fixpoint compareLines (oldLines newLines : list string) : list string :=
  match newLines with
  | [] => (fun o => "-" +:+ o) <$> oldLines
  | n :: newRest =>
      match oldLines with
      | o :: oldRest =>
          if bool_decide (o = n)
          then (" " +:+ o) :: compareLines oldRest newRest
          else ("+" +:+ n) :: compareLines oldLines newRest
      | [] => ("+" +:+ n) :: compareLines [] newRest
      end
  end.

Definition line_at (l : list string) (i : nat) : string := default "" (l !! i).

Definition computeHunks (oldLines newLines : list string) (contextLines : Z)
  : list DiffHunk :=
  let contextLines := if (contextLines <=? 0)%Z then 3%Z else contextLines in
  if bool_decide (oldLines = newLines) then []
  else
    let default_hunk :=
      {| oldStart := 1;
         oldCount := utils.size_to_int (length oldLines);
         newStart := 1;
         newCount := utils.size_to_int (length newLines);
         lines := compareLines oldLines newLines |} in
    if bool_decide (length newLines = S (length oldLines)) then
      match firstMismatch 0 oldLines newLines with
      | Some i =>
          [ {| oldStart := utils.size_to_int i;
               oldCount := 2;
               newStart := utils.size_to_int i;
               newCount := 3;
               lines :=
                 (if bool_decide (0 < i)%nat
                  then [" " +:+ line_at oldLines (i - 1)] else [])
                 ++ [ "-" +:+ line_at oldLines i;
                      "+" +:+ line_at newLines i;
                      " " +:+ line_at oldLines i ] |} ]
      | None => [default_hunk]
      end
    else [default_hunk].

Definition generateDiffFromStrings (oldContent newContent : string)
    (contextLines : Z) : FileDiff :=
  let oldLines := splitLines oldContent in
  let newLines := splitLines newContent in
  {| oldFile := "a"; newFile := "b";
     hunks := computeHunks oldLines newLines contextLines |}.

(** What a hunk line contributes to the lines inserted by [applyDiff]: the
    text after the tag of an added or a context line, nothing for a removed
    line, an empty line or any other tag. *)
Definition insertedLine (line : string) : option string :=
  match line with
  | String c rest =>
      if Ascii.eqb c "-" then None
      else if Ascii.eqb c "+" then Some rest
      else if Ascii.eqb c " " then Some rest
      else None
  | EmptyString => None
  end.

(** The outcome of replaying hunks: the patched lines, the refusal
    "Hunk starts after end of file", or a call of [vector::erase] on a range
    that is not within the vector, which C++ leaves undefined. *)
Inductive outcome (A : Type) : Type :=
  | Done (a : A)
  | HunkOutOfRange
  | Undefined.
Arguments Done {A} a.
Arguments HunkOutOfRange {A}.
Arguments Undefined {A}.

(** One iteration of the loop of [applyDiff]. [lines.begin() + k] is an
    iterator of the vector for [0 <= k <= lines.size()] only. *)
Definition applyHunk (lines0 : list string) (hunk : DiffHunk)
  : outcome (list string) :=
  if (utils.size_to_int (length lines0) <? oldStart hunk)%Z then HunkOutOfRange
  else
    let first := (oldStart hunk - 1)%Z in
    let last := (oldStart hunk - 1 + oldCount hunk)%Z in
    if bool_decide (0 <= first <= last /\ last <= Z.of_nat (length lines0))%Z
    then
      let erased :=
        take (Z.to_nat first) lines0 ++ drop (Z.to_nat last) lines0 in
      let newLines := omap insertedLine (lines hunk) in
      Done (take (Z.to_nat first) erased ++ newLines
              ++ drop (Z.to_nat first) erased)
    else Undefined.

Fixpoint applyHunks (hs : list DiffHunk) (lines0 : list string)
  : outcome (list string) :=
  match hs with
  | [] => Done lines0
  | hunk :: rest =>
      match applyHunk lines0 hunk with
      | Done lines1 => applyHunks rest lines1
      | HunkOutOfRange => HunkOutOfRange
      | Undefined => Undefined
      end
  end.

(** The joining loop of [applyDiff]: a newline between two lines, none after
    the last. *)
Fixpoint joinLines (ls : list string) : string :=
  match ls with
  | [] => EmptyString
  | [l] => l
  | l :: rest => l +:+ String utils.newline (joinLines rest)
  end.

Definition ends_with_newline (s : string) : bool :=
  bool_decide (utils.back s = Some utils.newline).

Definition finalContent (content : string) (ls : list string) : string :=
  let joined := joinLines ls in
  if ends_with_newline content
     && negb (bool_decide (joined = EmptyString))
     && negb (ends_with_newline joined)
  then joined +:+ String utils.newline EmptyString
  else joined.

(** [utils::readFile]: the content, the empty string when the file does not
    open. *)
Definition readFile (disk : gmap string string) (path : string) : string :=
  default EmptyString (disk !! path).

(** [applyDiff]: the returned flag and the disk afterwards; [None] when the
    replay runs into undefined behaviour. The target is written once, after
    the last hunk; the write itself is taken to succeed. *)
Definition applyDiff (diff : FileDiff) (target : string)
    (disk : gmap string string) : option (bool * gmap string string) :=
  let content := readFile disk target in
  let lines0 := splitLines content in
  match applyHunks (hunks diff) lines0 with
  | HunkOutOfRange => Some (false, disk)
  | Undefined => None
  | Done lines1 => Some (true, <[target := finalContent content lines1]> disk)
  end.

Definition endl : string := String utils.newline EmptyString.

Definition hunkHeader (hunk : DiffHunk) : string :=
  "@@ -" +:+ utils.to_string (oldStart hunk) +:+ ","
    +:+ utils.to_string (oldCount hunk)
    +:+ " +" +:+ utils.to_string (newStart hunk) +:+ ","
    +:+ utils.to_string (newCount hunk) +:+ " @@".

Fixpoint writeLines (ls : list string) : string :=
  match ls with
  | [] => EmptyString
  | line :: rest => line +:+ endl +:+ writeLines rest
  end.

Fixpoint writeHunks (hs : list DiffHunk) : string :=
  match hs with
  | [] => EmptyString
  | hunk :: rest =>
      hunkHeader hunk +:+ endl +:+ writeLines (lines hunk) +:+ writeHunks rest
  end.

Definition diffToString (diff : FileDiff) : string :=
  "--- " +:+ oldFile diff +:+ endl
    +:+ "+++ " +:+ newFile diff +:+ endl
    +:+ writeHunks (hunks diff).

(** The header of a hunk, ["@@ -oldStart,oldCount +newStart,newCount @@"].
    The outer [None] is an exception of [std::stoi]; [Some None] is a line
    on which one of the five searches fails, which the loop skips. Each search
    starts at the position the previous one found, and finds a later one, so
    the differences below do not wrap. *)
Definition parseHunkHeader (header : string) : option (option (Z * Z * Z * Z)) :=
  let minusPos := utils.find_char "-" header in
  let commaPos1 := minusPos ≫= fun p => utils.find_char_from "," p header in
  let plusPos := commaPos1 ≫= fun p => utils.find_char_from "+" p header in
  let commaPos2 := plusPos ≫= fun p => utils.find_char_from "," p header in
  let atPos := commaPos2 ≫= fun p => utils.find_str_from " @@" p header in
  match minusPos, commaPos1, plusPos, commaPos2, atPos with
  | Some m, Some c1, Some p, Some c2, Some a =>
      match utils.stoi (utils.substr (m + 1) (c1 - m - 1) header),
            utils.stoi (utils.substr (c1 + 1) (p - c1 - 1) header),
            utils.stoi (utils.substr (p + 1) (c2 - p - 1) header),
            utils.stoi (utils.substr (c2 + 1) (a - c2 - 1) header) with
      | Some os, Some oc, Some ns, Some nc => Some (Some (os, oc, ns, nc))
      | _, _, _, _ => None
      end
  | _, _, _, _, _ => Some None
  end.

Definition is_hunk_start (line : string) : bool :=
  bool_decide (utils.substr 0 3 line = "@@ ").

(** The inner loop of [parseDiff]: the lines of the hunk, up to the next line
    that starts a hunk, and the lines left. *)
Fixpoint hunkBody (ls : list string) : list string * list string :=
  match ls with
  | line :: rest =>
      if is_hunk_start line then ([], ls)
      else let '(body, rest') := hunkBody rest in (line :: body, rest')
  | [] => ([], [])
  end.

(** The outer loop of [parseDiff] on the lines from index [i] on. Every
    iteration consumes a line, so [fuel] equal to their number is never
    exhausted. *)
Fixpoint parseHunks (fuel : nat) (ls : list string) : option (list DiffHunk) :=
  match fuel with
  | O => Some []
  | S fuel' =>
      match ls with
      | [] => Some []
      | header :: rest =>
          if negb (is_hunk_start header) then parseHunks fuel' rest
          else
            match parseHunkHeader header with
            | None => None
            | Some None => parseHunks fuel' rest
            | Some (Some (os, oc, ns, nc)) =>
                let '(body, rest') := hunkBody rest in
                hs ← parseHunks fuel' rest';
                Some ({| oldStart := os; oldCount := oc;
                         newStart := ns; newCount := nc;
                         lines := body |} :: hs)
            end
      end
  end.

(** [parseDiff]; [None] when [std::stoi] throws. *)
Definition parseDiff (diffStr : string) : option FileDiff :=
  let empty := {| oldFile := ""; newFile := ""; hunks := [] |} in
  match splitLines diffStr with
  | l0 :: l1 :: rest =>
      if bool_decide (utils.substr 0 4 l0 = "--- ") then
        let old := utils.substr_from 4 l0 in
        if bool_decide (utils.substr 0 4 l1 = "+++ ") then
          hs ← parseHunks (length rest) rest;
          Some {| oldFile := old; newFile := utils.substr_from 4 l1;
                  hunks := hs |}
        else Some {| oldFile := old; newFile := ""; hunks := [] |}
      else Some empty
  | _ => Some empty
  end.

(** [generateDiff]: the diff of the contents of two files, under their
    paths. A file that does not open reads as empty. *)
Definition generateDiff (disk : gmap string string) (oldPath newPath : string)
    (contextLines : Z) : FileDiff :=
  let diff :=
    generateDiffFromStrings (readFile disk oldPath) (readFile disk newPath)
      contextLines in
  {| oldFile := oldPath; newFile := newPath; hunks := hunks diff |}.

End DiffEngine.

(** ** The commit manager ([src/commit.cpp]) *)

Module CommitManager.

(** [timestamp] is the reading of the system clock, in its ticks. *)
Record CommitInfo := {
  hash : string;
  message : string;
  author : string;
  email : string;
  timestamp : Z;
  parentHashes : list string;
  fileHashes : gmap string string
}.

(** [CommitInfo commit;]: empty strings and containers. *)
Definition emptyCommit : CommitInfo :=
  {| hash := ""; message := ""; author := ""; email := ""; timestamp := 0;
     parentHashes := []; fileHashes := ∅ |}.

(** The manager and the disk it writes to. Paths under [mimirionDir] are its
    components joined by ["/"]. *)
Record state := {
  mimirionDir : string;
  currentHead : string;
  disk : gmap string string
}.

(** What [createCommit] returns: the hash of the new commit, or the empty
    string after one of three failures, told apart by the message written to
    [std::cerr]: "No files staged for commit" ([EmptyCommit]), "Failed to save
    commit object", "Failed to update HEAD". *)
Inductive CommitResult :=
  | Created (h : string)
  | EmptyCommit
  | SaveObjectFailed
  | UpdateHeadFailed.

Definition returned (r : CommitResult) : string :=
  match r with
  | Created h => h
  | _ => ""
  end.

Definition nl : string := String utils.newline EmptyString.

Definition is_line_end (c : ascii) : bool :=
  Ascii.eqb c utils.newline || Ascii.eqb c "013".

(** [while (!s.empty() && (s.back() == '\n' || s.back() == '\r')) s.pop_back();] *)
Fixpoint stripTrailingNewlines (s : string) : string :=
  match s with
  | EmptyString => EmptyString
  | String c rest =>
      match stripTrailingNewlines rest with
      | EmptyString => if is_line_end c then EmptyString else String c EmptyString
      | rest' => String c rest'
      end
  end.

Definition objectPath (dir h : string) : string :=
  dir +:+ "/objects/" +:+ utils.substr 0 2 h +:+ "/" +:+ utils.substr_from 2 h.

Definition masterRefPath (dir : string) : string := dir +:+ "/refs/heads/master".

Definition headPath (dir : string) : string := dir +:+ "/HEAD".

Section Collaborators.

(** [utils::sha256] (OpenSSL's digest in hexadecimal), [utils::formatTimestamp]
    ([gmtime] and [strftime]), [utils::getUserName] and [utils::getUserEmail]
    (the environment), and whether an output stream on a path opens. *)
Variable sha256 : string -> string.
Variable formatTimestamp : Z -> string.
Variable userName userEmail : string.
Variable canOpen : string -> bool.

Fixpoint parentLines (parents : list string) : string :=
  match parents with
  | [] => EmptyString
  | parent :: rest => "parent " +:+ parent +:+ nl +:+ parentLines rest
  end.

Definition signatureLine (role : string) (commit : CommitInfo) : string :=
  role +:+ " " +:+ author commit +:+ " <" +:+ email commit +:+ "> "
    +:+ formatTimestamp (timestamp commit) +:+ nl.

(** The text [generateCommitHash] builds in its stream and hashes. *)
Definition commitHashText (commit : CommitInfo) : string :=
  "tree " +:+ "dummy-tree-hash" +:+ nl
    +:+ parentLines (parentHashes commit)
    +:+ signatureLine "author" commit
    +:+ signatureLine "committer" commit
    +:+ nl +:+ message commit +:+ nl.

Definition generateCommitHash (commit : CommitInfo) : string :=
  sha256 (commitHashText commit).

Fixpoint fileLines (entries : list (string * string)) : string :=
  match entries with
  | [] => EmptyString
  | (file, h) :: rest =>
      file +:+ String utils.tab EmptyString +:+ h +:+ nl +:+ fileLines rest
  end.

(** The text [saveCommitObject] writes: the serialization of the commit
    record. The file table is written in the iteration order of the map. *)
Definition commitObjectText (commit : CommitInfo) : string :=
  "commit " +:+ hash commit +:+ nl
    +:+ parentLines (parentHashes commit)
    +:+ signatureLine "author" commit
    +:+ signatureLine "committer" commit
    +:+ nl +:+ message commit +:+ nl
    +:+ nl +:+ "files:" +:+ nl
    +:+ fileLines (map_to_list (fileHashes commit)).

Definition saveCommitObject (dir : string) (commit : CommitInfo)
    (d : gmap string string) : bool * gmap string string :=
  let path := objectPath dir (hash commit) in
  if canOpen path then (true, <[path := commitObjectText commit]> d)
  else (false, d).

(** [saveState]: rewrites [HEAD]; a stream that does not open is reported
    and nothing is written. *)
Definition saveState (dir : string) (d : gmap string string)
  : bool * gmap string string :=
  if canOpen (headPath dir)
  then (true, <[headPath dir := "ref: refs/heads/master" +:+ nl]> d)
  else (false, d).

(** The record [createCommit] fills in before it hashes it: the cleaned
    message, the identity of the user, the clock reading, the current HEAD as
    only parent when there is one, and a placeholder in the file table for
    each staged file. *)
Definition stagedTable (stagedFiles : list string) : gmap string string :=
  foldl (fun m file => <[file := "dummy-file-hash"]> m) ∅ stagedFiles.

Definition buildCommit (st : state) (msg : string) (stagedFiles : list string)
    (now : Z) : CommitInfo :=
  {| hash := "";
     message := stripTrailingNewlines msg;
     author := userName;
     email := userEmail;
     timestamp := now;
     parentHashes :=
       if bool_decide (currentHead st = "") then [] else [currentHead st];
     fileHashes := stagedTable stagedFiles |}.

Definition withHash (h : string) (commit : CommitInfo) : CommitInfo :=
  {| hash := h; message := message commit; author := author commit;
     email := email commit; timestamp := timestamp commit;
     parentHashes := parentHashes commit; fileHashes := fileHashes commit |}.

(** [createCommit(message, stagedFiles)] at clock reading [now]. *)
Definition createCommit (st : state) (msg : string)
    (stagedFiles : list string) (now : Z) : CommitResult * state :=
  match stagedFiles with
  | [] => (EmptyCommit, st)
  | _ =>
      let commit := buildCommit st msg stagedFiles now in
      let h := generateCommitHash commit in
      let commit := withHash h commit in
      match saveCommitObject (mimirionDir st) commit (disk st) with
      | (false, d1) =>
          (SaveObjectFailed,
           {| mimirionDir := mimirionDir st; currentHead := currentHead st;
              disk := d1 |})
      | (true, d1) =>
          if canOpen (masterRefPath (mimirionDir st)) then
            let d2 := <[masterRefPath (mimirionDir st) := h +:+ nl]> d1 in
            let '(_, d3) := saveState (mimirionDir st) d2 in
            (Created h,
             {| mimirionDir := mimirionDir st; currentHead := h; disk := d3 |})
          else
            (UpdateHeadFailed,
             {| mimirionDir := mimirionDir st; currentHead := h; disk := d1 |})
      end
  end.

(** [getHistory(maxCount)]. [load] is [loadCommitObject] on the disk, which the
    walk only reads; a commit with an empty hash is its failure. [None] is a
    walk cut short by [fuel]. [count] never exceeds [maxCount] when that is
    not zero, so it never wraps. *)
Fixpoint getHistory_loop (load : string -> CommitInfo) (fuel : nat)
    (current : string) (count maxCount : nat) : option (list CommitInfo) :=
  match fuel with
  | O => None
  | S fuel' =>
      if negb (bool_decide (current = ""))
         && (bool_decide (maxCount = 0%nat) || bool_decide (count < maxCount)%nat)
      then
        let commit := load current in
        if bool_decide (hash commit = "") then Some []
        else
          match parentHashes commit with
          | [] => Some [commit]
          | parent :: _ =>
              (commit ::.) <$> getHistory_loop load fuel' parent (S count) maxCount
          end
      else Some []
  end.

End Collaborators.

(** One line of the header block read by [loadCommitObject]: a parent, the
    author with the e-mail address between ['<'] and ['>'], or a line that is
    skipped. A length that wraps below zero makes [substr] run to the end of
    the line. *)
Definition headerLine (line : string) (commit : CommitInfo) : CommitInfo :=
  if bool_decide (utils.substr 0 7 line = "parent ") then
    {| hash := hash commit; message := message commit;
       author := author commit; email := email commit;
       timestamp := timestamp commit;
       parentHashes := parentHashes commit ++ [utils.substr_from 7 line];
       fileHashes := fileHashes commit |}
  else if bool_decide (utils.substr 0 7 line = "author ") then
    match utils.find_char "<" line, utils.find_char ">" line with
    | Some emailStart, Some emailEnd =>
        {| hash := hash commit; message := message commit;
           author :=
             if bool_decide (8 <= emailStart)%nat
             then utils.substr 7 (emailStart - 8) line
             else utils.substr_from 7 line;
           email :=
             if bool_decide (emailStart + 1 <= emailEnd)%nat
             then utils.substr (emailStart + 1) (emailEnd - emailStart - 1) line
             else utils.substr_from (emailStart + 1) line;
           timestamp := timestamp commit;
           parentHashes := parentHashes commit;
           fileHashes := fileHashes commit |}
    | _, _ => commit
    end
  else commit.

(** The three reading loops of [loadCommitObject], on the lines [std::getline]
    yields one after the other: the headers up to the first empty line, the
    message up to the line ["files:"], the file table. *)
Fixpoint readHeaders (ls : list string) (commit : CommitInfo)
  : CommitInfo * list string :=
  match ls with
  | [] => (commit, [])
  | line :: rest =>
      if bool_decide (line = "") then (commit, rest)
      else readHeaders rest (headerLine line commit)
  end.

Fixpoint readMessage (ls : list string) : string * option (list string) :=
  match ls with
  | [] => (EmptyString, None)
  | line :: rest =>
      if bool_decide (line = "files:") then (EmptyString, Some rest)
      else let '(text, found) := readMessage rest in (line +:+ nl +:+ text, found)
  end.

Fixpoint readFiles (ls : list string) (table : gmap string string)
  : gmap string string :=
  match ls with
  | [] => table
  | line :: rest =>
      match utils.find_char utils.tab line with
      | Some tabPos =>
          readFiles rest
            (<[utils.substr 0 tabPos line := utils.substr_from (tabPos + 1) line]>
               table)
      | None => readFiles rest table
      end
  end.

(** [loadCommitObject(hash)]; the commit with the empty hash is its failure. *)
Definition loadCommitObject (dir : string) (d : gmap string string)
    (h : string) : CommitInfo :=
  if bool_decide (String.length h < 2)%nat then emptyCommit
  else
    match d !! objectPath dir h with
    | None => emptyCommit
    | Some content =>
        match DiffEngine.splitLines content with
        | [] => emptyCommit
        | line :: rest =>
            if negb (bool_decide (utils.substr 0 7 line = "commit "))
            then emptyCommit
            else
              let '(commit, rest1) :=
                readHeaders rest
                  {| hash := h; message := ""; author := ""; email := "";
                     timestamp := 0; parentHashes := []; fileHashes := ∅ |} in
              let '(text, found) := readMessage rest1 in
              {| hash := hash commit;
                 message := stripTrailingNewlines text;
                 author := author commit; email := email commit;
                 timestamp := timestamp commit;
                 parentHashes := parentHashes commit;
                 fileHashes :=
                   match found with
                   | Some rest2 => readFiles rest2 ∅
                   | None => ∅
                   end |}
        end
    end.

(** [getHistory(maxCount)] of a manager: the walk from [currentHead], reading
    the manager's disk. *)
Definition getHistory (st : state) (maxCount fuel : nat)
  : option (list CommitInfo) :=
  getHistory_loop (loadCommitObject (mimirionDir st) (disk st)) fuel
    (currentHead st) 0 maxCount.

(** [loadState]: HEAD is the first line of the master ref, empty when the
    file does not open or holds no line. *)
Definition loadState (st : state) : state :=
  {| mimirionDir := mimirionDir st;
     currentHead :=
       match disk st !! masterRefPath (mimirionDir st) with
       | Some content =>
           match utils.getline content with
           | Some (line, _) => line
           | None => ""
           end
       | None => ""
       end;
     disk := disk st |}.

(** [getCommit(hash)], with the cache [commits] of the manager: the commit
    found (the code returns a pointer to the cached record, null when the
    object does not load) and the cache afterwards. *)
Definition getCommit (st : state) (commits : gmap string CommitInfo)
    (h : string) : option CommitInfo * gmap string CommitInfo :=
  match commits !! h with
  | Some commit => (Some commit, commits)
  | None =>
      let commit := loadCommitObject (mimirionDir st) (disk st) h in
      if bool_decide (hash commit = "") then (None, commits)
      else (Some commit, <[h := commit]> commits)
  end.

Definition getHeadCommit (st : state) (commits : gmap string CommitInfo)
  : option CommitInfo * gmap string CommitInfo :=
  if bool_decide (currentHead st = "") then (None, commits)
  else getCommit st commits (currentHead st).

End CommitManager.

(** ** The file tracker ([src/file_tracker.cpp]) *)

Module FileTracker.

Inductive FileStatus := UNTRACKED | MODIFIED | STAGED | COMMITTED | DELETED.

#[global] Instance FileStatus_eq_dec : EqDecision FileStatus.
Proof. solve_decision. Defined.

(** [static_cast<int>(status)]. *)
Definition statusCode (s : FileStatus) : Z :=
  match s with
  | UNTRACKED => 0 | MODIFIED => 1 | STAGED => 2 | COMMITTED => 3 | DELETED => 4
  end.

Record FileInfo := {
  path : string;
  hash : string;
  lastCommitHash : string;
  status : FileStatus
}.

#[global] Instance FileInfo_eq_dec : EqDecision FileInfo.
Proof. solve_decision. Defined.

Definition withStatus (s : FileStatus) (f : FileInfo) : FileInfo :=
  {| path := path f; hash := hash f; lastCommitHash := lastCommitHash f;
     status := s |}.

(** The tracker: its table of files, and the index file it saves, when it
    has. The working tree is a map from the relative path of each regular
    file outside the metadata directory to its content; paths are given
    relative to the repository, in the form [fs::relative] returns. *)
Record state := {
  files : gmap string FileInfo;
  index : option string
}.

Section Collaborators.

(** [utils::sha256File] on a file that opens is the digest of its content;
    [indexOpens] tells whether the stream on the index file opens. *)
Variable sha256 : string -> string.
Variable indexOpens : bool.

Definition calculateFileHash (tree : gmap string string) (p : string) : string :=
  match tree !! p with
  | Some content => sha256 content
  | None => ""
  end.

(** The body of the first loop of [updateStatus], for one file of the
    working tree. *)
Definition scanEntry (oldFiles : gmap string FileInfo)
    (relativePath content : string) : FileInfo :=
  let h := sha256 content in
  match oldFiles !! relativePath with
  | Some old =>
      {| path := relativePath; hash := h;
         lastCommitHash := lastCommitHash old;
         status :=
           if bool_decide (h ≠ lastCommitHash old) then MODIFIED else COMMITTED |}
  | None =>
      {| path := relativePath; hash := h; lastCommitHash := "";
         status := UNTRACKED |}
  end.

(** The body of the second loop of [updateStatus]. *)
Definition markDeleted (relativePath : string) (old : FileInfo)
    (acc : gmap string FileInfo) : gmap string FileInfo :=
  match acc !! relativePath with
  | None => <[relativePath := withStatus DELETED old]> acc
  | Some _ => acc
  end.

Definition updateStatus (tree : gmap string string) (st : state) : state :=
  let oldFiles := files st in
  let scanned :=
    map_fold (fun p content acc => <[p := scanEntry oldFiles p content]> acc)
      ∅ tree in
  {| files := map_fold markDeleted scanned oldFiles; index := index st |}.

Fixpoint indexLines (entries : list (string * FileInfo)) : string :=
  match entries with
  | [] => EmptyString
  | (_, f) :: rest =>
      path f +:+ String utils.tab EmptyString
        +:+ hash f +:+ String utils.tab EmptyString
        +:+ lastCommitHash f +:+ String utils.tab EmptyString
        +:+ utils.to_string (statusCode (status f))
        +:+ String utils.newline EmptyString
        +:+ indexLines rest
  end.

Definition saveState (st : state) : bool * state :=
  if indexOpens
  then (true, {| files := files st;
                 index := Some (indexLines (map_to_list (files st))) |})
  else (false, st).

Definition stageFile (tree : gmap string string) (st : state) (p : string)
  : bool * state :=
  match tree !! p with
  | None => (false, st)
  | Some _ =>
      let h := calculateFileHash tree p in
      let files' :=
        match files st !! p with
        | Some f =>
            <[p := {| path := path f; hash := h;
                      lastCommitHash := lastCommitHash f; status := STAGED |}]>
              (files st)
        | None =>
            <[p := {| path := p; hash := h; lastCommitHash := "";
                      status := STAGED |}]> (files st)
        end in
      saveState {| files := files'; index := index st |}
  end.

Definition unstageFile (tree : gmap string string) (st : state) (p : string)
  : bool * state :=
  match files st !! p with
  | Some f =>
      if bool_decide (status f ≠ STAGED) then (false, st)
      else
        let s :=
          if bool_decide (lastCommitHash f = "") then UNTRACKED
          else if bool_decide (calculateFileHash tree p = lastCommitHash f)
               then COMMITTED else MODIFIED in
        saveState {| files := <[p := withStatus s f]> (files st);
                     index := index st |}
  | None => (false, st)
  end.

(** [updateFileStatus], the private helper that classifies one entry. *)
Definition updateFileStatus (tree : gmap string string) (f : FileInfo)
  : FileInfo :=
  match tree !! path f with
  | None => withStatus DELETED f
  | Some _ =>
      if bool_decide (lastCommitHash f = "") then withStatus UNTRACKED f
      else if bool_decide (calculateFileHash tree (path f) = lastCommitHash f)
           then withStatus COMMITTED f
           else withStatus MODIFIED f
  end.

End Collaborators.

(** The comparison of [getFiles] and [getStagedFiles], [a.path < b.path] on
    [std::string], as the order it sorts into: [a] may stand before [b]. *)
Definition path_le (a b : FileInfo) : Prop :=
  String.leb (path a) (path b) = true.

#[global] Instance path_le_dec (a b : FileInfo) : Decision (path_le a b).
Proof. unfold path_le. apply _. Defined.

(** [getFiles]: the entries of the table sorted by path. [std::sort] leaves
    open the order of entries of equal path; entries of a table carry their
    key as path, so no two have the same. *)
Definition getFiles (st : state) : list FileInfo :=
  merge_sort path_le (snd <$> map_to_list (files st)).

Definition getStagedFiles (st : state) : list FileInfo :=
  merge_sort path_le
    (filter (fun f => status f = STAGED) (snd <$> map_to_list (files st))).

(** [static_cast<FileStatus>(status)] for the codes of the five enumerators. *)
Definition statusOfCode (code : Z) : option FileStatus :=
  if bool_decide (code = 0)%Z then Some UNTRACKED
  else if bool_decide (code = 1)%Z then Some MODIFIED
  else if bool_decide (code = 2)%Z then Some STAGED
  else if bool_decide (code = 3)%Z then Some COMMITTED
  else if bool_decide (code = 4)%Z then Some DELETED
  else None.

(** One line of the index as [loadState] reads it: three fields, each up to
    a tab, then the status read by [operator>>], which like [std::stoi] skips
    white space, reads a sign and digits and fails without a digit or beyond
    an [int]. [Some None] is a line that is skipped. The outer [None] is a
    status code that is none of the five enumerators: the value such an entry
    holds has no counterpart here. *)
Definition parseIndexLine (line : string) : option (option FileInfo) :=
  match utils.getline_delim utils.tab line with
  | Some (p, rest1) =>
      match utils.getline_delim utils.tab rest1 with
      | Some (h, rest2) =>
          match utils.getline_delim utils.tab rest2 with
          | Some (l, rest3) =>
              match utils.stoi rest3 with
              | Some code =>
                  match statusOfCode code with
                  | Some s =>
                      Some (Some {| path := p; hash := h; lastCommitHash := l;
                                    status := s |})
                  | None => None
                  end
              | None => Some None
              end
          | None => Some None
          end
      | None => Some None
      end
  | None => Some None
  end.

Fixpoint loadIndexLines (ls : list string) (acc : gmap string FileInfo)
  : option (gmap string FileInfo) :=
  match ls with
  | [] => Some acc
  | line :: rest =>
      match parseIndexLine line with
      | None => None
      | Some None => loadIndexLines rest acc
      | Some (Some f) => loadIndexLines rest (<[path f := f]> acc)
      end
  end.

(** [loadState]: the table read from the index file, empty when there is no
    index file. *)
Definition loadState (st : state) : option state :=
  match index st with
  | None => Some {| files := ∅; index := None |}
  | Some content =>
      table ← loadIndexLines (DiffEngine.splitLines content) ∅;
      Some {| files := table; index := index st |}
  end.

(** [isIgnored]: with a [.mimirionignore] file or without, the test is
    [path.string().find(mimirionDir.string()) == 0]; the file is never read. *)
Definition isIgnored (ignoreFileExists : bool) (mimirionDir path : string)
  : bool :=
  if negb ignoreFileExists
  then bool_decide (utils.find_str mimirionDir path = Some 0%nat)
  else bool_decide (utils.find_str mimirionDir path = Some 0%nat).

End FileTracker.

(** ** The remote manager ([src/remote.cpp]) *)

Module RemoteManager.

(** The table of remotes, from name to URL, and the file
    [config/remotes] when it exists. *)
Record state := {
  remotes : gmap string string;
  remotesFile : option string
}.

Fixpoint remoteLines (entries : list (string * string)) : string :=
  match entries with
  | [] => EmptyString
  | (name, url) :: rest =>
      name +:+ " " +:+ url +:+ String utils.newline EmptyString
        +:+ remoteLines rest
  end.

(** [saveState]; [fileOpens] tells whether the stream on the file opens. *)
Definition saveState (fileOpens : bool) (st : state) : bool * state :=
  if fileOpens
  then (true, {| remotes := remotes st;
                 remotesFile := Some (remoteLines (map_to_list (remotes st))) |})
  else (false, st).

(** The loop of [loadState]: a line with a space is a name and a URL, cut at
    the first space; a line without one is skipped. *)
Fixpoint loadRemoteLines (ls : list string) (acc : gmap string string)
  : gmap string string :=
  match ls with
  | [] => acc
  | line :: rest =>
      match utils.find_char " " line with
      | Some spacePos =>
          loadRemoteLines rest
            (<[utils.substr 0 spacePos line
               := utils.substr_from (spacePos + 1) line]> acc)
      | None => loadRemoteLines rest acc
      end
  end.

Definition loadState (st : state) : state :=
  match remotesFile st with
  | None => {| remotes := ∅; remotesFile := None |}
  | Some content =>
      {| remotes := loadRemoteLines (DiffEngine.splitLines content) ∅;
         remotesFile := remotesFile st |}
  end.

Definition addRemote (fileOpens : bool) (st : state) (name url : string)
  : bool * state :=
  saveState fileOpens
    {| remotes := <[name := url]> (remotes st); remotesFile := remotesFile st |}.

Definition removeRemote (fileOpens : bool) (st : state) (name : string)
  : bool * state :=
  match remotes st !! name with
  | None => (false, st)
  | Some _ =>
      saveState fileOpens
        {| remotes := delete name (remotes st); remotesFile := remotesFile st |}
  end.

End RemoteManager.

(** ** Auxiliary definitions of the proofs *)

(** The lines of a text by recursion on the text: what [splitLines] returns
    ([splitLines_lines_of]). *)
Fixpoint lines_of (s : string) : list string :=
  match s with
  | EmptyString => []
  | String c rest =>
      if Ascii.eqb c utils.newline then EmptyString :: lines_of rest
      else
        match lines_of rest with
        | [] => [String c EmptyString]
        | line :: more => String c line :: more
        end
  end.

(** Every character of the string satisfies [p]. *)
Fixpoint all_chars (p : ascii -> bool) (s : string) : bool :=
  match s with
  | EmptyString => true
  | String c rest => p c && all_chars p rest
  end.

Definition no_newline (s : string) : bool :=
  all_chars (fun c => negb (Ascii.eqb c utils.newline)) s.

(** The hunks in ascending [oldStart] order, hunks of equal [oldStart] in
    the order of the diff: the replay order the specification words. *)
Fixpoint insertHunk (h : DiffEngine.DiffHunk) (hs : list DiffEngine.DiffHunk)
  : list DiffEngine.DiffHunk :=
  match hs with
  | [] => [h]
  | h' :: rest =>
      if (DiffEngine.oldStart h <=? DiffEngine.oldStart h')%Z
      then h :: hs
      else h' :: insertHunk h rest
  end.

Fixpoint ascendingHunks (hs : list DiffEngine.DiffHunk)
  : list DiffEngine.DiffHunk :=
  match hs with
  | [] => []
  | h :: rest => insertHunk h (ascendingHunks rest)
  end.

(** The hunks of the diff are listed in ascending [oldStart] order. *)
Fixpoint ascending (hs : list DiffEngine.DiffHunk) : Prop :=
  match hs with
  | [] => True
  | h :: rest =>
      Forall (fun h' => (DiffEngine.oldStart h <= DiffEngine.oldStart h')%Z) rest
      /\ ascending rest
  end.

(** The first-parent chain of the commit graph a loader reads: from a hash
    that is not empty and loads, the commits reached by following the first
    parent, down to a commit with no parent. Further parents play no part. *)
Inductive first_parent_chain (load : string -> CommitManager.CommitInfo)
  : string -> list CommitManager.CommitInfo -> Prop :=
  | chain_root h :
      h <> "" ->
      CommitManager.hash (load h) <> "" ->
      CommitManager.parentHashes (load h) = [] ->
      first_parent_chain load h [load h]
  | chain_parent h parent others chain :
      h <> "" ->
      CommitManager.hash (load h) <> "" ->
      CommitManager.parentHashes (load h) = parent :: others ->
      first_parent_chain load parent chain ->
      first_parent_chain load h (load h :: chain).

(** The history behind HEAD: nothing while there is no commit, the
    first-parent chain of HEAD otherwise. *)
Definition history_chain (load : string -> CommitManager.CommitInfo)
    (head : string) (chain : list CommitManager.CommitInfo) : Prop :=
  (head = "" /\ chain = []) \/ first_parent_chain load head chain.

(** The first [maxCount] entries, all of them when [maxCount] is zero. *)
Definition limit {A : Type} (maxCount : nat) (l : list A) : list A :=
  if bool_decide (maxCount = 0%nat) then l else take maxCount l.

(** A stand-in for a digest in the examples: distinct on texts of distinct
    length, never empty. *)
Definition toyDigest (s : string) : string :=
  "h" +:+ utils.to_string (Z.of_nat (String.length s)).

Definition toyTimestamp (t : Z) : string := "T" +:+ utils.to_string t.

(** A metadata directory with three commit objects: two roots and a commit
    with both of them as parents, the first being [aa1]. *)
Definition mergeDisk : gmap string string :=
  {[ ".mimirion/objects/aa/1" :=
       "commit aa1" +:+ CommitManager.nl
         +:+ "author Ann <ann@x.org> T1" +:+ CommitManager.nl
         +:+ "committer Ann <ann@x.org> T1" +:+ CommitManager.nl
         +:+ CommitManager.nl +:+ "first" +:+ CommitManager.nl
         +:+ CommitManager.nl +:+ "files:" +:+ CommitManager.nl;
     ".mimirion/objects/bb/2" :=
       "commit bb2" +:+ CommitManager.nl
         +:+ "author Bob <bob@x.org> T2" +:+ CommitManager.nl
         +:+ "committer Bob <bob@x.org> T2" +:+ CommitManager.nl
         +:+ CommitManager.nl +:+ "side" +:+ CommitManager.nl
         +:+ CommitManager.nl +:+ "files:" +:+ CommitManager.nl;
     ".mimirion/objects/cc/3" :=
       "commit cc3" +:+ CommitManager.nl
         +:+ "parent aa1" +:+ CommitManager.nl
         +:+ "parent bb2" +:+ CommitManager.nl
         +:+ "author Ann <ann@x.org> T3" +:+ CommitManager.nl
         +:+ "committer Ann <ann@x.org> T3" +:+ CommitManager.nl
         +:+ CommitManager.nl +:+ "merge" +:+ CommitManager.nl
         +:+ CommitManager.nl +:+ "files:" +:+ CommitManager.nl ]}.

Definition mergeState : CommitManager.state :=
  {| CommitManager.mimirionDir := ".mimirion";
     CommitManager.currentHead := "cc3";
     CommitManager.disk := mergeDisk |}.

(** The characters [operator<<] prints for an [int]. *)
Definition numeric (c : ascii) : bool := utils.is_digit c || Ascii.eqb c "-".

(** The header of a hunk, as a function of the four printed numbers. *)
Definition headerText (os oc ns nc : string) : string :=
  "@@ -" +:+ os +:+ "," +:+ oc +:+ " +" +:+ ns +:+ "," +:+ nc +:+ " @@".

(** The characters other than [c]. *)
Definition differs (c : ascii) : ascii -> bool := fun x => negb (Ascii.eqb x c).

(** A hunk line that starts with one of the three tags. *)
Definition tagged (line : string) : bool :=
  match line with
  | String c _ => Ascii.eqb c " " || Ascii.eqb c "+" || Ascii.eqb c "-"
  | EmptyString => false
  end.

(** A well-formed hunk line: tagged, and a single line. *)
Definition wf_line (line : string) : bool := tagged line && no_newline line.

(** A well-formed hunk: four [int]s and well-formed lines. *)
Definition wf_hunk (h : DiffEngine.DiffHunk) : Prop :=
  utils.int_range (DiffEngine.oldStart h)
  /\ utils.int_range (DiffEngine.oldCount h)
  /\ utils.int_range (DiffEngine.newStart h)
  /\ utils.int_range (DiffEngine.newCount h)
  /\ Forall (fun line => wf_line line = true) (DiffEngine.lines h).

(** A well-formed diff: two paths that are single lines, and well-formed
    hunks. *)
Definition wf_diff (d : DiffEngine.FileDiff) : Prop :=
  no_newline (DiffEngine.oldFile d) = true
  /\ no_newline (DiffEngine.newFile d) = true
  /\ Forall wf_hunk (DiffEngine.hunks d).

(** The lines [diffToString] writes for a hunk, and for a diff. *)
Definition hunkLines (h : DiffEngine.DiffHunk) : list string :=
  DiffEngine.hunkHeader h :: DiffEngine.lines h.

Definition serialLines (d : DiffEngine.FileDiff) : list string :=
  ("--- " +:+ DiffEngine.oldFile d)
    :: ("+++ " +:+ DiffEngine.newFile d)
    :: concat (hunkLines <$> DiffEngine.hunks d).

(** The tokens of a text cut at a delimiter, by recursion on the text: what
    [utils::split] returns ([split_fields_of]). *)
Fixpoint fields_of (d : ascii) (s : string) : list string :=
  match s with
  | EmptyString => []
  | String c rest =>
      if Ascii.eqb c d then EmptyString :: fields_of d rest
      else
        match fields_of d rest with
        | [] => [String c EmptyString]
        | token :: more => String c token :: more
        end
  end.

(** A signature line of a commit object without its newline. *)
Definition signatureText (formatTimestamp : Z -> string) (role : string)
    (commit : CommitManager.CommitInfo) : string :=
  role +:+ " " +:+ CommitManager.author commit +:+ " <"
    +:+ CommitManager.email commit +:+ "> "
    +:+ formatTimestamp (CommitManager.timestamp commit).

Definition fileLine (entry : string * string) : string :=
  entry.1 +:+ String utils.tab EmptyString +:+ entry.2.

(** A commit that [loadCommitObject] reads back from the object
    [saveCommitObject] writes: the hash has two characters at least; hash,
    parents, author, e-mail, printed time and the entries of the file table
    hold no newline; the author holds no angle bracket and the e-mail no
    closing one; the message ends with no newline or carriage return and has
    no line that reads "files:"; no path of the table holds a tab. *)
Definition wf_commit (formatTimestamp : Z -> string)
    (commit : CommitManager.CommitInfo) : Prop :=
  (2 <= String.length (CommitManager.hash commit))%nat
  /\ no_newline (CommitManager.hash commit) = true
  /\ Forall (fun p => no_newline p = true) (CommitManager.parentHashes commit)
  /\ all_chars (differs "<") (CommitManager.author commit) = true
  /\ all_chars (differs ">") (CommitManager.author commit) = true
  /\ no_newline (CommitManager.author commit) = true
  /\ all_chars (differs ">") (CommitManager.email commit) = true
  /\ no_newline (CommitManager.email commit) = true
  /\ no_newline (formatTimestamp (CommitManager.timestamp commit)) = true
  /\ CommitManager.stripTrailingNewlines (CommitManager.message commit)
     = CommitManager.message commit
  /\ Forall (fun l => l <> "files:")
       (lines_of (CommitManager.message commit +:+ CommitManager.nl))
  /\ Forall (fun entry =>
               all_chars (differs utils.tab) entry.1 = true
               /\ no_newline entry.1 = true /\ no_newline entry.2 = true)
       (map_to_list (CommitManager.fileHashes commit)).

(** The commit [loadCommitObject] returns for a stored commit: the time is
    not read back. *)
Definition withoutTimestamp (commit : CommitManager.CommitInfo)
  : CommitManager.CommitInfo :=
  {| CommitManager.hash := CommitManager.hash commit;
     CommitManager.message := CommitManager.message commit;
     CommitManager.author := CommitManager.author commit;
     CommitManager.email := CommitManager.email commit;
     CommitManager.timestamp := 0;
     CommitManager.parentHashes := CommitManager.parentHashes commit;
     CommitManager.fileHashes := CommitManager.fileHashes commit |}.

(** A request to [createCommit] whose commit object reads back: the user's
    name holds no angle bracket, the e-mail address no closing one, neither
    of them, the current HEAD and the printed time a newline; the cleaned
    message has no line that reads "files:"; no staged path holds a tab or a
    newline. *)
Definition wf_request (formatTimestamp : Z -> string)
    (userName userEmail : string) (st : CommitManager.state) (msg : string)
    (stagedFiles : list string) (now : Z) : Prop :=
  all_chars (differs "<") userName = true
  /\ all_chars (differs ">") userName = true
  /\ no_newline userName = true
  /\ all_chars (differs ">") userEmail = true
  /\ no_newline userEmail = true
  /\ no_newline (CommitManager.currentHead st) = true
  /\ no_newline (formatTimestamp now) = true
  /\ Forall (fun l => l <> "files:")
       (lines_of (CommitManager.stripTrailingNewlines msg +:+ CommitManager.nl))
  /\ Forall (fun file =>
               all_chars (differs utils.tab) file = true
               /\ no_newline file = true)
       stagedFiles.

(** The commit that [createCommit] stores, as [loadCommitObject] returns it. *)
Definition storedCommit (userName userEmail : string)
    (st : CommitManager.state) (msg : string) (stagedFiles : list string)
    (h : string) : CommitManager.CommitInfo :=
  CommitManager.withHash h
    (CommitManager.buildCommit userName userEmail st msg stagedFiles 0).

(** A line of the index file without its newline. *)
Definition indexLine (f : FileTracker.FileInfo) : string :=
  FileTracker.path f +:+ String utils.tab EmptyString
    +:+ FileTracker.hash f +:+ String utils.tab EmptyString
    +:+ FileTracker.lastCommitHash f +:+ String utils.tab EmptyString
    +:+ utils.to_string (FileTracker.statusCode (FileTracker.status f)).

(** A table whose entries stand under their own path, as every operation of
    the tracker enters them. *)
Definition keyed (table : gmap string FileTracker.FileInfo) : Prop :=
  forall k f, table !! k = Some f -> FileTracker.path f = k.

(** An entry whose fields hold neither a tab nor a newline. *)
Definition plain (s : string) : Prop :=
  all_chars (differs utils.tab) s = true /\ no_newline s = true.

Definition wf_entry (f : FileTracker.FileInfo) : Prop :=
  plain (FileTracker.path f) /\ plain (FileTracker.hash f)
  /\ plain (FileTracker.lastCommitHash f).

(** A line of the remotes file without its newline. *)
Definition remoteLine (entry : string * string) : string :=
  entry.1 +:+ " " +:+ entry.2.

(** Remotes that are read back: no space in the name, no newline in the name
    or the URL. *)
Definition wf_remote (name url : string) : Prop :=
  all_chars (differs " ") name = true
  /\ no_newline name = true /\ no_newline url = true.

(** * Properties *)

#[local] Arguments String.append !s1 s2 : simpl nomatch.

(** ** Strings *)

Lemma append_nil_r (s : string) : s +:+ "" = s.
Proof. induction s as [|c s IH]; simpl; [done | by rewrite IH]. Qed.

Lemma append_assoc (a b c : string) : (a +:+ b) +:+ c = a +:+ (b +:+ c).
Proof. induction a as [|x a IH]; simpl; [done | by rewrite IH]. Qed.

Lemma length_append (a b : string) :
  String.length (a +:+ b) = (String.length a + String.length b)%nat.
Proof. induction a as [|x a IH]; simpl; [done | by rewrite IH]. Qed.

Lemma all_chars_append p (a b : string) :
  all_chars p (a +:+ b) = all_chars p a && all_chars p b.
Proof.
  induction a as [|x a IH]; simpl; [done|].
  rewrite IH. by destruct (p x).
Qed.

Lemma all_chars_impl (p q : ascii -> bool) (s : string) :
  (forall c, p c = true -> q c = true) ->
  all_chars p s = true -> all_chars q s = true.
Proof.
  intros Hpq. induction s as [|c s IH]; simpl; [done|].
  intros [Hc Hs]%andb_prop. rewrite (Hpq _ Hc). simpl. auto.
Qed.

(** ** [splitLines] *)

Lemma getline_chars_lines_of (c : ascii) (s : string) :
  lines_of (String c s) =
  (utils.getline_chars (String c s)).1
    :: lines_of (utils.getline_chars (String c s)).2.
Proof.
  revert c. induction s as [|d s IH]; intros c; simpl.
  - by destruct (Ascii.eqb c utils.newline).
  - destruct (Ascii.eqb c utils.newline) eqn:Hc; [done|].
    specialize (IH d). simpl in IH. rewrite IH.
    by destruct (Ascii.eqb d utils.newline), (utils.getline_chars s).
Qed.

Lemma getline_chars_length (s : string) :
  (String.length (utils.getline_chars s).2 <= String.length s)%nat.
Proof.
  induction s as [|c s IH]; simpl; [lia|].
  destruct (Ascii.eqb c utils.newline); simpl; [lia|].
  destruct (utils.getline_chars s); simpl in *. lia.
Qed.

Lemma splitLines_loop_lines_of (fuel : nat) (s : string) :
  (String.length s <= fuel)%nat ->
  DiffEngine.splitLines_loop fuel s = lines_of s.
Proof.
  revert s. induction fuel as [|fuel IH]; intros s Hlen.
  - destruct s; simpl in *; [done | lia].
  - destruct s as [|c s]; [done|].
    rewrite getline_chars_lines_of.
    cbn [DiffEngine.splitLines_loop utils.getline].
    pose proof (getline_chars_length s) as Hs.
    destruct (utils.getline_chars (String c s)) as [line rest] eqn:Hg.
    cbn [fst snd]. f_equal. apply IH.
    simpl in Hg, Hlen.
    destruct (Ascii.eqb c utils.newline).
    + inversion Hg; subst. lia.
    + destruct (utils.getline_chars s); inversion Hg; subst. simpl in Hs. lia.
Qed.

(** [splitLines] never runs out of fuel: it returns the lines of the text. *)
Lemma splitLines_lines_of (s : string) : DiffEngine.splitLines s = lines_of s.
Proof. apply splitLines_loop_lines_of. lia. Qed.

Lemma lines_of_line (l rest : string) :
  no_newline l = true ->
  lines_of (l +:+ String utils.newline rest) = l :: lines_of rest.
Proof.
  induction l as [|c l IH]; simpl; [done|].
  intros [Hc Hl]%andb_prop.
  apply negb_true_iff in Hc. rewrite Hc. by rewrite IH.
Qed.

Lemma lines_of_trailing_newline (s : string) :
  s <> EmptyString -> utils.back s <> Some utils.newline ->
  lines_of (s +:+ String utils.newline EmptyString) = lines_of s.
Proof.
  induction s as [|c s IH]; [done|].
  intros _ Hback. destruct s as [|d s].
  - simpl in *. destruct (Ascii.eqb_spec c utils.newline) as [->|_]; done.
  - assert (utils.back (String d s) <> Some utils.newline) as Hback' by done.
    remember (String d s) as t eqn:Ht.
    simpl. rewrite IH; [done | by subst | done].
Qed.

(** ** Computing diffs *)

Lemma computeHunks_equal (oldLines newLines : list string) (contextLines : Z) :
  oldLines = newLines ->
  DiffEngine.computeHunks oldLines newLines contextLines = [].
Proof.
  intros Heq. unfold DiffEngine.computeHunks.
  by rewrite bool_decide_eq_true_2.
Qed.

(** C9. The diff of a line sequence against itself has no hunk: the test
    [oldLines == newLines] at the head of [computeHunks] returns the empty
    vector, whatever the number of context lines asked for. *)
Theorem computeHunks_identical (x : list string) (contextLines : Z) :
  DiffEngine.computeHunks x x contextLines = [].
Proof.
  unfold DiffEngine.computeHunks.
  destruct (bool_decide_reflect (x = x)) as [_|Hne].
  - reflexivity.
  - contradiction Hne. reflexivity.
Qed.

(** C10, as the code has it. A content that is not empty and does not end
    with a newline has the same lines as the content followed by one newline,
    so the diff between the two has no hunk. *)
Theorem generateDiffFromStrings_trailing_newline (s : string) (contextLines : Z) :
  s <> EmptyString ->
  utils.back s <> Some utils.newline ->
  DiffEngine.hunks
    (DiffEngine.generateDiffFromStrings s (s +:+ DiffEngine.endl) contextLines)
  = [].
Proof.
  intros Hne Hback.
  unfold DiffEngine.generateDiffFromStrings, DiffEngine.endl.
  cbn [DiffEngine.hunks].
  apply computeHunks_equal.
  by rewrite !splitLines_lines_of, lines_of_trailing_newline.
Qed.

Lemma generateDiffFromStrings_trailing_newline_witness :
  DiffEngine.hunks
    (DiffEngine.generateDiffFromStrings
       ("Line 1" +:+ DiffEngine.endl +:+ "Line 2")
       (("Line 1" +:+ DiffEngine.endl +:+ "Line 2") +:+ DiffEngine.endl) 3)
  = [].
Proof.
  apply (generateDiffFromStrings_trailing_newline
           ("Line 1" +:+ DiffEngine.endl +:+ "Line 2") 3).
  - discriminate.
  - vm_compute. discriminate.
Defined.

(** C10 as stated fails on the empty content: [splitLines] of the empty text
    is the empty vector, of a lone newline it is one empty line, and the diff
    between them has a hunk that adds that line. *)
Lemma generateDiffFromStrings_empty_against_newline :
  DiffEngine.hunks
    (DiffEngine.generateDiffFromStrings EmptyString
       (EmptyString +:+ DiffEngine.endl) 3)
  <> [].
Proof. vm_compute. discriminate. Qed.

(** The same for a content that already ends with a newline: one more
    newline is one more, empty, line. *)
Lemma generateDiffFromStrings_newline_against_two :
  DiffEngine.hunks
    (DiffEngine.generateDiffFromStrings ("a" +:+ DiffEngine.endl)
       (("a" +:+ DiffEngine.endl) +:+ DiffEngine.endl) 3)
  = [ {| DiffEngine.oldStart := 1; DiffEngine.oldCount := 1;
         DiffEngine.newStart := 1; DiffEngine.newCount := 2;
         DiffEngine.lines := [" a"; "+"] |} ].
Proof. vm_compute. reflexivity. Qed.

(** ** Applying diffs *)

(** The lines the replay inserts for the hunk of the comparison loop are the
    new lines: every new line is emitted once, in order, as a context or an
    added line, and the removed lines contribute nothing. *)
Lemma omap_insertedLine_compareLines (oldLines newLines : list string) :
  omap DiffEngine.insertedLine (DiffEngine.compareLines oldLines newLines)
  = newLines.
Proof.
  revert oldLines. induction newLines as [|n newRest IH]; intros oldLines.
  - simpl. induction oldLines as [|o oldRest IHo]; [done|]. simpl. exact IHo.
  - destruct oldLines as [|o oldRest]; simpl.
    + by rewrite IH.
    + case_bool_decide; simpl; rewrite IH; congruence.
Qed.

Lemma wrap_int_small (n : nat) :
  (Z.of_nat n < 2 ^ 31)%Z -> utils.size_to_int n = Z.of_nat n.
Proof.
  intros Hn. unfold utils.size_to_int, utils.wrap_int.
  rewrite Z.mod_small; lia.
Qed.

(** X1. The round trip holds on the default path of [computeHunks]: when the old
    sequence is not empty and the two sequences differ, and either the new one
    is not exactly one line longer or no old line differs from the new line at
    its index, the single hunk replaces all old lines by the new ones. *)
Lemma applyHunks_computeHunks_default (oldLines newLines : list string)
    (contextLines : Z) :
  oldLines <> [] -> oldLines <> newLines ->
  (Z.of_nat (length oldLines) < 2 ^ 31)%Z ->
  (length newLines <> S (length oldLines)
   \/ DiffEngine.firstMismatch 0 oldLines newLines = None) ->
  DiffEngine.applyHunks
    (DiffEngine.computeHunks oldLines newLines contextLines) oldLines
  = DiffEngine.Done newLines.
Proof.
  intros Hne Hdiff Hsmall Hdefault.
  unfold DiffEngine.computeHunks.
  rewrite bool_decide_eq_false_2 by assumption.
  set (h := {| DiffEngine.oldStart := 1;
               DiffEngine.oldCount := utils.size_to_int (length oldLines);
               DiffEngine.newStart := 1;
               DiffEngine.newCount := utils.size_to_int (length newLines);
               DiffEngine.lines := DiffEngine.compareLines oldLines newLines |}).
  assert (DiffEngine.applyHunks [h] oldLines = DiffEngine.Done newLines) as Hh.
  { cbn [DiffEngine.applyHunks]. unfold DiffEngine.applyHunk, h.
    cbn [DiffEngine.oldStart DiffEngine.oldCount DiffEngine.lines].
    rewrite wrap_int_small by assumption.
    destruct oldLines as [|o oldRest]; [done|].
    destruct (Z.ltb_spec (Z.of_nat (length (o :: oldRest))) 1) as [Hlt|_].
    { simpl in Hlt. lia. }
    rewrite bool_decide_eq_true_2 by lia.
    replace (Z.to_nat (1 - 1)) with 0%nat by lia.
    replace (Z.to_nat (1 - 1 + Z.of_nat (length (o :: oldRest))))
      with (length (o :: oldRest)) by lia.
    rewrite drop_all, omap_insertedLine_compareLines.
    cbn [take drop app]. by rewrite app_nil_r. }
  case_bool_decide as Hlen; [|exact Hh].
  destruct Hdefault as [Hn | ->]; [done | exact Hh].
Qed.

Lemma applyHunks_computeHunks_default_witness :
  DiffEngine.applyHunks
    (DiffEngine.computeHunks ["Line1"; "Line2"; "Line3"]
       ["Line1"; "LineX"; "Line3"] 3)
    ["Line1"; "Line2"; "Line3"]
  = DiffEngine.Done ["Line1"; "LineX"; "Line3"].
Proof.
  apply (applyHunks_computeHunks_default ["Line1"; "Line2"; "Line3"]
           ["Line1"; "LineX"; "Line3"] 3).
  - discriminate.
  - discriminate.
  - simpl. lia.
  - left. simpl. lia.
Defined.

(** The script of the comparison loop is not minimal. After the first
    mismatch every new line left is emitted as added, unless it equals the
    old line the loop is stuck at, and the old lines left are removed: for one
    changed line out of three, two additions and two removals. *)
Lemma computeHunks_not_minimal :
  DiffEngine.computeHunks ["Line1"; "Line2"; "Line3"]
    ["Line1"; "LineX"; "Line3"] 3
  = [ {| DiffEngine.oldStart := 1; DiffEngine.oldCount := 3;
         DiffEngine.newStart := 1; DiffEngine.newCount := 3;
         DiffEngine.lines :=
           [" Line1"; "+LineX"; "+Line3"; "-Line2"; "-Line3"] |} ].
Proof. vm_compute. reflexivity. Qed.

(** C1, on the code. The repository's own test [ApplyDiff] patches
    "Line 1/Line 2/Line 3" with its diff against
    "Line 1/Modified Line 2/Line 3/New Line 4". The new content is one line
    longer, so [computeHunks] takes its special case at the first differing
    index and emits a hunk of fixed counts 2 and 3; replaying it yields
    "Line 1/Modified Line 2/Line 2/Line 3", which is not the new content. *)
Theorem applyDiff_generateDiff_ApplyDiff_test :
  let content1 :=
    "Line 1" +:+ DiffEngine.endl +:+ "Line 2" +:+ DiffEngine.endl
      +:+ "Line 3" +:+ DiffEngine.endl in
  let content2 :=
    "Line 1" +:+ DiffEngine.endl +:+ "Modified Line 2" +:+ DiffEngine.endl
      +:+ "Line 3" +:+ DiffEngine.endl +:+ "New Line 4" +:+ DiffEngine.endl in
  let patched :=
    "Line 1" +:+ DiffEngine.endl +:+ "Modified Line 2" +:+ DiffEngine.endl
      +:+ "Line 2" +:+ DiffEngine.endl +:+ "Line 3" +:+ DiffEngine.endl in
  DiffEngine.hunks (DiffEngine.generateDiffFromStrings content1 content2 3)
  = [ {| DiffEngine.oldStart := 1; DiffEngine.oldCount := 2;
         DiffEngine.newStart := 1; DiffEngine.newCount := 3;
         DiffEngine.lines :=
           [" Line 1"; "-Line 2"; "+Modified Line 2"; " Line 2"] |} ]
  /\ DiffEngine.applyDiff
       (DiffEngine.generateDiffFromStrings content1 content2 3)
       "original.txt" {[ "original.txt" := content1 ]}
     = Some (true, {[ "original.txt" := patched ]})
  /\ patched <> content2.
Proof.
  cbv zeta. split; [|split].
  - vm_compute. reflexivity.
  - unfold DiffEngine.applyDiff, DiffEngine.readFile.
    rewrite lookup_singleton_eq. cbn [default].
    match goal with
    | |- context [DiffEngine.applyHunks ?hs ?ls] =>
        let r := eval vm_compute in (DiffEngine.applyHunks hs ls) in
        change (DiffEngine.applyHunks hs ls) with r
    end.
    cbv iota beta. rewrite insert_singleton_eq. reflexivity.
  - vm_compute. discriminate.
Qed.

Lemma applyHunks_app (pre post : list DiffEngine.DiffHunk) (ls : list string) :
  DiffEngine.applyHunks (pre ++ post) ls =
  match DiffEngine.applyHunks pre ls with
  | DiffEngine.Done ls1 => DiffEngine.applyHunks post ls1
  | DiffEngine.HunkOutOfRange => DiffEngine.HunkOutOfRange
  | DiffEngine.Undefined => DiffEngine.Undefined
  end.
Proof.
  revert ls. induction pre as [|h pre IH]; intros ls; simpl; [done|].
  destruct (DiffEngine.applyHunk ls h); auto.
Qed.

Lemma applyHunk_out_of_range (ls : list string) (hunk : DiffEngine.DiffHunk) :
  utils.int_range (DiffEngine.oldStart hunk) ->
  (Z.of_nat (length ls) < DiffEngine.oldStart hunk)%Z ->
  DiffEngine.applyHunk ls hunk = DiffEngine.HunkOutOfRange.
Proof.
  intros [_ Hhi] Hlt. unfold DiffEngine.applyHunk.
  rewrite wrap_int_small by lia.
  destruct (Z.ltb_spec (Z.of_nat (length ls)) (DiffEngine.oldStart hunk)); [done | lia].
Qed.

Lemma insertHunk_least (h : DiffEngine.DiffHunk) (hs : list DiffEngine.DiffHunk) :
  Forall (fun h' => (DiffEngine.oldStart h <= DiffEngine.oldStart h')%Z) hs ->
  insertHunk h hs = h :: hs.
Proof.
  destruct 1 as [|h' rest Hle _]; simpl; [done|].
  destruct (Z.leb_spec (DiffEngine.oldStart h) (DiffEngine.oldStart h')); [done | lia].
Qed.

Lemma ascendingHunks_ascending (hs : list DiffEngine.DiffHunk) :
  ascending hs -> ascendingHunks hs = hs.
Proof.
  induction hs as [|h rest IH]; simpl; [done|].
  intros [Hle Hrest]. rewrite IH by assumption. by apply insertHunk_least.
Qed.

(** C6, as the code has it. [applyDiff] replays the hunks in the order the
    diff lists them, which is the ascending [oldStart] order when the diff
    lists them so. At the first hunk whose [oldStart] exceeds the number of
    lines reached by the hunks before it, it returns false ("Hunk starts after
    end of file") and the disk is the one it started from. Whenever it
    returns, either it returned false and the disk is unchanged, or every hunk
    was replayed and the target holds the patched content: the target is
    never left with some of the hunks applied. *)
Theorem applyDiff_all_or_nothing (diff : DiffEngine.FileDiff) (target : string)
    (disk : gmap string string) :
  let content := DiffEngine.readFile disk target in
  let lines0 := DiffEngine.splitLines content in
  (ascending (DiffEngine.hunks diff) ->
     DiffEngine.applyHunks (DiffEngine.hunks diff) lines0
     = DiffEngine.applyHunks (ascendingHunks (DiffEngine.hunks diff)) lines0)
  /\ (forall pre hunk post lines1,
        DiffEngine.hunks diff = pre ++ hunk :: post ->
        DiffEngine.applyHunks pre lines0 = DiffEngine.Done lines1 ->
        utils.int_range (DiffEngine.oldStart hunk) ->
        (Z.of_nat (length lines1) < DiffEngine.oldStart hunk)%Z ->
        DiffEngine.applyHunks (DiffEngine.hunks diff) lines0
          = DiffEngine.HunkOutOfRange
        /\ DiffEngine.applyDiff diff target disk = Some (false, disk))
  /\ (forall ok disk',
        DiffEngine.applyDiff diff target disk = Some (ok, disk') ->
        (ok = false /\ disk' = disk
         /\ DiffEngine.applyHunks (DiffEngine.hunks diff) lines0
            = DiffEngine.HunkOutOfRange)
        \/ (ok = true
            /\ exists lines1,
                 DiffEngine.applyHunks (DiffEngine.hunks diff) lines0
                   = DiffEngine.Done lines1
                 /\ disk' = <[target := DiffEngine.finalContent content lines1]> disk)).
Proof.
  intros content lines0. split; [|split].
  - intros Hasc. by rewrite ascendingHunks_ascending.
  - intros pre hunk post lines1 Hhunks Hpre Hrange Hlt.
    assert (DiffEngine.applyHunks (DiffEngine.hunks diff) lines0
            = DiffEngine.HunkOutOfRange) as Hout.
    { rewrite Hhunks, applyHunks_app, Hpre. cbn [DiffEngine.applyHunks].
      by rewrite applyHunk_out_of_range. }
    split; [exact Hout|].
    unfold DiffEngine.applyDiff. fold content. fold lines0. by rewrite Hout.
  - intros ok disk'. unfold DiffEngine.applyDiff. fold content. fold lines0.
    destruct (DiffEngine.applyHunks (DiffEngine.hunks diff) lines0)
      as [lines1| |] eqn:Happly; intros Hret; [| |discriminate].
    + right. inversion Hret; subst. eauto.
    + left. inversion Hret; subst. auto.
Qed.

Lemma applyDiff_all_or_nothing_witness :
  let diff :=
    {| DiffEngine.oldFile := "a"; DiffEngine.newFile := "b";
       DiffEngine.hunks :=
         [ {| DiffEngine.oldStart := 1; DiffEngine.oldCount := 1;
              DiffEngine.newStart := 1; DiffEngine.newCount := 1;
              DiffEngine.lines := ["-x"; "+y"] |};
           {| DiffEngine.oldStart := 5; DiffEngine.oldCount := 0;
              DiffEngine.newStart := 5; DiffEngine.newCount := 1;
              DiffEngine.lines := ["+z"] |} ] |} in
  let disk : gmap string string :=
    {[ "f.txt" := "x" +:+ DiffEngine.endl +:+ "w" +:+ DiffEngine.endl ]} in
  DiffEngine.applyDiff diff "f.txt" disk = Some (false, disk).
Proof.
  intros diff disk.
  refine (proj2 (proj1 (proj2 (applyDiff_all_or_nothing diff "f.txt" disk))
            [ {| DiffEngine.oldStart := 1; DiffEngine.oldCount := 1;
                 DiffEngine.newStart := 1; DiffEngine.newCount := 1;
                 DiffEngine.lines := ["-x"; "+y"] |} ]
            {| DiffEngine.oldStart := 5; DiffEngine.oldCount := 0;
               DiffEngine.newStart := 5; DiffEngine.newCount := 1;
               DiffEngine.lines := ["+z"] |}
            [] ["y"; "w"] _ _ _ _)).
  - reflexivity.
  - vm_compute. reflexivity.
  - unfold utils.int_range. simpl. lia.
  - simpl. lia.
Defined.

(** C6 as stated fails on a diff that lists a later hunk first: the replay
    follows the diff, and its result differs from the replay in ascending
    [oldStart] order. *)
Lemma applyHunks_not_in_ascending_order :
  let hs :=
    [ {| DiffEngine.oldStart := 2; DiffEngine.oldCount := 1;
         DiffEngine.newStart := 2; DiffEngine.newCount := 1;
         DiffEngine.lines := ["-b"; "+B"] |};
      {| DiffEngine.oldStart := 1; DiffEngine.oldCount := 1;
         DiffEngine.newStart := 1; DiffEngine.newCount := 2;
         DiffEngine.lines := ["-a"; "+A"; "+A2"] |} ] in
  DiffEngine.applyHunks hs ["a"; "b"] = DiffEngine.Done ["A"; "A2"; "B"]
  /\ DiffEngine.applyHunks (ascendingHunks hs) ["a"; "b"]
     = DiffEngine.Done ["A"; "B"; "b"]
  /\ DiffEngine.applyHunks hs ["a"; "b"]
     <> DiffEngine.applyHunks (ascendingHunks hs) ["a"; "b"].
Proof.
  cbv zeta. split; [|split]; vm_compute; [reflexivity | reflexivity | discriminate].
Qed.

(** ** Serializing and parsing diffs *)

(** *** Printing and reading an [int] *)

Lemma string_of_uint_digits (d : Decimal.uint) :
  all_chars utils.is_digit (NilEmpty.string_of_uint d) = true.
Proof. induction d; simpl; auto. Qed.

Lemma NilZero_string_of_uint_digits (d : Decimal.uint) :
  all_chars utils.is_digit (NilZero.string_of_uint d) = true.
Proof. destruct d; try apply string_of_uint_digits. reflexivity. Qed.

Lemma NilZero_string_of_uint_cons (d : Decimal.uint) :
  exists c s, NilZero.string_of_uint d = String c s /\ utils.is_digit c = true.
Proof. destruct d; simpl; eauto. Qed.

Lemma to_string_numeric (z : Z) : all_chars numeric (utils.to_string z) = true.
Proof.
  unfold utils.to_string.
  assert (forall d, all_chars numeric (NilZero.string_of_uint d) = true) as Hd.
  { intros d. eapply all_chars_impl; [|apply NilZero_string_of_uint_digits].
    intros c Hc. unfold numeric. by rewrite Hc. }
  destruct (Z.to_int z); simpl; auto.
Qed.

Lemma parse_digits_stop (acc : Z) (rest : string) :
  utils.starts_with_digit rest = false -> utils.parse_digits acc rest = acc.
Proof. destruct rest as [|c rest]; simpl; [done|]. by intros ->. Qed.

(** Reading the digits of a decimal numeral accumulates its value, as
    [Pos.of_uint_acc] does. *)
Lemma parse_digits_of_uint_acc (d : Decimal.uint) (acc : positive) (rest : string) :
  utils.starts_with_digit rest = false ->
  utils.parse_digits (Z.pos acc) (NilEmpty.string_of_uint d +:+ rest)
  = Z.pos (Pos.of_uint_acc d acc).
Proof.
  intros Hrest. revert acc.
  induction d as [|d IH|d IH|d IH|d IH|d IH|d IH|d IH|d IH|d IH|d IH];
    intros acc;
    [ by apply parse_digits_stop | .. ];
    cbn [NilEmpty.string_of_uint Pos.of_uint_acc];
    rewrite <- IH; simpl; f_equal;
    match goal with
    | |- context [utils.digit_value ?c] =>
        let v := eval vm_compute in (utils.digit_value c) in
        change (utils.digit_value c) with v
    end; lia.
Qed.

Lemma parse_digits_of_uint (d : Decimal.uint) (rest : string) :
  utils.starts_with_digit rest = false ->
  utils.parse_digits 0 (NilEmpty.string_of_uint d +:+ rest) = Z.of_uint d.
Proof.
  intros Hrest. unfold Z.of_uint.
  induction d as [|d IH|d IH|d IH|d IH|d IH|d IH|d IH|d IH|d IH|d IH];
    [ by apply parse_digits_stop | exact IH | .. ];
    cbn [NilEmpty.string_of_uint Pos.of_uint Z.of_N];
    rewrite <- (parse_digits_of_uint_acc _ _ rest Hrest); reflexivity.
Qed.

Lemma parse_digits_NilZero (d : Decimal.uint) (rest : string) :
  utils.starts_with_digit rest = false ->
  utils.parse_digits 0 (NilZero.string_of_uint d +:+ rest) = Z.of_uint d.
Proof.
  intros Hrest. destruct d; try by apply parse_digits_of_uint.
  simpl. by apply parse_digits_stop.
Qed.

Lemma in_int_range_true (z : Z) : utils.int_range z -> utils.in_int_range z = true.
Proof.
  unfold utils.int_range, utils.in_int_range. intros [Hlo Hhi].
  apply andb_true_intro. split; [by apply Z.leb_le | by apply Z.ltb_lt].
Qed.

Lemma is_digit_not_space (c : ascii) : utils.is_digit c = true -> utils.isspace c = false.
Proof.
  unfold utils.is_digit, utils.isspace.
  intros [H1 H2]%andb_prop. apply Nat.leb_le in H1, H2.
  apply orb_false_intro.
  - apply Nat.eqb_neq. lia.
  - apply andb_false_intro2. apply Nat.leb_gt. lia.
Qed.

Lemma is_digit_not_sign (c : ascii) :
  utils.is_digit c = true -> c <> "-"%char /\ c <> "+"%char.
Proof. intros Hc. split; intros ->; discriminate. Qed.

Lemma stoi_digits (c : ascii) (s : string) :
  utils.is_digit c = true ->
  utils.stoi (String c s) =
  if utils.in_int_range (utils.parse_digits 0 (String c s))
  then Some (utils.parse_digits 0 (String c s)) else None.
Proof.
  intros Hc. unfold utils.stoi. cbn [utils.skip_space].
  rewrite (is_digit_not_space c Hc).
  destruct (is_digit_not_sign c Hc) as [Hm Hp].
  destruct c as [[] [] [] [] [] [] [] []]; try done.
  all: cbn [utils.starts_with_digit]; rewrite Hc; done.
Qed.

(** [std::stoi] reads back the [int] that [operator<<] printed, whatever
    follows it, provided that is not one more digit. *)
Lemma stoi_to_string (z : Z) (rest : string) :
  utils.int_range z ->
  utils.starts_with_digit rest = false ->
  utils.stoi (utils.to_string z +:+ rest) = Some z.
Proof.
  intros Hrange Hrest. unfold utils.to_string.
  pose proof (DecimalZ.of_to z) as Hz.
  destruct (Z.to_int z) as [d|d]; simpl in Hz;
    cbn [NilZero.string_of_int];
    destruct (NilZero_string_of_uint_cons d) as (c & s & Hs & Hc);
    pose proof (parse_digits_NilZero d rest Hrest) as Hparse;
    rewrite Hs in Hparse |- *.
  - change (String c s +:+ rest) with (String c (s +:+ rest)) in *.
    rewrite stoi_digits by assumption.
    rewrite Hparse, Hz. by rewrite in_int_range_true.
  - change (String "-" (String c s) +:+ rest)
      with (String "-" (String c (s +:+ rest))).
    change (String c s +:+ rest) with (String c (s +:+ rest)) in Hparse.
    unfold utils.stoi. cbn [utils.skip_space].
    change (utils.isspace "-") with false. cbv iota.
    cbn [utils.starts_with_digit]. rewrite Hc, Hparse, Hz.
    by rewrite in_int_range_true.
Qed.

(** *** Searching and cutting strings *)

Lemma substr_from_append (a b : string) :
  utils.substr_from (String.length a) (a +:+ b) = b.
Proof. induction a as [|x a IH]; simpl; auto. Qed.

Lemma substring_skip (a b : string) (n m : nat) :
  substring (String.length a + n) m (a +:+ b) = substring n m b.
Proof. induction a as [|x a IH]; simpl; auto. Qed.

Lemma substring_take (a b : string) :
  substring 0 (String.length a) (a +:+ b) = a.
Proof.
  induction a as [|x a IH]; simpl.
  - by destruct b.
  - by rewrite IH.
Qed.

Lemma substr_between (s a seg b : string) (pos len : nat) :
  s = a +:+ seg +:+ b ->
  pos = String.length a -> len = String.length seg ->
  utils.substr pos len s = seg.
Proof.
  intros -> -> ->. unfold utils.substr.
  rewrite <- (Nat.add_0_r (String.length a)), substring_skip.
  apply substring_take.
Qed.

Lemma find_char_absent (c : ascii) (a b : string) :
  all_chars (differs c) a = true ->
  utils.find_char c (a +:+ String c b) = Some (String.length a).
Proof.
  induction a as [|x a IH]; simpl.
  - by rewrite Ascii.eqb_refl.
  - intros [Hx Ha]%andb_prop. apply negb_true_iff in Hx.
    rewrite Hx, IH by assumption. reflexivity.
Qed.

Lemma find_char_from_at (c : ascii) (s a a' b : string) :
  s = a +:+ a' +:+ String c b ->
  all_chars (differs c) a' = true ->
  utils.find_char_from c (String.length a) s = Some (String.length (a +:+ a')).
Proof.
  intros -> Ha'. unfold utils.find_char_from.
  rewrite decide_True by (rewrite length_append; lia).
  rewrite substr_from_append, find_char_absent by assumption.
  simpl. by rewrite length_append.
Qed.

Lemma find_str_absent (a b : string) :
  all_chars (differs " ") a = true ->
  utils.find_str " @@" (a +:+ " @@" +:+ b) = Some (String.length a).
Proof.
  induction a as [|x a IH].
  - intros _. by destruct b.
  - intros [Hx Ha]%andb_prop. apply negb_true_iff, Ascii.eqb_neq in Hx.
    change (String x a +:+ " @@" +:+ b) with (String x (a +:+ " @@" +:+ b)).
    cbn [utils.find_str String.prefix].
    destruct (ascii_dec " " x) as [Heq|_]; [congruence|].
    rewrite IH by assumption. reflexivity.
Qed.

Lemma find_str_from_at (s a a' b : string) :
  s = a +:+ a' +:+ " @@" +:+ b ->
  all_chars (differs " ") a' = true ->
  utils.find_str_from " @@" (String.length a) s
  = Some (String.length (a +:+ a')).
Proof.
  intros -> Ha'. unfold utils.find_str_from.
  rewrite decide_True by (rewrite length_append; lia).
  rewrite substr_from_append, find_str_absent by assumption.
  simpl. by rewrite length_append.
Qed.

Lemma numeric_differs (c x : ascii) :
  x = ","%char \/ x = "+"%char \/ x = " "%char \/ x = utils.newline ->
  numeric c = true -> differs x c = true.
Proof.
  intros Hx Hc. unfold differs. apply negb_true_iff, Ascii.eqb_neq.
  intros ->. destruct Hx as [-> | [-> | [-> | ->]]]; discriminate.
Qed.

Lemma all_numeric_differs (x : ascii) (s : string) :
  x = ","%char \/ x = "+"%char \/ x = " "%char \/ x = utils.newline ->
  all_chars numeric s = true -> all_chars (differs x) s = true.
Proof. intros Hx. apply all_chars_impl. intros c. by apply numeric_differs. Qed.

(** *** The header of a hunk *)

(** On a header made of four printed numbers the five searches of
    [parseDiff] find the separators that [diffToString] wrote, and the four
    substrings are the numbers; the second comes with the space before the
    plus sign. *)
Lemma parseHunkHeader_headerText (os oc ns nc : string) :
  all_chars numeric os = true -> all_chars numeric oc = true ->
  all_chars numeric ns = true -> all_chars numeric nc = true ->
  DiffEngine.parseHunkHeader (headerText os oc ns nc) =
  match utils.stoi os, utils.stoi (oc +:+ " "), utils.stoi ns, utils.stoi nc with
  | Some a, Some b, Some c, Some d => Some (Some (a, b, c, d))
  | _, _, _, _ => None
  end.
Proof.
  intros Hos Hoc Hns Hnc.
  set (header := headerText os oc ns nc).
  set (p1 := "@@ " +:+ "-" +:+ os).
  set (p2 := p1 +:+ "," +:+ oc +:+ " ").
  set (p3 := p2 +:+ "+" +:+ ns).
  set (p4 := p3 +:+ "," +:+ nc).
  assert (utils.find_char "-" header = Some (String.length "@@ ")) as E1
    by reflexivity.
  assert (utils.find_char_from "," (String.length "@@ ") header
          = Some (String.length p1)) as E2.
  { apply (find_char_from_at "," header "@@ " ("-" +:+ os)
             (oc +:+ " +" +:+ ns +:+ "," +:+ nc +:+ " @@")); [reflexivity|].
    rewrite all_chars_append, (all_numeric_differs "," os) by auto. reflexivity. }
  assert (utils.find_char_from "+" (String.length p1) header
          = Some (String.length p2)) as E3.
  { apply (find_char_from_at "+" header p1 ("," +:+ oc +:+ " ")
             (ns +:+ "," +:+ nc +:+ " @@")).
    - unfold header, headerText, p1. by rewrite !append_assoc.
    - rewrite !all_chars_append, (all_numeric_differs "+" oc) by auto.
      reflexivity. }
  assert (utils.find_char_from "," (String.length p2) header
          = Some (String.length p3)) as E4.
  { apply (find_char_from_at "," header p2 ("+" +:+ ns) (nc +:+ " @@")).
    - unfold header, headerText, p2, p1. by rewrite !append_assoc.
    - rewrite !all_chars_append, (all_numeric_differs "," ns) by auto.
      reflexivity. }
  assert (utils.find_str_from " @@" (String.length p3) header
          = Some (String.length p4)) as E5.
  { apply (find_str_from_at header p3 ("," +:+ nc) "").
    - unfold header, headerText, p3, p2, p1. by rewrite !append_assoc.
    - rewrite !all_chars_append, (all_numeric_differs " " nc) by auto.
      reflexivity. }
  assert (utils.substr (String.length "@@ " + 1)
            (String.length p1 - String.length "@@ " - 1) header = os) as S1.
  { apply (substr_between header "@@ -" os
             ("," +:+ oc +:+ " +" +:+ ns +:+ "," +:+ nc +:+ " @@"));
      [reflexivity | reflexivity |].
    unfold p1. rewrite !length_append. simpl. lia. }
  assert (utils.substr (String.length p1 + 1)
            (String.length p2 - String.length p1 - 1) header = oc +:+ " ") as S2.
  { apply (substr_between header (p1 +:+ ",") (oc +:+ " ")
             ("+" +:+ ns +:+ "," +:+ nc +:+ " @@")).
    - unfold header, headerText, p1. by rewrite !append_assoc.
    - rewrite length_append. reflexivity.
    - unfold p2. rewrite !length_append. simpl. lia. }
  assert (utils.substr (String.length p2 + 1)
            (String.length p3 - String.length p2 - 1) header = ns) as S3.
  { apply (substr_between header (p2 +:+ "+") ns ("," +:+ nc +:+ " @@")).
    - unfold header, headerText, p2, p1. by rewrite !append_assoc.
    - rewrite length_append. reflexivity.
    - unfold p3. rewrite !length_append. simpl. lia. }
  assert (utils.substr (String.length p3 + 1)
            (String.length p4 - String.length p3 - 1) header = nc) as S4.
  { apply (substr_between header (p3 +:+ ",") nc " @@").
    - unfold header, headerText, p3, p2, p1. by rewrite !append_assoc.
    - rewrite length_append. reflexivity.
    - unfold p4. rewrite !length_append. simpl. lia. }
  unfold DiffEngine.parseHunkHeader.
  rewrite E1. cbn [mbind option_bind]. rewrite E2. cbn [mbind option_bind].
  rewrite E3. cbn [mbind option_bind]. rewrite E4. cbn [mbind option_bind].
  rewrite E5, S1, S2, S3, S4. reflexivity.
Qed.

(** *** The lines of a serialized diff *)

Lemma writeLines_app (a b : list string) :
  DiffEngine.writeLines (a ++ b)
  = DiffEngine.writeLines a +:+ DiffEngine.writeLines b.
Proof.
  induction a as [|l a IH]; [done|].
  cbn [app DiffEngine.writeLines]. by rewrite IH, !append_assoc.
Qed.

Lemma writeHunks_lines (hs : list DiffEngine.DiffHunk) :
  DiffEngine.writeHunks hs = DiffEngine.writeLines (concat (hunkLines <$> hs)).
Proof.
  induction hs as [|h hs IH]; [done|].
  cbn [DiffEngine.writeHunks fmap list_fmap concat hunkLines app
       DiffEngine.writeLines].
  fold (hunkLines <$> hs). by rewrite writeLines_app, IH.
Qed.

Lemma diffToString_lines (d : DiffEngine.FileDiff) :
  DiffEngine.diffToString d = DiffEngine.writeLines (serialLines d).
Proof.
  unfold DiffEngine.diffToString, serialLines.
  cbn [DiffEngine.writeLines]. by rewrite writeHunks_lines, !append_assoc.
Qed.

Lemma lines_of_writeLines (ls : list string) :
  Forall (fun l => no_newline l = true) ls ->
  lines_of (DiffEngine.writeLines ls) = ls.
Proof.
  induction 1 as [|l ls Hl _ IH]; [done|].
  cbn [DiffEngine.writeLines].
  change (l +:+ DiffEngine.endl +:+ DiffEngine.writeLines ls)
    with (l +:+ String utils.newline (DiffEngine.writeLines ls)).
  by rewrite lines_of_line, IH.
Qed.

Lemma hunkHeader_headerText (h : DiffEngine.DiffHunk) :
  DiffEngine.hunkHeader h
  = headerText (utils.to_string (DiffEngine.oldStart h))
      (utils.to_string (DiffEngine.oldCount h))
      (utils.to_string (DiffEngine.newStart h))
      (utils.to_string (DiffEngine.newCount h)).
Proof. reflexivity. Qed.

Lemma no_newline_numeric (s : string) :
  all_chars numeric s = true -> no_newline s = true.
Proof. apply (all_numeric_differs utils.newline). auto. Qed.

Lemma no_newline_hunkHeader (h : DiffEngine.DiffHunk) :
  no_newline (DiffEngine.hunkHeader h) = true.
Proof.
  rewrite hunkHeader_headerText. unfold headerText, no_newline.
  rewrite !all_chars_append.
  rewrite !(no_newline_numeric _ (to_string_numeric _)). reflexivity.
Qed.

Lemma is_hunk_start_hunkHeader (h : DiffEngine.DiffHunk) :
  DiffEngine.is_hunk_start (DiffEngine.hunkHeader h) = true.
Proof.
  unfold DiffEngine.is_hunk_start. apply bool_decide_eq_true_2.
  by apply (substr_between _ "" "@@ "
              ("-" +:+ utils.to_string (DiffEngine.oldStart h) +:+ ","
                 +:+ utils.to_string (DiffEngine.oldCount h)
                 +:+ " +" +:+ utils.to_string (DiffEngine.newStart h) +:+ ","
                 +:+ utils.to_string (DiffEngine.newCount h) +:+ " @@")).
Qed.

Lemma is_hunk_start_tagged (line : string) :
  tagged line = true -> DiffEngine.is_hunk_start line = false.
Proof.
  intros Htag. unfold DiffEngine.is_hunk_start. apply bool_decide_eq_false_2.
  destruct line as [|c line]; [done|].
  unfold utils.substr. cbn [substring]. intros [= ->]. discriminate.
Qed.

Lemma hunkBody_app (body rest : list string) :
  Forall (fun l => DiffEngine.is_hunk_start l = false) body ->
  match rest with
  | [] => True
  | l :: _ => DiffEngine.is_hunk_start l = true
  end ->
  DiffEngine.hunkBody (body ++ rest) = (body, rest).
Proof.
  intros Hbody Hrest. induction Hbody as [|l body Hl _ IH].
  - destruct rest as [|l rest]; [done|]. simpl. by rewrite Hrest.
  - cbn [app DiffEngine.hunkBody]. by rewrite Hl, IH.
Qed.

Lemma parseHunkHeader_hunkHeader (h : DiffEngine.DiffHunk) :
  utils.int_range (DiffEngine.oldStart h) ->
  utils.int_range (DiffEngine.oldCount h) ->
  utils.int_range (DiffEngine.newStart h) ->
  utils.int_range (DiffEngine.newCount h) ->
  DiffEngine.parseHunkHeader (DiffEngine.hunkHeader h)
  = Some (Some (DiffEngine.oldStart h, DiffEngine.oldCount h,
                DiffEngine.newStart h, DiffEngine.newCount h)).
Proof.
  intros H1 H2 H3 H4.
  rewrite hunkHeader_headerText, parseHunkHeader_headerText
    by apply to_string_numeric.
  rewrite <- (append_nil_r (utils.to_string (DiffEngine.oldStart h))).
  rewrite <- (append_nil_r (utils.to_string (DiffEngine.newStart h))).
  rewrite <- (append_nil_r (utils.to_string (DiffEngine.newCount h))).
  by rewrite !stoi_to_string.
Qed.

(** The outer loop of [parseDiff] reads back the hunks from their lines,
    with fuel for each line. *)
Lemma parseHunks_serial (hs : list DiffEngine.DiffHunk) (fuel : nat) :
  Forall wf_hunk hs ->
  (length (concat (hunkLines <$> hs)) <= fuel)%nat ->
  DiffEngine.parseHunks fuel (concat (hunkLines <$> hs)) = Some hs.
Proof.
  intros Hwf. revert fuel.
  induction Hwf as [|h hs (H1 & H2 & H3 & H4 & Hlines) _ IH]; intros fuel Hfuel.
  - by destruct fuel.
  - cbn [fmap list_fmap concat hunkLines app] in *. fold (hunkLines <$> hs) in *.
    destruct fuel as [|fuel]; [simpl in Hfuel; lia|].
    cbn [DiffEngine.parseHunks].
    rewrite is_hunk_start_hunkHeader, parseHunkHeader_hunkHeader by assumption.
    cbn [negb]. rewrite hunkBody_app.
    + rewrite IH by (simpl in Hfuel; rewrite length_app in Hfuel; lia).
      simpl. by destruct h.
    + eapply Forall_impl; [exact Hlines|].
      intros l [Htag _]%andb_prop. by apply is_hunk_start_tagged.
    + destruct hs as [|h' hs']; [done|]. apply is_hunk_start_hunkHeader.
Qed.

Lemma serialLines_no_newline (d : DiffEngine.FileDiff) :
  wf_diff d -> Forall (fun l => no_newline l = true) (serialLines d).
Proof.
  intros (Hold & Hnew & Hhunks).
  unfold serialLines. repeat apply Forall_cons_2.
  - unfold no_newline in *. by rewrite all_chars_append, Hold.
  - unfold no_newline in *. by rewrite all_chars_append, Hnew.
  - apply Forall_concat, Forall_fmap.
    eapply Forall_impl; [exact Hhunks|].
    intros h (_ & _ & _ & _ & Hh). unfold hunkLines. apply Forall_cons_2.
    + apply no_newline_hunkHeader.
    + eapply Forall_impl; [exact Hh|]. by intros l [_ Hl]%andb_prop.
Qed.

(** [parseDiff] on the lines of a diff, each followed by a newline. *)
Lemma parseDiff_serialLines (d : DiffEngine.FileDiff) :
  Forall (fun l => no_newline l = true) (serialLines d) ->
  Forall wf_hunk (DiffEngine.hunks d) ->
  DiffEngine.parseDiff (DiffEngine.writeLines (serialLines d)) = Some d.
Proof.
  intros Hlines Hhunks. unfold DiffEngine.parseDiff.
  rewrite splitLines_lines_of, lines_of_writeLines by assumption.
  unfold serialLines.
  rewrite (bool_decide_eq_true_2 (utils.substr 0 4 _ = "--- "))
    by (by apply (substr_between _ "" "--- " (DiffEngine.oldFile d))).
  rewrite (bool_decide_eq_true_2 (utils.substr 0 4 _ = "+++ "))
    by (by apply (substr_between _ "" "+++ " (DiffEngine.newFile d))).
  rewrite parseHunks_serial by (assumption || lia).
  simpl. by destruct d.
Qed.

(** C7. Parsing the serialized form of a well-formed diff returns the diff:
    [std::stoi] does not throw, the paths, the four numbers of every hunk and
    its lines are read back as they were. A diff is well formed when its two
    paths hold no newline, the numbers of its hunks are [int]s, and every
    hunk line holds no newline and starts with a space, a plus or a minus
    sign. *)
Theorem parseDiff_diffToString (d : DiffEngine.FileDiff) :
  wf_diff d -> DiffEngine.parseDiff (DiffEngine.diffToString d) = Some d.
Proof.
  intros Hwf. rewrite diffToString_lines.
  apply parseDiff_serialLines.
  - by apply serialLines_no_newline.
  - by destruct Hwf as (_ & _ & Hhunks).
Qed.

Lemma parseDiff_diffToString_witness :
  let d :=
    {| DiffEngine.oldFile := "a"; DiffEngine.newFile := "b";
       DiffEngine.hunks :=
         [ {| DiffEngine.oldStart := 1; DiffEngine.oldCount := 3;
              DiffEngine.newStart := 1; DiffEngine.newCount := 3;
              DiffEngine.lines :=
                [" Line1"; "+LineX"; "-Line2"; " Line3"] |};
           {| DiffEngine.oldStart := 12; DiffEngine.oldCount := 0;
              DiffEngine.newStart := 12; DiffEngine.newCount := 1;
              DiffEngine.lines := ["+"] |} ] |} in
  DiffEngine.parseDiff (DiffEngine.diffToString d) = Some d.
Proof.
  intros d. apply (parseDiff_diffToString d).
  unfold wf_diff, wf_hunk, utils.int_range. cbn [d DiffEngine.oldFile
    DiffEngine.newFile DiffEngine.hunks].
  split; [reflexivity|]. split; [reflexivity|].
  repeat first
    [ apply Forall_nil_2 | apply Forall_cons_2 | reflexivity
    | progress cbn [DiffEngine.oldStart DiffEngine.oldCount DiffEngine.newStart
                    DiffEngine.newCount DiffEngine.lines]
    | lia | split ].
Defined.

(** *** The diffs the engine computes are well formed *)

Lemma lines_of_no_newline (s : string) :
  Forall (fun l => no_newline l = true) (lines_of s).
Proof.
  induction s as [|c s IH]; cbn [lines_of]; [constructor|].
  destruct (Ascii.eqb c utils.newline) eqn:Hc.
  - by constructor.
  - destruct (lines_of s) as [|l more].
    + repeat constructor. unfold no_newline. simpl. by rewrite Hc.
    + inversion IH as [|? ? Hl Hmore]; subst. constructor; [|done].
      unfold no_newline in *. simpl. by rewrite Hc, Hl.
Qed.

Lemma wrap_int_range (z : Z) : utils.int_range (utils.wrap_int z).
Proof.
  unfold utils.int_range, utils.wrap_int.
  pose proof (Z.mod_pos_bound (z + 2 ^ 31) (2 ^ 32)). lia.
Qed.

Lemma wf_line_tag (t : ascii) (l : string) :
  t = " "%char \/ t = "+"%char \/ t = "-"%char ->
  no_newline l = true -> wf_line (String t l) = true.
Proof.
  intros Ht Hl. unfold wf_line, no_newline in *. cbn [tagged all_chars].
  rewrite Hl. by destruct Ht as [-> | [-> | ->]].
Qed.

Lemma compareLines_wf (oldLines newLines : list string) :
  Forall (fun l => no_newline l = true) oldLines ->
  Forall (fun l => no_newline l = true) newLines ->
  Forall (fun l => wf_line l = true)
    (DiffEngine.compareLines oldLines newLines).
Proof.
  intros Hold Hnew. revert oldLines Hold.
  induction Hnew as [|n newRest Hn _ IH]; intros oldLines Hold.
  - cbn [DiffEngine.compareLines]. apply Forall_fmap.
    eapply Forall_impl; [exact Hold|]. intros l Hl. apply wf_line_tag; auto.
  - destruct Hold as [|o oldRest Ho Hold]; cbn [DiffEngine.compareLines].
    + constructor; [apply wf_line_tag; auto | apply IH; constructor].
    + case_bool_decide.
      * constructor; [apply wf_line_tag; auto | by apply IH].
      * constructor; [apply wf_line_tag; auto | apply IH; by constructor].
Qed.

Lemma line_at_no_newline (l : list string) (i : nat) :
  Forall (fun l => no_newline l = true) l ->
  no_newline (DiffEngine.line_at l i) = true.
Proof.
  intros Hl. unfold DiffEngine.line_at.
  destruct (l !! i) as [x|] eqn:Hx; [|done].
  by apply (Forall_lookup_1 _ _ _ _ Hl Hx).
Qed.

Lemma computeHunks_wf (oldLines newLines : list string) (contextLines : Z) :
  Forall (fun l => no_newline l = true) oldLines ->
  Forall (fun l => no_newline l = true) newLines ->
  Forall wf_hunk (DiffEngine.computeHunks oldLines newLines contextLines).
Proof.
  intros Hold Hnew.
  assert (wf_hunk
            {| DiffEngine.oldStart := 1;
               DiffEngine.oldCount := utils.size_to_int (length oldLines);
               DiffEngine.newStart := 1;
               DiffEngine.newCount := utils.size_to_int (length newLines);
               DiffEngine.lines := DiffEngine.compareLines oldLines newLines |})
    as Hdefault.
  { unfold wf_hunk, utils.size_to_int.
    cbn [DiffEngine.oldStart DiffEngine.oldCount DiffEngine.newStart
         DiffEngine.newCount DiffEngine.lines].
    repeat split; try apply wrap_int_range; try (unfold utils.int_range; lia);
      try (cbv; congruence).
    by apply compareLines_wf. }
  unfold DiffEngine.computeHunks.
  case_bool_decide; [constructor|].
  case_bool_decide; [|by apply Forall_cons_2].
  destruct (DiffEngine.firstMismatch 0 oldLines newLines) as [i|];
    [|by apply Forall_cons_2].
  apply Forall_cons_2; [|constructor].
  unfold wf_hunk, utils.size_to_int.
  cbn [DiffEngine.oldStart DiffEngine.oldCount DiffEngine.newStart
       DiffEngine.newCount DiffEngine.lines].
  repeat split; try apply wrap_int_range; try (unfold utils.int_range; lia);
    try (cbv; congruence).
  apply Forall_app. split.
  - case_bool_decide; repeat constructor.
    apply wf_line_tag; [auto | by apply line_at_no_newline].
  - repeat constructor; apply wf_line_tag; auto using line_at_no_newline.
Qed.

(** X5. Every diff [generateDiffFromStrings] computes is read back by [parseDiff]
    from its serialized form. *)
Theorem parseDiff_diffToString_generateDiff (oldContent newContent : string)
    (contextLines : Z) :
  DiffEngine.parseDiff
    (DiffEngine.diffToString
       (DiffEngine.generateDiffFromStrings oldContent newContent contextLines))
  = Some (DiffEngine.generateDiffFromStrings oldContent newContent contextLines).
Proof.
  assert (wf_diff (DiffEngine.generateDiffFromStrings oldContent newContent
                     contextLines)) as Hwf.
  { unfold wf_diff, DiffEngine.generateDiffFromStrings.
    cbn [DiffEngine.oldFile DiffEngine.newFile DiffEngine.hunks].
    split; [reflexivity|]. split; [reflexivity|].
    rewrite !splitLines_lines_of.
    apply computeHunks_wf; apply lines_of_no_newline. }
  rewrite diffToString_lines. apply parseDiff_serialLines.
  - by apply serialLines_no_newline.
  - by destruct Hwf as (_ & _ & Hhunks).
Qed.

(** ** The commit manager *)

Lemma getHistory_loop_chain (load : string -> CommitManager.CommitInfo)
    (h : string) (chain : list CommitManager.CommitInfo) :
  first_parent_chain load h chain ->
  forall fuel count maxCount,
    (length chain < fuel)%nat ->
    CommitManager.getHistory_loop load fuel h count maxCount
    = Some (if bool_decide (maxCount = 0%nat) then chain
            else take (maxCount - count) chain).
Proof.
  induction 1 as [h Hh Hload Hroot | h parent others chain Hh Hload Hparents _ IH];
    intros fuel count maxCount Hfuel.
  - destruct fuel as [|fuel]; [simpl in Hfuel; lia|].
    cbn [CommitManager.getHistory_loop].
    rewrite (bool_decide_eq_false_2 (h = "")) by assumption.
    rewrite (bool_decide_eq_false_2 (CommitManager.hash (load h) = ""))
      by assumption.
    rewrite Hroot. cbn [negb andb].
    destruct (decide (maxCount = 0%nat)) as [->|Hmax].
    + done.
    + rewrite (bool_decide_eq_false_2 (maxCount = 0%nat)) by assumption.
      cbn [orb]. case_bool_decide as Hcount.
      * destruct (maxCount - count)%nat as [|k] eqn:Hk; [lia|].
        cbn [take]. by rewrite take_nil.
      * replace (maxCount - count)%nat with 0%nat by lia. done.
  - destruct fuel as [|fuel]; [simpl in Hfuel; lia|].
    cbn [CommitManager.getHistory_loop].
    rewrite (bool_decide_eq_false_2 (h = "")) by assumption.
    rewrite (bool_decide_eq_false_2 (CommitManager.hash (load h) = ""))
      by assumption.
    rewrite Hparents. cbn [negb andb].
    rewrite IH by (simpl in Hfuel; lia).
    destruct (decide (maxCount = 0%nat)) as [->|Hmax].
    + done.
    + rewrite (bool_decide_eq_false_2 (maxCount = 0%nat)) by assumption.
      cbn [orb]. case_bool_decide as Hcount.
      * destruct (maxCount - count)%nat as [|k] eqn:Hk; [lia|].
        replace (maxCount - S count)%nat with k by lia. done.
      * replace (maxCount - count)%nat with 0%nat by lia. done.
Qed.

(** C5. When HEAD names no commit, or the commits reachable from HEAD by
    first parents form a chain that ends at a root commit,
    [getHistory(maxCount)] returns, given fuel for one iteration more than
    the chain is long, exactly that chain, newest first, cut after [maxCount]
    entries unless [maxCount] is zero. The chain follows the first parent of
    each commit only. *)
Theorem getHistory_first_parent_chain (st : CommitManager.state)
    (chain : list CommitManager.CommitInfo) (maxCount fuel : nat) :
  history_chain
    (CommitManager.loadCommitObject (CommitManager.mimirionDir st)
       (CommitManager.disk st))
    (CommitManager.currentHead st) chain ->
  (length chain < fuel)%nat ->
  CommitManager.getHistory st maxCount fuel = Some (limit maxCount chain).
Proof.
  intros [[Hhead ->] | Hchain] Hfuel; unfold CommitManager.getHistory, limit.
  - destruct fuel as [|fuel]; [simpl in Hfuel; lia|].
    rewrite Hhead. cbn [CommitManager.getHistory_loop].
    rewrite (bool_decide_eq_true_2 ("" = "")) by reflexivity.
    cbn [negb andb]. rewrite take_nil. by destruct (bool_decide (maxCount = 0%nat)).
  - rewrite (getHistory_loop_chain _ _ _ Hchain) by assumption.
    by rewrite Nat.sub_0_r.
Qed.

Lemma getHistory_first_parent_chain_witness :
  let load := CommitManager.loadCommitObject ".mimirion" mergeDisk in
  CommitManager.parentHashes (load "cc3") = ["aa1"; "bb2"]
  /\ CommitManager.getHistory mergeState 0 3
     = Some (limit 0 [load "cc3"; load "aa1"]).
Proof.
  intros load. split; [vm_compute; reflexivity|].
  apply (getHistory_first_parent_chain mergeState [load "cc3"; load "aa1"] 0 3).
  - right. apply chain_parent with (parent := "aa1") (others := ["bb2"]).
    + discriminate.
    + vm_compute. discriminate.
    + vm_compute. reflexivity.
    + apply chain_root.
      * discriminate.
      * vm_compute. discriminate.
      * vm_compute. reflexivity.
  - simpl. lia.
Defined.

(** C3. [createCommit] on an empty list of staged files returns the empty
    string through its first test ("No files staged for commit"), before it
    touches anything: the manager's HEAD and the whole disk, with every
    branch ref and every object, are what they were. *)
Theorem createCommit_empty_staged (sha256 : string -> string)
    (formatTimestamp : Z -> string) (userName userEmail : string)
    (canOpen : string -> bool) (st : CommitManager.state) (msg : string)
    (now : Z) :
  let '(result, st') :=
    CommitManager.createCommit sha256 formatTimestamp userName userEmail
      canOpen st msg [] now in
  result = CommitManager.EmptyCommit
  /\ CommitManager.returned result = ""
  /\ CommitManager.currentHead st' = CommitManager.currentHead st
  /\ CommitManager.disk st' = CommitManager.disk st.
Proof. cbn [CommitManager.createCommit]. repeat split. Qed.

(** The paths the commit manager writes are distinct. *)
Lemma objectPath_not_masterRefPath (dir h : string) :
  CommitManager.masterRefPath dir <> CommitManager.objectPath dir h.
Proof.
  unfold CommitManager.masterRefPath, CommitManager.objectPath.
  intros Heq%String.app_inj. simpl in Heq. discriminate.
Qed.

Lemma objectPath_not_headPath (dir h : string) :
  CommitManager.headPath dir <> CommitManager.objectPath dir h.
Proof.
  unfold CommitManager.headPath, CommitManager.objectPath.
  intros Heq%String.app_inj. simpl in Heq. discriminate.
Qed.

(** The text that is hashed starts with the line of the placeholder tree, the
    record that is stored with the line of the commit: they are never the
    same text. *)
Lemma commitHashText_not_commitObjectText (formatTimestamp : Z -> string)
    (commit : CommitManager.CommitInfo) :
  CommitManager.commitHashText formatTimestamp commit
  <> CommitManager.commitObjectText formatTimestamp commit.
Proof.
  unfold CommitManager.commitHashText, CommitManager.commitObjectText.
  simpl. discriminate.
Qed.

Lemma stagedTable_placeholder (stagedFiles : list string) (file blob : string) :
  CommitManager.stagedTable stagedFiles !! file = Some blob ->
  blob = "dummy-file-hash".
Proof.
  unfold CommitManager.stagedTable.
  assert (forall (acc : gmap string string),
            (forall f b, acc !! f = Some b -> b = "dummy-file-hash") ->
            forall f b,
              foldl (fun m x => <[x := "dummy-file-hash"]> m) acc stagedFiles
                !! f = Some b ->
              b = "dummy-file-hash") as Hfold.
  { induction stagedFiles as [|x rest IH]; intros acc Hacc f b; simpl.
    - apply Hacc.
    - apply IH. intros f' b'. rewrite lookup_insert.
      case_decide; [congruence | apply Hacc]. }
  apply Hfold. intros f b. by rewrite lookup_empty.
Qed.

(** C2, on the code. Whenever [createCommit] creates a commit, the record
    stored under its hash is the serialization [commitObjectText] of the
    commit, but the hash is the digest of another text, [commitHashText]: it
    has a placeholder tree line in place of the commit line and no file
    table. The hash is therefore the same whatever files are staged, and the
    file table maps every staged path to the placeholder "dummy-file-hash",
    not to a blob hash. *)
Theorem createCommit_hash_not_of_record (sha256 : string -> string)
    (formatTimestamp : Z -> string) (userName userEmail : string)
    (canOpen : string -> bool) (st st' : CommitManager.state) (msg : string)
    (stagedFiles : list string) (now : Z) (h : string) :
  CommitManager.createCommit sha256 formatTimestamp userName userEmail canOpen
    st msg stagedFiles now = (CommitManager.Created h, st') ->
  let commit :=
    CommitManager.withHash h
      (CommitManager.buildCommit userName userEmail st msg stagedFiles now) in
  CommitManager.disk st'
    !! CommitManager.objectPath (CommitManager.mimirionDir st) h
  = Some (CommitManager.commitObjectText formatTimestamp commit)
  /\ h = sha256 (CommitManager.commitHashText formatTimestamp commit)
  /\ CommitManager.commitHashText formatTimestamp commit
     <> CommitManager.commitObjectText formatTimestamp commit
  /\ (forall otherFiles, otherFiles <> [] ->
        (CommitManager.createCommit sha256 formatTimestamp userName userEmail
           canOpen st msg otherFiles now).1 = CommitManager.Created h)
  /\ (forall file blob,
        CommitManager.fileHashes commit !! file = Some blob ->
        blob = "dummy-file-hash").
Proof.
  intros Hcreate commit.
  destruct stagedFiles as [|file0 files0]; [discriminate|].
  unfold CommitManager.createCommit in Hcreate.
  set (c0 := CommitManager.buildCommit userName userEmail st msg
               (file0 :: files0) now) in *.
  set (h0 := CommitManager.generateCommitHash sha256 formatTimestamp c0) in *.
  unfold CommitManager.saveCommitObject in Hcreate.
  cbn [CommitManager.hash CommitManager.withHash] in Hcreate.
  destruct (canOpen (CommitManager.objectPath (CommitManager.mimirionDir st) h0))
    eqn:Hobj; [|discriminate].
  destruct (canOpen (CommitManager.masterRefPath (CommitManager.mimirionDir st)))
    eqn:Hmaster; [|discriminate].
  unfold CommitManager.saveState in Hcreate.
  assert (h = h0) as ->.
  { destruct (canOpen (CommitManager.headPath (CommitManager.mimirionDir st)));
      by inversion Hcreate. }
  split; [|split; [|split; [|split]]].
  - destruct (canOpen (CommitManager.headPath (CommitManager.mimirionDir st)));
      inversion Hcreate; subst st'; cbn [CommitManager.disk].
    + rewrite lookup_insert_ne by apply objectPath_not_headPath.
      rewrite lookup_insert_ne by apply objectPath_not_masterRefPath.
      by rewrite lookup_insert_eq.
    + rewrite lookup_insert_ne by apply objectPath_not_masterRefPath.
      by rewrite lookup_insert_eq.
  - reflexivity.
  - apply commitHashText_not_commitObjectText.
  - intros otherFiles Hother.
    destruct otherFiles as [|file1 files1]; [done|].
    unfold CommitManager.createCommit, CommitManager.saveCommitObject.
    cbn [CommitManager.hash CommitManager.withHash].
    change (CommitManager.generateCommitHash sha256 formatTimestamp
              (CommitManager.buildCommit userName userEmail st msg
                 (file1 :: files1) now)) with h0.
    rewrite Hobj, Hmaster. unfold CommitManager.saveState.
    by destruct (canOpen (CommitManager.headPath (CommitManager.mimirionDir st))).
  - intros file blob. apply stagedTable_placeholder.
Qed.

Lemma createCommit_hash_not_of_record_witness :
  let st :=
    {| CommitManager.mimirionDir := ".mimirion";
       CommitManager.currentHead := "";
       CommitManager.disk := ∅ |} in
  let create :=
    CommitManager.createCommit toyDigest toyTimestamp "Ann" "ann@x.org"
      (fun _ => true) st "c1" in
  (create ["a.txt"] 1%Z).1 = CommitManager.Created "h80"
  /\ (create ["b.txt"; "c.txt"] 1%Z).1 = CommitManager.Created "h80".
Proof.
  intros st create. split; [vm_compute; reflexivity|].
  refine (proj1 (proj2 (proj2 (proj2
            (createCommit_hash_not_of_record toyDigest toyTimestamp
               "Ann" "ann@x.org" (fun _ => true) st (create ["a.txt"] 1%Z).2
               "c1" ["a.txt"] 1%Z "h80" _)))) ["b.txt"; "c.txt"] _).
  - vm_compute. reflexivity.
  - discriminate.
Defined.

(** ** The file tracker *)

Section FileTrackerProperties.

Variable sha256 : string -> string.
Variable indexOpens : bool.

Lemma scan_lookup (oldFiles : gmap string FileTracker.FileInfo)
    (tree : gmap string string) (p : string) :
  map_fold
    (fun q content acc => <[q := FileTracker.scanEntry sha256 oldFiles q content]> acc)
    (∅ : gmap string FileTracker.FileInfo) tree !! p
  = FileTracker.scanEntry sha256 oldFiles p <$> tree !! p.
Proof.
  revert p.
  apply (map_fold_weak_ind
           (fun (r : gmap string FileTracker.FileInfo) (m : gmap string string) =>
              forall p, r !! p = FileTracker.scanEntry sha256 oldFiles p <$> m !! p)).
  - intros p. by rewrite !lookup_empty.
  - intros q content m r _ IH p. rewrite !lookup_insert.
    case_decide; [by subst | apply IH].
Qed.

Lemma markDeleted_lookup (scanned oldFiles : gmap string FileTracker.FileInfo)
    (p : string) :
  map_fold FileTracker.markDeleted scanned oldFiles !! p
  = match scanned !! p with
    | Some f => Some f
    | None => FileTracker.withStatus FileTracker.DELETED <$> oldFiles !! p
    end.
Proof.
  revert p.
  apply (map_fold_weak_ind
           (fun (r m : gmap string FileTracker.FileInfo) =>
              forall p, r !! p =
                match scanned !! p with
                | Some f => Some f
                | None => FileTracker.withStatus FileTracker.DELETED <$> m !! p
                end)).
  - intros p. rewrite lookup_empty. by destruct (scanned !! p).
  - intros q old m r Hq IH p. unfold FileTracker.markDeleted.
    destruct (decide (q = p)) as [->|Hne].
    + rewrite lookup_insert_eq. specialize (IH p). rewrite Hq in IH.
      destruct (scanned !! p) as [f|] eqn:Hscanned.
      * by rewrite IH.
      * simpl in IH. rewrite IH. by rewrite lookup_insert_eq.
    + rewrite (lookup_insert_ne m) by assumption. rewrite <- IH.
      destruct (r !! q); [done|]. by rewrite lookup_insert_ne.
Qed.

(** What [updateStatus] leaves in the table for a path: the entry of the
    first loop when the file is in the working tree, the old entry marked
    deleted when it is not, nothing when the path was never seen. *)
Lemma updateStatus_lookup (tree : gmap string string)
    (st : FileTracker.state) (p : string) :
  FileTracker.files (FileTracker.updateStatus sha256 tree st) !! p
  = match tree !! p with
    | Some content =>
        Some (FileTracker.scanEntry sha256 (FileTracker.files st) p content)
    | None =>
        FileTracker.withStatus FileTracker.DELETED <$> FileTracker.files st !! p
    end.
Proof.
  unfold FileTracker.updateStatus. cbn [FileTracker.files].
  rewrite markDeleted_lookup, scan_lookup.
  by destruct (tree !! p).
Qed.


(** C4, on the code. A file of the working tree whose entry in the table has
    an empty last-commit hash, as every file has after the scan that first
    saw it, is classified as modified by the next [updateStatus], which tests
    only whether the hashes differ. The rule of the claim makes it untracked,
    and so does the tracker's own [updateFileStatus] on the resulting entry. *)
Theorem updateStatus_untracked_becomes_modified (tree : gmap string string)
    (st : FileTracker.state) (p content : string) (old : FileTracker.FileInfo) :
  tree !! p = Some content ->
  FileTracker.files st !! p = Some old ->
  FileTracker.lastCommitHash old = "" ->
  sha256 content <> "" ->
  exists f,
    FileTracker.files (FileTracker.updateStatus sha256 tree st) !! p = Some f
    /\ FileTracker.path f = p
    /\ FileTracker.hash f = sha256 content
    /\ FileTracker.lastCommitHash f = ""
    /\ FileTracker.status f = FileTracker.MODIFIED
    /\ FileTracker.status (FileTracker.updateFileStatus sha256 tree f)
       = FileTracker.UNTRACKED.
Proof.
  intros Htree Hold Hlast Hdigest.
  eexists. rewrite updateStatus_lookup, Htree. split; [reflexivity|].
  unfold FileTracker.scanEntry. rewrite Hold, Hlast.
  cbn [FileTracker.path FileTracker.hash FileTracker.lastCommitHash
       FileTracker.status].
  rewrite bool_decide_eq_true_2 by assumption.
  repeat split.
  unfold FileTracker.updateFileStatus.
  cbn [FileTracker.path FileTracker.lastCommitHash]. rewrite Htree.
  by rewrite bool_decide_eq_true_2.
Qed.

Lemma saveState_files (st : FileTracker.state) :
  FileTracker.files (FileTracker.saveState indexOpens st).2 = FileTracker.files st.
Proof. unfold FileTracker.saveState. by destruct indexOpens. Qed.

(** X3. [unstageFile] refuses a path that is not in the table or whose status is
    not staged ("File is not staged"), and changes nothing. *)
Lemma unstageFile_not_staged (tree : gmap string string)
    (st : FileTracker.state) (p : string) :
  (forall f, FileTracker.files st !! p = Some f ->
             FileTracker.status f <> FileTracker.STAGED) ->
  FileTracker.unstageFile sha256 indexOpens tree st p = (false, st).
Proof.
  intros Hnot. unfold FileTracker.unstageFile.
  destruct (FileTracker.files st !! p) as [f|]; [|done].
  by rewrite bool_decide_eq_true_2 by auto.
Qed.

(** C8, on the code. For a file of the working tree that was never committed
    (it is not in the table, or its entry has an empty last-commit hash),
    staging and then unstaging leaves it untracked, while [updateStatus] on
    the state so reached classifies it as modified, and so it does on the
    initial state when the file was in the table. The difference comes from
    [updateStatus], which compares the two hashes and never tests whether the
    last-commit hash is empty, as [unstageFile] does. *)
Theorem stageFile_unstageFile_not_updateStatus (tree : gmap string string)
    (st : FileTracker.state) (p content : string) :
  tree !! p = Some content ->
  sha256 content <> "" ->
  (forall old, FileTracker.files st !! p = Some old ->
               FileTracker.lastCommitHash old = "") ->
  let st1 := (FileTracker.stageFile sha256 indexOpens tree st p).2 in
  let st2 := (FileTracker.unstageFile sha256 indexOpens tree st1 p).2 in
  FileTracker.status <$> FileTracker.files st1 !! p = Some FileTracker.STAGED
  /\ FileTracker.status <$> FileTracker.files st2 !! p
     = Some FileTracker.UNTRACKED
  /\ FileTracker.status
       <$> FileTracker.files (FileTracker.updateStatus sha256 tree st2) !! p
     = Some FileTracker.MODIFIED
  /\ (is_Some (FileTracker.files st !! p) ->
      FileTracker.status
        <$> FileTracker.files (FileTracker.updateStatus sha256 tree st) !! p
      = Some FileTracker.MODIFIED).
Proof.
  intros Htree Hdigest Hnever st1 st2.
  assert (exists f1,
            FileTracker.files st1 !! p = Some f1
            /\ FileTracker.status f1 = FileTracker.STAGED
            /\ FileTracker.lastCommitHash f1 = "") as (f1 & Hf1 & Hstaged & Hlast).
  { unfold st1, FileTracker.stageFile. rewrite Htree, saveState_files.
    cbn [FileTracker.files].
    destruct (FileTracker.files st !! p) as [old|] eqn:Hold;
      rewrite lookup_insert_eq; eexists; (split; [reflexivity|]);
      cbn [FileTracker.status FileTracker.lastCommitHash]; auto. }
  assert (FileTracker.files st2 !! p
          = Some (FileTracker.withStatus FileTracker.UNTRACKED f1)) as Hf2.
  { unfold st2, FileTracker.unstageFile. rewrite Hf1, Hstaged.
    rewrite bool_decide_eq_false_2 by (intros ?; congruence).
    rewrite saveState_files. cbn [FileTracker.files].
    rewrite lookup_insert_eq, Hlast. by rewrite bool_decide_eq_true_2. }
  split; [by rewrite Hf1; simpl; rewrite Hstaged|].
  split; [by rewrite Hf2|].
  split.
  - rewrite updateStatus_lookup, Htree. unfold FileTracker.scanEntry.
    rewrite Hf2. cbn [fmap option_fmap option_map FileTracker.status
                      FileTracker.withStatus FileTracker.lastCommitHash].
    rewrite Hlast. by rewrite bool_decide_eq_true_2.
  - intros [old Hold]. rewrite updateStatus_lookup, Htree.
    unfold FileTracker.scanEntry. rewrite Hold, (Hnever old Hold).
    cbn [fmap option_fmap option_map FileTracker.status].
    by rewrite bool_decide_eq_true_2.
Qed.


End FileTrackerProperties.

Lemma updateStatus_untracked_becomes_modified_witness :
  let tree : gmap string string := {[ "file2.txt" := "Content of file 2" ]} in
  let st0 := {| FileTracker.files := ∅; FileTracker.index := None |} in
  let st1 := FileTracker.updateStatus toyDigest tree st0 in
  FileTracker.status <$> FileTracker.files st1 !! "file2.txt"
  = Some FileTracker.UNTRACKED
  /\ exists f,
       FileTracker.files (FileTracker.updateStatus toyDigest tree st1)
         !! "file2.txt" = Some f
       /\ FileTracker.path f = "file2.txt"
       /\ FileTracker.hash f = toyDigest "Content of file 2"
       /\ FileTracker.lastCommitHash f = ""
       /\ FileTracker.status f = FileTracker.MODIFIED
       /\ FileTracker.status (FileTracker.updateFileStatus toyDigest tree f)
          = FileTracker.UNTRACKED.
Proof.
  intros tree st0 st1. split; [vm_compute; reflexivity|].
  apply (updateStatus_untracked_becomes_modified toyDigest tree st1
           "file2.txt" "Content of file 2"
           {| FileTracker.path := "file2.txt";
              FileTracker.hash := toyDigest "Content of file 2";
              FileTracker.lastCommitHash := "";
              FileTracker.status := FileTracker.UNTRACKED |}).
  - vm_compute. reflexivity.
  - vm_compute. reflexivity.
  - reflexivity.
  - vm_compute. discriminate.
Defined.

Lemma stageFile_unstageFile_not_updateStatus_witness :
  let tree : gmap string string := {[ "a.txt" := "x" ]} in
  let st0 :=
    FileTracker.updateStatus toyDigest tree
      {| FileTracker.files := ∅; FileTracker.index := None |} in
  let st1 := (FileTracker.stageFile toyDigest true tree st0 "a.txt").2 in
  let st2 := (FileTracker.unstageFile toyDigest true tree st1 "a.txt").2 in
  FileTracker.status <$> FileTracker.files st2 !! "a.txt"
  = Some FileTracker.UNTRACKED
  /\ FileTracker.status
       <$> FileTracker.files (FileTracker.updateStatus toyDigest tree st2)
             !! "a.txt"
     = Some FileTracker.MODIFIED.
Proof.
  intros tree st0 st1 st2.
  assert (tree !! "a.txt" = Some "x") as Htree by (vm_compute; reflexivity).
  assert (toyDigest "x" <> "") as Hdigest by (vm_compute; discriminate).
  assert (forall old, FileTracker.files st0 !! "a.txt" = Some old ->
                      FileTracker.lastCommitHash old = "") as Hnever.
  { intros old. vm_compute. intros [= <-]. reflexivity. }
  pose proof (stageFile_unstageFile_not_updateStatus toyDigest true tree st0
                "a.txt" "x" Htree Hdigest Hnever) as (_ & Hunstaged & Hrescan & _).
  split; assumption.
Defined.

Lemma unstageFile_not_staged_witness :
  let tree : gmap string string := {[ "a.txt" := "x" ]} in
  let st :=
    FileTracker.updateStatus toyDigest tree
      {| FileTracker.files := ∅; FileTracker.index := None |} in
  FileTracker.unstageFile toyDigest true tree st "a.txt" = (false, st).
Proof.
  intros tree st.
  apply (unstageFile_not_staged toyDigest true tree st "a.txt").
  intros f. vm_compute. intros [= <-]. discriminate.
Defined.


(** ** Tokens and delimiters *)

Lemma lines_of_fields_of (s : string) : lines_of s = fields_of utils.newline s.
Proof. induction s as [|c s IH]; simpl; [done|]. by rewrite IH. Qed.

Lemma getline_until_fields_of (d c : ascii) (s : string) :
  fields_of d (String c s) =
  (utils.getline_until d (String c s)).1
    :: fields_of d (utils.getline_until d (String c s)).2.
Proof.
  revert c. induction s as [|c' s IH]; intros c; simpl.
  - by destruct (Ascii.eqb c d).
  - destruct (Ascii.eqb c d) eqn:Hc; [done|].
    specialize (IH c'). simpl in IH. rewrite IH.
    by destruct (Ascii.eqb c' d), (utils.getline_until d s).
Qed.

Lemma getline_until_length (d : ascii) (s : string) :
  (String.length (utils.getline_until d s).2 <= String.length s)%nat.
Proof.
  induction s as [|c s IH]; simpl; [lia|].
  destruct (Ascii.eqb c d); simpl; [lia|].
  destruct (utils.getline_until d s); simpl in *. lia.
Qed.

Lemma split_loop_fields_of (fuel : nat) (s : string) (d : ascii) :
  (String.length s <= fuel)%nat -> utils.split_loop fuel s d = fields_of d s.
Proof.
  revert s. induction fuel as [|fuel IH]; intros s Hlen.
  - destruct s; simpl in *; [done | lia].
  - destruct s as [|c s]; [done|].
    rewrite getline_until_fields_of.
    cbn [utils.split_loop utils.getline_delim].
    pose proof (getline_until_length d (String c s)) as Hs.
    destruct (utils.getline_until d (String c s)) as [token rest] eqn:Hg.
    cbn [fst snd] in *. f_equal. apply IH.
    assert (String.length rest < String.length (String c s))%nat; [|simpl in *; lia].
    simpl in Hg. destruct (Ascii.eqb c d).
    + inversion Hg; subst. simpl. lia.
    + pose proof (getline_until_length d s) as Hs'.
      destruct (utils.getline_until d s); inversion Hg; subst. simpl in *. lia.
Qed.

Lemma split_fields_of (s : string) (d : ascii) : utils.split s d = fields_of d s.
Proof. apply split_loop_fields_of. lia. Qed.

Lemma getline_until_field (d : ascii) (l rest : string) :
  all_chars (differs d) l = true ->
  utils.getline_until d (l +:+ String d rest) = (l, rest).
Proof.
  induction l as [|c l IH]; simpl.
  - by rewrite Ascii.eqb_refl.
  - intros [Hc Hl]%andb_prop. apply negb_true_iff in Hc.
    rewrite Hc, IH by assumption. reflexivity.
Qed.

Lemma getline_until_last (d : ascii) (l : string) :
  all_chars (differs d) l = true -> utils.getline_until d l = (l, EmptyString).
Proof.
  induction l as [|c l IH]; simpl; [done|].
  intros [Hc Hl]%andb_prop. apply negb_true_iff in Hc.
  rewrite Hc, IH by assumption. reflexivity.
Qed.

Lemma fields_of_field (d : ascii) (l rest : string) :
  all_chars (differs d) l = true ->
  fields_of d (l +:+ String d rest) = l :: fields_of d rest.
Proof.
  induction l as [|c l IH]; simpl.
  - by rewrite Ascii.eqb_refl.
  - intros [Hc Hl]%andb_prop. apply negb_true_iff in Hc.
    by rewrite Hc, IH.
Qed.

Lemma fields_of_token (d : ascii) (l : string) :
  l <> EmptyString -> all_chars (differs d) l = true -> fields_of d l = [l].
Proof.
  induction l as [|c l IH]; [done|]. intros _ [Hc Hl]%andb_prop.
  apply negb_true_iff in Hc. simpl. rewrite Hc.
  destruct l as [|c' l]; [done|]. by rewrite IH.
Qed.

(** X12. Splitting what [join] built with a one-character delimiter gives the
    tokens back, provided no token holds the delimiter and the last token is
    not empty; [split] drops an empty last token. *)
Theorem split_join (v : list string) (d : ascii) :
  Forall (fun token => all_chars (differs d) token = true) v ->
  last v <> Some EmptyString ->
  utils.split (utils.join v (String d EmptyString)) d = v.
Proof.
  intros Hv Hlast. rewrite split_fields_of.
  induction Hv as [|token v Htoken _ IH]; [done|].
  destruct v as [|token' v].
  - simpl. apply fields_of_token; [|done]. intros ->. by apply Hlast.
  - change (utils.join (token :: token' :: v) (String d ""))
      with (token +:+ String d (utils.join (token' :: v) (String d ""))).
    rewrite fields_of_field by assumption. f_equal. apply IH.
    by rewrite last_cons_cons in Hlast.
Qed.

Lemma split_join_witness :
  utils.split (utils.join ["a"; ""; "b c"] ",") "," = ["a"; ""; "b c"].
Proof.
  apply (split_join ["a"; ""; "b c"] ",").
  - repeat constructor.
  - discriminate.
Defined.

(** ** Storing and loading commit objects *)

Lemma lines_of_writeLines_append (ls : list string) (rest : string) :
  Forall (fun l => no_newline l = true) ls ->
  lines_of (DiffEngine.writeLines ls +:+ rest) = ls ++ lines_of rest.
Proof.
  induction 1 as [|l ls Hl _ IH]; [done|].
  cbn [DiffEngine.writeLines app]. rewrite !append_assoc.
  change (l +:+ DiffEngine.endl +:+ DiffEngine.writeLines ls +:+ rest)
    with (l +:+ String utils.newline (DiffEngine.writeLines ls +:+ rest)).
  by rewrite lines_of_line, IH.
Qed.

Lemma lines_of_nonempty (c : ascii) (s : string) : lines_of (String c s) <> [].
Proof.
  simpl. destruct (Ascii.eqb c utils.newline); [done|].
  by destruct (lines_of s).
Qed.

Lemma lines_of_append_newline (a rest : string) :
  lines_of ((a +:+ String utils.newline EmptyString) +:+ rest)
  = lines_of (a +:+ String utils.newline EmptyString) ++ lines_of rest.
Proof.
  induction a as [|c a IH]; [done|].
  change ((String c a +:+ String utils.newline "") +:+ rest)
    with (String c ((a +:+ String utils.newline "") +:+ rest)).
  change (String c a +:+ String utils.newline "")
    with (String c (a +:+ String utils.newline "")).
  cbn [lines_of]. rewrite IH.
  destruct (Ascii.eqb c utils.newline); [done|].
  destruct (lines_of (a +:+ String utils.newline "")) as [|l more] eqn:Hl; [|done].
  destruct a; simpl in Hl; [done|].
  by apply lines_of_nonempty in Hl.
Qed.

Lemma writeLines_lines_of (a : string) :
  DiffEngine.writeLines (lines_of (a +:+ String utils.newline EmptyString))
  = a +:+ String utils.newline EmptyString.
Proof.
  induction a as [|c a IH]; [done|].
  change (String c a +:+ String utils.newline "")
    with (String c (a +:+ String utils.newline "")).
  cbn [lines_of].
  destruct (Ascii.eqb_spec c utils.newline) as [->|Hc].
  - cbn [DiffEngine.writeLines]. by rewrite IH.
  - destruct (lines_of (a +:+ String utils.newline "")) as [|l more] eqn:Hl.
    + destruct a; simpl in Hl; [done|]. by apply lines_of_nonempty in Hl.
    + cbn [DiffEngine.writeLines] in *.
      change (String c l +:+ DiffEngine.endl +:+ DiffEngine.writeLines more)
        with (String c (l +:+ DiffEngine.endl +:+ DiffEngine.writeLines more)).
      by rewrite IH.
Qed.

Lemma stripTrailingNewlines_newline (s : string) :
  CommitManager.stripTrailingNewlines (s +:+ String utils.newline EmptyString)
  = CommitManager.stripTrailingNewlines s.
Proof.
  induction s as [|c s IH]; [done|].
  change (String c s +:+ String utils.newline "")
    with (String c (s +:+ String utils.newline "")).
  cbn [CommitManager.stripTrailingNewlines]. by rewrite IH.
Qed.

(** Inserting the pairs of a list without repeated key one after the other
    builds the map of the list. *)
Lemma foldl_insert_lookup {V : Type} (l : list (string * V))
    (acc : gmap string V) (k : string) :
  NoDup l.*1 ->
  foldl (fun m entry => <[entry.1 := entry.2]> m) acc l !! k
  = match (list_to_map l : gmap string V) !! k with
    | Some v => Some v
    | None => acc !! k
    end.
Proof.
  revert acc. induction l as [|[k0 v0] l IH]; intros acc Hnodup; [done|].
  apply NoDup_cons in Hnodup as [Hk0 Hnodup].
  cbn [foldl fst snd]. rewrite IH by assumption.
  cbn [list_to_map foldr uncurry]. fold (list_to_map (M := gmap string V) l).
  destruct (decide (k0 = k)) as [->|Hne].
  - rewrite lookup_insert_eq.
    rewrite (not_elem_of_list_to_map_1 (M := gmap string) l k) by assumption.
    by rewrite lookup_insert_eq.
  - rewrite (lookup_insert_ne (list_to_map l)) by assumption.
    destruct (list_to_map l !! k); [done|]. by rewrite lookup_insert_ne.
Qed.

Lemma foldl_insert_map_to_list {V : Type} (m : gmap string V) :
  foldl (fun acc entry => <[entry.1 := entry.2]> acc) ∅ (map_to_list m) = m.
Proof.
  apply map_eq. intros k.
  rewrite foldl_insert_lookup by apply NoDup_fst_map_to_list.
  rewrite list_to_map_to_list, lookup_empty. by destruct (m !! k).
Qed.

Lemma parentLines_writeLines (parents : list string) :
  CommitManager.parentLines parents
  = DiffEngine.writeLines ((fun p => "parent " +:+ p) <$> parents).
Proof.
  induction parents as [|p ps IH]; [done|].
  cbn [CommitManager.parentLines fmap list_fmap DiffEngine.writeLines].
  fold ((fun p => "parent " +:+ p) <$> ps). rewrite IH.
  by rewrite !append_assoc.
Qed.

Lemma fileLines_writeLines (entries : list (string * string)) :
  CommitManager.fileLines entries = DiffEngine.writeLines (fileLine <$> entries).
Proof.
  induction entries as [|[p b] entries IH]; [done|].
  cbn [CommitManager.fileLines fmap list_fmap DiffEngine.writeLines].
  fold (fileLine <$> entries). rewrite IH. unfold fileLine. cbn [fst snd].
  by rewrite !append_assoc.
Qed.

Lemma signatureLine_signatureText (formatTimestamp : Z -> string)
    (role : string) (commit : CommitManager.CommitInfo) :
  CommitManager.signatureLine formatTimestamp role commit
  = signatureText formatTimestamp role commit +:+ DiffEngine.endl.
Proof.
  unfold CommitManager.signatureLine, signatureText. by rewrite !append_assoc.
Qed.

(** The lines of a stored commit object. *)
Lemma lines_of_commitObjectText (formatTimestamp : Z -> string)
    (commit : CommitManager.CommitInfo) :
  wf_commit formatTimestamp commit ->
  lines_of (CommitManager.commitObjectText formatTimestamp commit)
  = ("commit " +:+ CommitManager.hash commit)
      :: ((fun p => "parent " +:+ p) <$> CommitManager.parentHashes commit)
      ++ [signatureText formatTimestamp "author" commit;
          signatureText formatTimestamp "committer" commit; ""]
      ++ lines_of (CommitManager.message commit +:+ CommitManager.nl)
      ++ [""; "files:"]
      ++ (fileLine <$> map_to_list (CommitManager.fileHashes commit)).
Proof.
  intros (_ & Hhash & Hparents & _ & _ & Hauthor & _ & Hemail & Htime & _ & _
          & Hfiles).
  set (header :=
         ("commit " +:+ CommitManager.hash commit)
           :: ((fun p => "parent " +:+ p) <$> CommitManager.parentHashes commit)
           ++ [signatureText formatTimestamp "author" commit;
               signatureText formatTimestamp "committer" commit; ""]).
  set (table := fileLine <$> map_to_list (CommitManager.fileHashes commit)).
  assert (CommitManager.commitObjectText formatTimestamp commit
          = DiffEngine.writeLines header
              +:+ (CommitManager.message commit +:+ String utils.newline "")
              +:+ DiffEngine.writeLines ([""; "files:"] ++ table)) as ->.
  { unfold CommitManager.commitObjectText, header, table.
    rewrite parentLines_writeLines, fileLines_writeLines,
      !signatureLine_signatureText.
    cbn [DiffEngine.writeLines app]. rewrite writeLines_app.
    cbn [DiffEngine.writeLines].
    unfold CommitManager.nl, DiffEngine.endl. by rewrite !append_assoc. }
  assert (forall role,
            no_newline (signatureText formatTimestamp role commit)
            = no_newline role) as Hsig.
  { intros role. unfold signatureText, no_newline in *.
    rewrite !all_chars_append, Hauthor, Hemail, Htime. simpl.
    by rewrite !andb_true_r. }
  rewrite lines_of_writeLines_append, lines_of_append_newline.
  - rewrite lines_of_writeLines.
    + unfold header. cbn [app]. by rewrite <- !app_assoc.
    + repeat apply Forall_cons_2; try done. unfold table. apply Forall_fmap.
      eapply Forall_impl; [exact Hfiles|]. intros [p b] (_ & Hp & Hb).
      unfold compose, fileLine, no_newline in *. cbn [fst snd] in *.
      rewrite !all_chars_append, Hp, Hb. reflexivity.
  - unfold header. apply Forall_cons_2.
    + unfold no_newline in *. by rewrite all_chars_append, Hhash.
    + apply Forall_app. split.
      * apply Forall_fmap. eapply Forall_impl; [exact Hparents|].
        intros p Hp. unfold compose, no_newline in *.
        by rewrite all_chars_append, Hp.
      * repeat apply Forall_cons_2; try done; by rewrite Hsig.
Qed.

Lemma readHeaders_parents (parents : list string) (rest : list string)
    (h m a e : string) (t : Z) (ps : list string) (f : gmap string string) :
  CommitManager.readHeaders (((fun p => "parent " +:+ p) <$> parents) ++ rest)
    {| CommitManager.hash := h; CommitManager.message := m;
       CommitManager.author := a; CommitManager.email := e;
       CommitManager.timestamp := t; CommitManager.parentHashes := ps;
       CommitManager.fileHashes := f |}
  = CommitManager.readHeaders rest
      {| CommitManager.hash := h; CommitManager.message := m;
         CommitManager.author := a; CommitManager.email := e;
         CommitManager.timestamp := t;
         CommitManager.parentHashes := ps ++ parents;
         CommitManager.fileHashes := f |}.
Proof.
  revert ps. induction parents as [|p parents IH]; intros ps.
  - by rewrite app_nil_r.
  - cbn [fmap list_fmap app CommitManager.readHeaders].
    fold ((fun p => "parent " +:+ p) <$> parents).
    rewrite bool_decide_eq_false_2 by discriminate.
    unfold CommitManager.headerLine.
    rewrite bool_decide_eq_true_2
      by (by apply (substr_between _ "" "parent " p)).
    cbn [CommitManager.hash CommitManager.message CommitManager.author
         CommitManager.email CommitManager.timestamp
         CommitManager.parentHashes CommitManager.fileHashes].
    change (utils.substr_from 7 ("parent " +:+ p)) with p.
    rewrite IH. by rewrite <- app_assoc.
Qed.

Lemma headerLine_author (formatTimestamp : Z -> string)
    (commit record : CommitManager.CommitInfo) :
  all_chars (differs "<") (CommitManager.author commit) = true ->
  all_chars (differs ">") (CommitManager.author commit) = true ->
  all_chars (differs ">") (CommitManager.email commit) = true ->
  CommitManager.headerLine (signatureText formatTimestamp "author" commit) record
  = {| CommitManager.hash := CommitManager.hash record;
       CommitManager.message := CommitManager.message record;
       CommitManager.author := CommitManager.author commit;
       CommitManager.email := CommitManager.email commit;
       CommitManager.timestamp := CommitManager.timestamp record;
       CommitManager.parentHashes := CommitManager.parentHashes record;
       CommitManager.fileHashes := CommitManager.fileHashes record |}.
Proof.
  intros Hlt Hgt Hmail.
  set (name := CommitManager.author commit) in *.
  set (mail := CommitManager.email commit) in *.
  set (time := formatTimestamp (CommitManager.timestamp commit)).
  set (line := signatureText formatTimestamp "author" commit).
  assert (line = "author " +:+ name +:+ " <" +:+ mail +:+ "> " +:+ time)
    as Hline by reflexivity.
  assert (utils.find_char "<" line
          = Some (String.length ("author " +:+ name +:+ " "))) as Hstart.
  { rewrite Hline.
    replace ("author " +:+ name +:+ " <" +:+ mail +:+ "> " +:+ time)
      with (("author " +:+ name +:+ " ") +:+ String "<" (mail +:+ "> " +:+ time))
      by (by rewrite !append_assoc).
    apply find_char_absent. by rewrite !all_chars_append, Hlt. }
  assert (utils.find_char ">" line
          = Some (String.length ("author " +:+ name +:+ " <" +:+ mail))) as Hend.
  { rewrite Hline.
    replace ("author " +:+ name +:+ " <" +:+ mail +:+ "> " +:+ time)
      with (("author " +:+ name +:+ " <" +:+ mail) +:+ String ">" (" " +:+ time))
      by (by rewrite !append_assoc).
    apply find_char_absent. by rewrite !all_chars_append, Hgt, Hmail. }
  unfold CommitManager.headerLine. fold line.
  rewrite (bool_decide_eq_false_2 (utils.substr 0 7 line = "parent ")).
  2:{ rewrite (substr_between line "" "author "
                 (name +:+ " <" +:+ mail +:+ "> " +:+ time)) by done.
      discriminate. }
  rewrite (bool_decide_eq_true_2 (utils.substr 0 7 line = "author "))
    by (by apply (substr_between line "" "author "
                    (name +:+ " <" +:+ mail +:+ "> " +:+ time))).
  rewrite Hstart, Hend.
  rewrite bool_decide_eq_true_2 by (rewrite !length_append; simpl; lia).
  rewrite bool_decide_eq_true_2 by (rewrite !length_append; simpl; lia).
  f_equal.
  - apply (substr_between line "author " name (" <" +:+ mail +:+ "> " +:+ time));
      [done | done |]. rewrite !length_append. simpl. lia.
  - apply (substr_between line ("author " +:+ name +:+ " <") mail ("> " +:+ time)).
    + rewrite Hline. by rewrite !append_assoc.
    + rewrite !length_append. simpl. lia.
    + rewrite !length_append. simpl. lia.
Qed.

Lemma headerLine_committer (formatTimestamp : Z -> string)
    (commit record : CommitManager.CommitInfo) :
  CommitManager.headerLine (signatureText formatTimestamp "committer" commit)
    record = record.
Proof.
  unfold CommitManager.headerLine.
  set (tail := "er " +:+ CommitManager.author commit +:+ " <"
                 +:+ CommitManager.email commit +:+ "> "
                 +:+ formatTimestamp (CommitManager.timestamp commit)).
  rewrite !(substr_between (signatureText formatTimestamp "committer" commit)
              "" "committ" tail) by done.
  reflexivity.
Qed.

Lemma readMessage_files (ls rest : list string) :
  Forall (fun l => l <> "files:") ls ->
  CommitManager.readMessage (ls ++ "files:" :: rest)
  = (DiffEngine.writeLines ls, Some rest).
Proof.
  induction 1 as [|l ls Hl _ IH]; [done|].
  cbn [app CommitManager.readMessage DiffEngine.writeLines].
  rewrite bool_decide_eq_false_2 by assumption. by rewrite IH.
Qed.

Lemma readFiles_fileLines (entries : list (string * string))
    (acc : gmap string string) :
  Forall (fun entry => all_chars (differs utils.tab) entry.1 = true) entries ->
  CommitManager.readFiles (fileLine <$> entries) acc
  = foldl (fun m entry => <[entry.1 := entry.2]> m) acc entries.
Proof.
  intros Hentries. revert acc.
  induction Hentries as [|[p b] entries Hp _ IH]; intros acc; [done|].
  cbn [fmap list_fmap CommitManager.readFiles foldl fst snd] in *.
  fold (fileLine <$> entries).
  change (fileLine (p, b)) with (p +:+ String utils.tab b).
  rewrite find_char_absent by assumption.
  rewrite (substr_between _ "" p (String utils.tab b)) by done.
  replace (utils.substr_from (String.length p + 1) (p +:+ String utils.tab b))
    with b; [apply IH|].
  replace (String.length p + 1)%nat with (String.length (p +:+ String utils.tab ""))
    by (rewrite length_append; simpl; lia).
  change (p +:+ String utils.tab b) with (p +:+ String utils.tab "" +:+ b).
  by rewrite <- append_assoc, substr_from_append.
Qed.

(** What [loadCommitObject] makes of the lines of a stored commit. *)
Lemma loadCommitObject_stored (formatTimestamp : Z -> string) (dir : string)
    (commit : CommitManager.CommitInfo) (d : gmap string string) :
  wf_commit formatTimestamp commit ->
  d !! CommitManager.objectPath dir (CommitManager.hash commit)
  = Some (CommitManager.commitObjectText formatTimestamp commit) ->
  CommitManager.loadCommitObject dir d (CommitManager.hash commit)
  = withoutTimestamp commit.
Proof.
  intros Hwf Hstored. pose proof (lines_of_commitObjectText _ _ Hwf) as Hlines.
  destruct Hwf as (Hlen & _ & _ & Hlt & Hgt & _ & Hmail & _ & _ & Hstrip
                   & Hmessage & Hfiles).
  unfold CommitManager.loadCommitObject.
  rewrite bool_decide_eq_false_2 by lia.
  rewrite Hstored, splitLines_lines_of, Hlines.
  rewrite bool_decide_eq_true_2
    by (by apply (substr_between _ "" "commit " (CommitManager.hash commit))).
  cbn [negb]. rewrite readHeaders_parents. cbn [app CommitManager.readHeaders].
  rewrite bool_decide_eq_false_2 by discriminate.
  rewrite headerLine_author by assumption.
  rewrite bool_decide_eq_false_2 by discriminate.
  rewrite headerLine_committer.
  rewrite bool_decide_eq_true_2 by reflexivity.
  rewrite (cons_middle ""), (app_assoc _ [""] ("files:" :: _)).
  rewrite readMessage_files.
  2:{ apply Forall_app. split; [assumption|]. by apply Forall_cons_2. }
  rewrite writeLines_app, writeLines_lines_of.
  cbn [DiffEngine.writeLines CommitManager.hash CommitManager.message
       CommitManager.author CommitManager.email CommitManager.timestamp
       CommitManager.parentHashes CommitManager.fileHashes].
  unfold withoutTimestamp. f_equal.
  - change ("" +:+ DiffEngine.endl +:+ "") with (String utils.newline "").
    by rewrite !stripTrailingNewlines_newline.
  - rewrite readFiles_fileLines, foldl_insert_map_to_list; [done|].
    eapply Forall_impl; [exact Hfiles|]. by intros entry (? & _).
Qed.

(** X6. A commit object written by [saveCommitObject] is read back by
    [loadCommitObject]: for a well-formed commit whose object file opens,
    loading its hash from the disk left by the save returns the commit, with
    the time left at the epoch (the loader never parses the time). *)
Theorem loadCommitObject_saveCommitObject (formatTimestamp : Z -> string)
    (canOpen : string -> bool) (dir : string)
    (commit : CommitManager.CommitInfo) (d : gmap string string) :
  wf_commit formatTimestamp commit ->
  canOpen (CommitManager.objectPath dir (CommitManager.hash commit)) = true ->
  let saved := CommitManager.saveCommitObject formatTimestamp canOpen dir commit d in
  saved.1 = true
  /\ CommitManager.loadCommitObject dir saved.2 (CommitManager.hash commit)
     = withoutTimestamp commit.
Proof.
  intros Hwf Hopen. unfold CommitManager.saveCommitObject. rewrite Hopen.
  split; [reflexivity|]. cbn [snd].
  apply (loadCommitObject_stored formatTimestamp); [assumption|].
  apply lookup_insert_eq.
Qed.

Lemma loadCommitObject_saveCommitObject_witness :
  let commit :=
    {| CommitManager.hash := "ab12"; CommitManager.message := "first commit";
       CommitManager.author := "Ann"; CommitManager.email := "ann@example.org";
       CommitManager.timestamp := 5; CommitManager.parentHashes := ["cd34"];
       CommitManager.fileHashes := {["a.txt" := "dummy-file-hash"]} |} in
  let saved :=
    CommitManager.saveCommitObject toyTimestamp (fun _ => true) ".mimirion"
      commit ∅ in
  saved.1 = true
  /\ CommitManager.loadCommitObject ".mimirion" saved.2 "ab12"
     = withoutTimestamp commit.
Proof.
  intros commit.
  apply (loadCommitObject_saveCommitObject toyTimestamp (fun _ => true)
           ".mimirion" commit ∅); [|reflexivity].
  unfold wf_commit, commit.
  cbn [CommitManager.hash CommitManager.message CommitManager.author
       CommitManager.email CommitManager.timestamp CommitManager.parentHashes
       CommitManager.fileHashes].
  rewrite map_to_list_singleton.
  repeat first [ apply Forall_nil_2 | apply Forall_cons_2 | reflexivity
               | discriminate | split | simpl; lia ].
Defined.

(** ** Creating a commit and reading it back *)

Lemma stripTrailingNewlines_idempotent (s : string) :
  CommitManager.stripTrailingNewlines (CommitManager.stripTrailingNewlines s)
  = CommitManager.stripTrailingNewlines s.
Proof.
  induction s as [|c s IH]; [done|].
  cbn [CommitManager.stripTrailingNewlines].
  destruct (CommitManager.stripTrailingNewlines s) as [|x rest] eqn:Hs.
  - destruct (CommitManager.is_line_end c) eqn:Hc; [done|].
    cbn [CommitManager.stripTrailingNewlines]. by rewrite Hc.
  - cbn [CommitManager.stripTrailingNewlines] in *. by rewrite IH.
Qed.

Lemma stagedTable_staged (stagedFiles : list string) (file blob : string) :
  CommitManager.stagedTable stagedFiles !! file = Some blob ->
  file ∈ stagedFiles.
Proof.
  unfold CommitManager.stagedTable.
  assert (forall (acc : gmap string string),
            foldl (fun m x => <[x := "dummy-file-hash"]> m) acc stagedFiles
              !! file = Some blob ->
            file ∈ stagedFiles \/ acc !! file = Some blob) as Hfold.
  { induction stagedFiles as [|x rest IH]; intros acc; simpl; [by right|].
    intros [Hin|Hacc]%IH; [left; by right|].
    rewrite lookup_insert in Hacc. case_decide; [subst; left; by left|by right]. }
  intros [Hin|Habsurd]%Hfold; [done|]. by rewrite lookup_empty in Habsurd.
Qed.

(** A successful [createCommit], taken apart. *)
Lemma createCommit_Created (sha256 : string -> string)
    (formatTimestamp : Z -> string) (userName userEmail : string)
    (canOpen : string -> bool) (st st' : CommitManager.state) (msg : string)
    (stagedFiles : list string) (now : Z) (h : string) :
  CommitManager.createCommit sha256 formatTimestamp userName userEmail canOpen
    st msg stagedFiles now = (CommitManager.Created h, st') ->
  let dir := CommitManager.mimirionDir st in
  let commit :=
    CommitManager.withHash h
      (CommitManager.buildCommit userName userEmail st msg stagedFiles now) in
  stagedFiles <> []
  /\ h = CommitManager.generateCommitHash sha256 formatTimestamp
           (CommitManager.buildCommit userName userEmail st msg stagedFiles now)
  /\ canOpen (CommitManager.objectPath dir h) = true
  /\ canOpen (CommitManager.masterRefPath dir) = true
  /\ CommitManager.mimirionDir st' = dir
  /\ CommitManager.currentHead st' = h
  /\ CommitManager.disk st'
     = (CommitManager.saveState canOpen dir
          (<[CommitManager.masterRefPath dir := h +:+ CommitManager.nl]>
             (<[CommitManager.objectPath dir h :=
                  CommitManager.commitObjectText formatTimestamp commit]>
                (CommitManager.disk st)))).2.
Proof.
  unfold CommitManager.createCommit, CommitManager.saveCommitObject.
  destruct stagedFiles as [|file rest]; [discriminate|].
  set (built := CommitManager.buildCommit userName userEmail st msg
                  (file :: rest) now).
  cbn [CommitManager.hash CommitManager.withHash].
  destruct (canOpen (CommitManager.objectPath _ _)) eqn:Hobject; [|discriminate].
  destruct (canOpen (CommitManager.masterRefPath _)) eqn:Hmaster; [|discriminate].
  destruct (CommitManager.saveState _ _ _) as [ok d3] eqn:Hsave.
  intros [= <- <-]. cbn [CommitManager.mimirionDir CommitManager.currentHead
                         CommitManager.disk].
  by rewrite Hsave.
Qed.

Lemma saveState_lookup (canOpen : string -> bool) (dir : string)
    (d : gmap string string) (p : string) :
  p <> CommitManager.headPath dir ->
  (CommitManager.saveState canOpen dir d).2 !! p = d !! p.
Proof.
  intros Hp. unfold CommitManager.saveState.
  destruct (canOpen _); [|done]. cbn [snd]. by rewrite lookup_insert_ne.
Qed.

Lemma wf_commit_buildCommit (formatTimestamp : Z -> string)
    (userName userEmail : string) (st : CommitManager.state) (msg : string)
    (stagedFiles : list string) (now : Z) (h : string) :
  wf_request formatTimestamp userName userEmail st msg stagedFiles now ->
  (2 <= String.length h)%nat -> no_newline h = true ->
  wf_commit formatTimestamp
    (CommitManager.withHash h
       (CommitManager.buildCommit userName userEmail st msg stagedFiles now)).
Proof.
  intros (Hlt & Hgt & Hname & Hmail & Hmailnl & Hhead & Htime & Hmsg & Hfiles)
         Hlen Hh.
  unfold wf_commit, CommitManager.withHash, CommitManager.buildCommit.
  cbn [CommitManager.hash CommitManager.message CommitManager.author
       CommitManager.email CommitManager.timestamp CommitManager.parentHashes
       CommitManager.fileHashes].
  repeat (split; [assumption|]).
  split; [case_bool_decide; by repeat constructor|].
  repeat (split; [assumption|]).
  split; [apply stripTrailingNewlines_idempotent|].
  split; [assumption|].
  apply Forall_forall. intros [file blob] Hin%elem_of_map_to_list.
  pose proof (stagedTable_staged _ _ _ Hin) as Hstaged.
  apply stagedTable_placeholder in Hin as ->.
  rewrite Forall_forall in Hfiles. destruct (Hfiles _ Hstaged) as [Htab Hnl].
  by cbn [fst snd].
Qed.

Lemma withoutTimestamp_buildCommit (userName userEmail : string)
    (st : CommitManager.state) (msg : string) (stagedFiles : list string)
    (now : Z) (h : string) :
  withoutTimestamp
    (CommitManager.withHash h
       (CommitManager.buildCommit userName userEmail st msg stagedFiles now))
  = storedCommit userName userEmail st msg stagedFiles h.
Proof. reflexivity. Qed.

(** The object of the commit just created loads from the disk it leaves. *)
Lemma loadCommitObject_createCommit (sha256 : string -> string)
    (formatTimestamp : Z -> string) (userName userEmail : string)
    (canOpen : string -> bool) (st st' : CommitManager.state) (msg : string)
    (stagedFiles : list string) (now : Z) (h : string) :
  CommitManager.createCommit sha256 formatTimestamp userName userEmail canOpen
    st msg stagedFiles now = (CommitManager.Created h, st') ->
  wf_request formatTimestamp userName userEmail st msg stagedFiles now ->
  (2 <= String.length h)%nat -> no_newline h = true ->
  CommitManager.loadCommitObject (CommitManager.mimirionDir st')
    (CommitManager.disk st') h
  = storedCommit userName userEmail st msg stagedFiles h.
Proof.
  intros (_ & _ & _ & _ & -> & _ & ->)%createCommit_Created Hwf Hlen Hh.
  rewrite <- (withoutTimestamp_buildCommit _ _ _ _ _ now).
  set (commit := CommitManager.withHash h
                    (CommitManager.buildCommit userName userEmail st msg
                       stagedFiles now)).
  change h with (CommitManager.hash commit) at 3.
  apply (loadCommitObject_stored formatTimestamp);
    [by apply wf_commit_buildCommit|].
  change (CommitManager.hash commit) with h.
  rewrite saveState_lookup by (apply not_eq_sym, objectPath_not_headPath).
  rewrite lookup_insert_ne by apply objectPath_not_masterRefPath.
  apply lookup_insert_eq.
Qed.

(** X7. The commit just created is the head commit: after a successful
    [createCommit] on a well-formed request, with a digest of two characters
    at least and no newline, [getHeadCommit] returns the commit stored (the
    cleaned message, the user's identity, the former HEAD as only parent, the
    placeholder table of the staged files; the time is not read back) and
    enters it in the cache. *)
Theorem getHeadCommit_createCommit (sha256 : string -> string)
    (formatTimestamp : Z -> string) (userName userEmail : string)
    (canOpen : string -> bool) (st st' : CommitManager.state) (msg : string)
    (stagedFiles : list string) (now : Z) (h : string)
    (commits : gmap string CommitManager.CommitInfo) :
  CommitManager.createCommit sha256 formatTimestamp userName userEmail canOpen
    st msg stagedFiles now = (CommitManager.Created h, st') ->
  wf_request formatTimestamp userName userEmail st msg stagedFiles now ->
  (2 <= String.length h)%nat -> no_newline h = true ->
  commits !! h = None ->
  let commit := storedCommit userName userEmail st msg stagedFiles h in
  CommitManager.getHeadCommit st' commits
  = (Some commit, <[h := commit]> commits).
Proof.
  intros Hcreate Hwf Hlen Hh Hcache commit.
  pose proof (loadCommitObject_createCommit _ _ _ _ _ _ _ _ _ _ _
                Hcreate Hwf Hlen Hh) as Hload.
  apply createCommit_Created in Hcreate as (_ & _ & _ & _ & _ & Hhead & _).
  unfold CommitManager.getHeadCommit, CommitManager.getCommit.
  rewrite Hhead, Hcache, Hload.
  rewrite bool_decide_eq_false_2 by (intros ->; simpl in Hlen; lia).
  change (CommitManager.hash
            (storedCommit userName userEmail st msg stagedFiles h)) with h.
  rewrite bool_decide_eq_false_2 by (intros ->; simpl in Hlen; lia).
  reflexivity.
Qed.

Lemma getHeadCommit_createCommit_witness :
  let st :=
    {| CommitManager.mimirionDir := ".mimirion";
       CommitManager.currentHead := ""; CommitManager.disk := ∅ |} in
  let created :=
    CommitManager.createCommit toyDigest toyTimestamp "Ann" "ann@example.org"
      (fun _ => true) st ("first commit" +:+ CommitManager.nl) ["a.txt"] 5 in
  let commit :=
    {| CommitManager.hash := "h102"; CommitManager.message := "first commit";
       CommitManager.author := "Ann"; CommitManager.email := "ann@example.org";
       CommitManager.timestamp := 0; CommitManager.parentHashes := [];
       CommitManager.fileHashes := {["a.txt" := "dummy-file-hash"]} |} in
  created.1 = CommitManager.Created "h102"
  /\ CommitManager.getHeadCommit created.2 ∅ = (Some commit, {["h102" := commit]}).
Proof.
  intros st created commit. split; [vm_compute; reflexivity|].
  apply (getHeadCommit_createCommit toyDigest toyTimestamp "Ann"
           "ann@example.org" (fun _ => true) st created.2
           ("first commit" +:+ CommitManager.nl) ["a.txt"] 5 "h102" ∅).
  - vm_compute. reflexivity.
  - unfold wf_request.
    repeat first [ apply Forall_nil_2 | apply Forall_cons_2 | reflexivity
                 | discriminate | split ].
  - simpl. lia.
  - reflexivity.
  - reflexivity.
Defined.

(** *** The history after a commit *)

Lemma headerLine_hash (line : string) (commit : CommitManager.CommitInfo) :
  CommitManager.hash (CommitManager.headerLine line commit)
  = CommitManager.hash commit.
Proof.
  unfold CommitManager.headerLine. repeat case_bool_decide; try done.
  by destruct (utils.find_char "<" line), (utils.find_char ">" line).
Qed.

Lemma readHeaders_hash (ls : list string) (commit : CommitManager.CommitInfo) :
  CommitManager.hash (CommitManager.readHeaders ls commit).1
  = CommitManager.hash commit.
Proof.
  revert commit. induction ls as [|line ls IH]; intros commit; [done|].
  cbn [CommitManager.readHeaders]. case_bool_decide; [done|].
  by rewrite IH, headerLine_hash.
Qed.

(** A commit that loads carries the hash it was asked for. *)
Lemma loadCommitObject_hash (dir : string) (d : gmap string string) (h : string) :
  CommitManager.hash (CommitManager.loadCommitObject dir d h) <> "" ->
  CommitManager.hash (CommitManager.loadCommitObject dir d h) = h
  /\ (2 <= String.length h)%nat.
Proof.
  unfold CommitManager.loadCommitObject.
  case_bool_decide as Hlen; [done|].
  destruct (d !! _) as [content|]; [|done].
  destruct (DiffEngine.splitLines content) as [|line rest]; [done|].
  destruct (negb _); [done|].
  pose proof (readHeaders_hash rest
                {| CommitManager.hash := h; CommitManager.message := "";
                   CommitManager.author := ""; CommitManager.email := "";
                   CommitManager.timestamp := 0;
                   CommitManager.parentHashes := [];
                   CommitManager.fileHashes := ∅ |}) as Hhash.
  destruct (CommitManager.readHeaders rest _) as [commit rest1].
  destruct (CommitManager.readMessage rest1) as [text found].
  cbn [CommitManager.hash fst] in *. intros _. split; [done|lia].
Qed.

(** Hashes of two characters at least have distinct object files. *)
Lemma objectPath_inj (dir h1 h2 : string) :
  (2 <= String.length h1)%nat -> (2 <= String.length h2)%nat ->
  CommitManager.objectPath dir h1 = CommitManager.objectPath dir h2 ->
  h1 = h2.
Proof.
  unfold CommitManager.objectPath.
  destruct h1 as [|a1 [|b1 r1]]; [simpl; lia | simpl; lia |].
  destruct h2 as [|a2 [|b2 r2]]; [simpl; lia | simpl; lia |].
  intros _ _ Heq%String.app_inj.
  assert (forall a b r, utils.substr 0 2 (String a (String b r))
                        = String a (String b "")) as Hprefix
      by (intros a b r; unfold utils.substr; simpl; by destruct r).
  assert (forall a b r, utils.substr_from 2 (String a (String b r)) = r)
    as Hsuffix by (intros a b r; apply (substr_from_append (String a (String b "")) r)).
  rewrite !Hprefix, !Hsuffix in Heq. simpl in Heq. by injection Heq as -> -> ->.
Qed.

(** A loader that reads the same object files loads the same commits. *)
Lemma loadCommitObject_frame (dir : string) (d d' : gmap string string)
    (h : string) :
  d' !! CommitManager.objectPath dir h = d !! CommitManager.objectPath dir h ->
  CommitManager.loadCommitObject dir d' h = CommitManager.loadCommitObject dir d h.
Proof. intros Hsame. unfold CommitManager.loadCommitObject. by rewrite Hsame. Qed.

Lemma first_parent_chain_frame (dir : string) (d d' : gmap string string)
    (h head : string) (chain : list CommitManager.CommitInfo) :
  (forall x, x <> h -> (2 <= String.length x)%nat ->
             d' !! CommitManager.objectPath dir x
             = d !! CommitManager.objectPath dir x) ->
  first_parent_chain (CommitManager.loadCommitObject dir d) head chain ->
  h ∉ CommitManager.hash <$> chain ->
  first_parent_chain (CommitManager.loadCommitObject dir d') head chain.
Proof.
  intros Hframe.
  assert (forall x,
            CommitManager.hash (CommitManager.loadCommitObject dir d x) <> "" ->
            CommitManager.hash (CommitManager.loadCommitObject dir d x) <> h ->
            CommitManager.loadCommitObject dir d' x
            = CommitManager.loadCommitObject dir d x) as Hload.
  { intros x [Hx Hlen]%loadCommitObject_hash Hne. rewrite Hx in Hne.
    by apply loadCommitObject_frame, Hframe. }
  induction 1 as [x Hx Hhash Hroot | x parent others chain Hx Hhash Hparents _ IH];
    intros Hfresh.
  - assert (CommitManager.hash (CommitManager.loadCommitObject dir d x) <> h)
      as Hne by (intros Heq; apply Hfresh; rewrite fmap_cons, Heq;
                 apply list_elem_of_here).
    rewrite <- (Hload x) by done.
    apply chain_root; [done | |]; by rewrite (Hload x).
  - assert (CommitManager.hash (CommitManager.loadCommitObject dir d x) <> h)
      as Hne by (intros Heq; apply Hfresh; rewrite fmap_cons, Heq;
                 apply list_elem_of_here).
    rewrite <- (Hload x) by done.
    apply chain_parent with (parent := parent) (others := others); [done | | |].
    + by rewrite (Hload x).
    + by rewrite (Hload x).
    + apply IH. intros Hin. apply Hfresh. rewrite fmap_cons.
      by apply list_elem_of_further.
Qed.

(** X8. A commit extends the history by itself: after a successful
    [createCommit] on a well-formed request whose digest (two characters at
    least, no newline) is the hash of no commit of the history so far,
    [getHistory] returns the commit stored followed by that history. *)
Theorem getHistory_createCommit (sha256 : string -> string)
    (formatTimestamp : Z -> string) (userName userEmail : string)
    (canOpen : string -> bool) (st st' : CommitManager.state) (msg : string)
    (stagedFiles : list string) (now : Z) (h : string)
    (chain : list CommitManager.CommitInfo) (fuel : nat) :
  CommitManager.createCommit sha256 formatTimestamp userName userEmail canOpen
    st msg stagedFiles now = (CommitManager.Created h, st') ->
  wf_request formatTimestamp userName userEmail st msg stagedFiles now ->
  (2 <= String.length h)%nat -> no_newline h = true ->
  history_chain
    (CommitManager.loadCommitObject (CommitManager.mimirionDir st)
       (CommitManager.disk st))
    (CommitManager.currentHead st) chain ->
  h ∉ CommitManager.hash <$> chain ->
  (S (length chain) < fuel)%nat ->
  CommitManager.getHistory st' 0 fuel
  = Some (storedCommit userName userEmail st msg stagedFiles h :: chain).
Proof.
  intros Hcreate Hwf Hlen Hh Hchain Hfresh Hfuel.
  pose proof (loadCommitObject_createCommit _ _ _ _ _ _ _ _ _ _ _
                Hcreate Hwf Hlen Hh) as Hload.
  apply createCommit_Created in Hcreate as (_ & _ & _ & _ & Hdir & Hhead & Hdisk).
  assert (h <> "") as Hne by (intros ->; simpl in Hlen; lia).
  unfold CommitManager.getHistory. rewrite Hhead.
  set (load' := CommitManager.loadCommitObject (CommitManager.mimirionDir st')
                  (CommitManager.disk st')) in *.
  assert (first_parent_chain load' h
            (storedCommit userName userEmail st msg stagedFiles h :: chain))
    as Hnew.
  { rewrite <- Hload.
    destruct Hchain as [[Hempty ->] | Hchain].
    - apply chain_root; [done | by rewrite Hload |].
      rewrite Hload. cbn. by rewrite bool_decide_eq_true_2.
    - assert (CommitManager.currentHead st <> "") as Hold
          by (by destruct Hchain).
      apply chain_parent with (parent := CommitManager.currentHead st)
                              (others := []); [done | by rewrite Hload | |].
      + rewrite Hload. cbn. by rewrite bool_decide_eq_false_2.
      + unfold load'. rewrite Hdir.
        apply (first_parent_chain_frame _ (CommitManager.disk st) _ h);
          [|done|done].
        intros x Hx Hxlen. rewrite Hdisk.
        rewrite saveState_lookup by (apply not_eq_sym, objectPath_not_headPath).
        rewrite lookup_insert_ne by apply objectPath_not_masterRefPath.
        apply lookup_insert_ne. intros Heq%objectPath_inj; done. }
  rewrite (getHistory_loop_chain _ _ _ Hnew) by (simpl; lia).
  by rewrite bool_decide_eq_true_2.
Qed.

Lemma getHistory_createCommit_witness :
  let load := CommitManager.loadCommitObject ".mimirion" mergeDisk in
  let created :=
    CommitManager.createCommit toyDigest toyTimestamp "Ann" "ann@example.org"
      (fun _ => true) mergeState "second commit" ["a.txt"] 7 in
  created.1 = CommitManager.Created "h114"
  /\ CommitManager.getHistory created.2 0 4
     = Some [storedCommit "Ann" "ann@example.org" mergeState "second commit"
               ["a.txt"] "h114";
             load "cc3"; load "aa1"].
Proof.
  intros load created. split; [vm_compute; reflexivity|].
  apply (getHistory_createCommit toyDigest toyTimestamp "Ann" "ann@example.org"
           (fun _ => true) mergeState created.2 "second commit" ["a.txt"] 7
           "h114" [load "cc3"; load "aa1"] 4).
  - vm_compute. reflexivity.
  - unfold wf_request.
    repeat first [ apply Forall_nil_2 | apply Forall_cons_2 | reflexivity
                 | discriminate | split ].
  - simpl. lia.
  - reflexivity.
  - right. apply chain_parent with (parent := "aa1") (others := ["bb2"]).
    + discriminate.
    + vm_compute. discriminate.
    + vm_compute. reflexivity.
    + apply chain_root.
      * discriminate.
      * vm_compute. discriminate.
      * vm_compute. reflexivity.
  - vm_compute. intros Hin.
    repeat (apply elem_of_cons in Hin as [Hin|Hin]; [discriminate|]).
    by apply elem_of_nil in Hin.
  - simpl. lia.
Defined.

(** *** Failures and what a commit leaves alone *)

Lemma masterRefPath_not_headPath (dir : string) :
  CommitManager.masterRefPath dir <> CommitManager.headPath dir.
Proof.
  unfold CommitManager.masterRefPath, CommitManager.headPath.
  intros Heq%String.app_inj. discriminate.
Qed.

Lemma getline_line (l rest : string) :
  no_newline l = true ->
  utils.getline (l +:+ String utils.newline rest) = Some (l, rest).
Proof.
  intros Hl.
  assert (utils.getline_chars (l +:+ String utils.newline rest) = (l, rest))
    as Hchars.
  { induction l as [|c l IH]; [done|].
    apply andb_prop in Hl as [Hc Hl]. apply negb_true_iff in Hc.
    change (String c l +:+ String utils.newline rest)
      with (String c (l +:+ String utils.newline rest)).
    cbn [utils.getline_chars]. unfold differs in Hc.
    rewrite Hc. by rewrite IH. }
  unfold utils.getline. rewrite Hchars. by destruct l.
Qed.

(** X9. The master ref written by a commit is what [loadState] reads: after
    a successful [createCommit] with a digest that holds no newline, loading
    the state from disk gives the manager's state back, HEAD being the new
    hash. *)
Theorem loadState_createCommit (sha256 : string -> string)
    (formatTimestamp : Z -> string) (userName userEmail : string)
    (canOpen : string -> bool) (st st' : CommitManager.state) (msg : string)
    (stagedFiles : list string) (now : Z) (h : string) :
  CommitManager.createCommit sha256 formatTimestamp userName userEmail canOpen
    st msg stagedFiles now = (CommitManager.Created h, st') ->
  no_newline h = true ->
  CommitManager.currentHead st' = h /\ CommitManager.loadState st' = st'.
Proof.
  intros (_ & _ & _ & _ & Hdir & Hhead & Hdisk)%createCommit_Created Hh.
  split; [done|].
  unfold CommitManager.loadState. rewrite Hdisk at 1. rewrite Hdir.
  rewrite saveState_lookup by apply masterRefPath_not_headPath.
  rewrite lookup_insert_eq.
  unfold CommitManager.nl. rewrite getline_line by done.
  rewrite <- Hdir, <- Hhead. by destruct st'.
Qed.

Lemma loadState_createCommit_witness :
  let created :=
    CommitManager.createCommit toyDigest toyTimestamp "Ann" "ann@example.org"
      (fun _ => true) mergeState "second commit" ["a.txt"] 7 in
  CommitManager.currentHead created.2 = "h114"
  /\ CommitManager.loadState created.2 = created.2.
Proof.
  intros created.
  apply (loadState_createCommit toyDigest toyTimestamp "Ann" "ann@example.org"
           (fun _ => true) mergeState created.2 "second commit" ["a.txt"] 7
           "h114").
  - vm_compute. reflexivity.
  - reflexivity.
Defined.

(** X10. A commit whose master ref does not open is half done: the object
    of the new commit is on disk and the manager's HEAD in memory names it,
    although the call returns the empty string; the master ref and [HEAD]
    on disk are untouched, so that [loadState] still finds the former HEAD
    of the ref. *)
Theorem createCommit_UpdateHeadFailed (sha256 : string -> string)
    (formatTimestamp : Z -> string) (userName userEmail : string)
    (canOpen : string -> bool) (st st' : CommitManager.state) (msg : string)
    (stagedFiles : list string) (now : Z) :
  CommitManager.createCommit sha256 formatTimestamp userName userEmail canOpen
    st msg stagedFiles now = (CommitManager.UpdateHeadFailed, st') ->
  let dir := CommitManager.mimirionDir st in
  let built :=
    CommitManager.buildCommit userName userEmail st msg stagedFiles now in
  let h := CommitManager.generateCommitHash sha256 formatTimestamp built in
  CommitManager.returned CommitManager.UpdateHeadFailed = ""
  /\ CommitManager.currentHead st' = h
  /\ CommitManager.disk st'
     = <[CommitManager.objectPath dir h :=
           CommitManager.commitObjectText formatTimestamp
             (CommitManager.withHash h built)]> (CommitManager.disk st)
  /\ CommitManager.currentHead (CommitManager.loadState st')
     = CommitManager.currentHead (CommitManager.loadState st).
Proof.
  unfold CommitManager.createCommit, CommitManager.saveCommitObject.
  destruct stagedFiles as [|file rest]; [discriminate|].
  set (built := CommitManager.buildCommit userName userEmail st msg
                  (file :: rest) now).
  cbn [CommitManager.hash CommitManager.withHash].
  destruct (canOpen (CommitManager.objectPath _ _)) eqn:Hobject; [|discriminate].
  destruct (canOpen (CommitManager.masterRefPath _)) eqn:Hmaster.
  { destruct (CommitManager.saveState _ _ _). discriminate. }
  intros [= <-]. cbn zeta. repeat split.
  unfold CommitManager.loadState.
  cbn [CommitManager.currentHead CommitManager.disk CommitManager.mimirionDir].
  by rewrite lookup_insert_ne by (apply not_eq_sym, objectPath_not_masterRefPath).
Qed.

Lemma createCommit_UpdateHeadFailed_witness :
  let canOpen := fun p => negb (String.eqb p ".mimirion/refs/heads/master") in
  let st :=
    {| CommitManager.mimirionDir := ".mimirion";
       CommitManager.currentHead := "cc3";
       CommitManager.disk :=
         <[".mimirion/refs/heads/master" := "cc3" +:+ CommitManager.nl]>
           mergeDisk |} in
  let created :=
    CommitManager.createCommit toyDigest toyTimestamp "Ann" "ann@example.org"
      canOpen st "second commit" ["a.txt"] 7 in
  created.1 = CommitManager.UpdateHeadFailed
  /\ CommitManager.currentHead created.2 = "h114"
  /\ CommitManager.currentHead (CommitManager.loadState created.2) = "cc3".
Proof.
  intros canOpen st created.
  pose proof (createCommit_UpdateHeadFailed toyDigest toyTimestamp "Ann"
                "ann@example.org" canOpen st created.2 "second commit"
                ["a.txt"] 7 eq_refl) as (_ & Hhead & _ & Hload).
  split; [reflexivity|]. split; [exact Hhead | exact Hload].
Defined.

(** X11. What [createCommit] leaves alone: whatever the outcome, the only
    files it may write are the object of the new hash, the master ref and
    [HEAD]; every other path of the disk keeps its content. When no file is
    staged or the object file does not open, the manager and the whole disk
    are what they were. *)
Theorem createCommit_frame (sha256 : string -> string)
    (formatTimestamp : Z -> string) (userName userEmail : string)
    (canOpen : string -> bool) (st : CommitManager.state) (msg : string)
    (stagedFiles : list string) (now : Z) :
  let dir := CommitManager.mimirionDir st in
  let h :=
    CommitManager.generateCommitHash sha256 formatTimestamp
      (CommitManager.buildCommit userName userEmail st msg stagedFiles now) in
  let created :=
    CommitManager.createCommit sha256 formatTimestamp userName userEmail
      canOpen st msg stagedFiles now in
  CommitManager.mimirionDir created.2 = dir
  /\ (forall p,
        p <> CommitManager.objectPath dir h ->
        p <> CommitManager.masterRefPath dir ->
        p <> CommitManager.headPath dir ->
        CommitManager.disk created.2 !! p = CommitManager.disk st !! p)
  /\ (created.1 = CommitManager.EmptyCommit
      \/ created.1 = CommitManager.SaveObjectFailed ->
      created.2 = st)
  /\ (canOpen (CommitManager.objectPath dir h) = false ->
      stagedFiles <> [] ->
      created.1 = CommitManager.SaveObjectFailed).
Proof.
  intros dir h created. subst created h dir.
  unfold CommitManager.createCommit, CommitManager.saveCommitObject.
  destruct stagedFiles as [|file rest]; [by destruct st|].
  set (built := CommitManager.buildCommit userName userEmail st msg
                  (file :: rest) now).
  cbn [CommitManager.hash CommitManager.withHash].
  destruct (canOpen (CommitManager.objectPath _ _)) eqn:Hobject.
  - destruct (canOpen (CommitManager.masterRefPath _)) eqn:Hmaster.
    + destruct (CommitManager.saveState _ _ _) as [ok d3] eqn:Hsave.
      cbn [fst snd CommitManager.mimirionDir CommitManager.disk].
      split; [done|]. split; [|split; [by intros [|]|done]].
      intros p Hobj Href Hhead.
      replace d3 with
        (CommitManager.saveState canOpen (CommitManager.mimirionDir st)
           (<[CommitManager.masterRefPath (CommitManager.mimirionDir st) :=
                CommitManager.generateCommitHash sha256 formatTimestamp built
                  +:+ CommitManager.nl]>
              (<[CommitManager.objectPath (CommitManager.mimirionDir st)
                   (CommitManager.generateCommitHash sha256 formatTimestamp
                      built) :=
                   CommitManager.commitObjectText formatTimestamp
                     (CommitManager.withHash
                        (CommitManager.generateCommitHash sha256
                           formatTimestamp built) built)]>
                 (CommitManager.disk st)))).2 by (by rewrite Hsave).
      rewrite saveState_lookup by done. by rewrite !lookup_insert_ne.
    + cbn [fst snd CommitManager.mimirionDir CommitManager.disk].
      split; [done|]. split; [|split; [by intros [|]|done]].
      intros p Hobj _ _. by rewrite lookup_insert_ne.
  - cbn [fst snd CommitManager.mimirionDir CommitManager.disk].
    split; [done|]. split; [done|]. split; [by destruct st|done].
Qed.

(** ** The index file of the tracker *)

Lemma indexLines_writeLines (entries : list (string * FileTracker.FileInfo)) :
  FileTracker.indexLines entries
  = DiffEngine.writeLines ((fun entry => indexLine entry.2) <$> entries).
Proof.
  induction entries as [|[k f] entries IH]; [done|].
  cbn [FileTracker.indexLines fmap list_fmap DiffEngine.writeLines snd].
  fold ((fun entry : string * FileTracker.FileInfo => indexLine entry.2)
          <$> entries).
  rewrite IH. unfold indexLine, DiffEngine.endl. by rewrite !append_assoc.
Qed.

Lemma getline_delim_field (d : ascii) (l rest : string) :
  all_chars (differs d) l = true ->
  utils.getline_delim d (l +:+ String d rest) = Some (l, rest).
Proof.
  intros Hl. unfold utils.getline_delim.
  rewrite getline_until_field by assumption. by destruct l.
Qed.

Lemma stoi_statusCode (s : FileTracker.FileStatus) :
  utils.stoi (utils.to_string (FileTracker.statusCode s))
  = Some (FileTracker.statusCode s)
  /\ FileTracker.statusOfCode (FileTracker.statusCode s) = Some s.
Proof. by destruct s. Qed.

Lemma no_newline_statusCode (s : FileTracker.FileStatus) :
  no_newline (utils.to_string (FileTracker.statusCode s)) = true.
Proof. by destruct s. Qed.

Lemma parseIndexLine_indexLine (f : FileTracker.FileInfo) :
  wf_entry f -> FileTracker.parseIndexLine (indexLine f) = Some (Some f).
Proof.
  intros ([Hpath _] & [Hhash _] & [Hlast _]).
  unfold FileTracker.parseIndexLine, indexLine.
  change (FileTracker.path f +:+ String utils.tab "" +:+ FileTracker.hash f
            +:+ String utils.tab "" +:+ FileTracker.lastCommitHash f
            +:+ String utils.tab ""
            +:+ utils.to_string (FileTracker.statusCode (FileTracker.status f)))
    with (FileTracker.path f
            +:+ String utils.tab
                  (FileTracker.hash f
                     +:+ String utils.tab
                           (FileTracker.lastCommitHash f
                              +:+ String utils.tab
                                    (utils.to_string
                                       (FileTracker.statusCode
                                          (FileTracker.status f)))))).
  rewrite !getline_delim_field by assumption.
  destruct (stoi_statusCode (FileTracker.status f)) as [-> ->].
  by destruct f.
Qed.

Lemma no_newline_indexLine (f : FileTracker.FileInfo) :
  wf_entry f -> no_newline (indexLine f) = true.
Proof.
  intros ([_ Hpath] & [_ Hhash] & [_ Hlast]).
  unfold indexLine, no_newline in *.
  rewrite !all_chars_append, Hpath, Hhash, Hlast. simpl.
  apply no_newline_statusCode.
Qed.

Lemma loadIndexLines_indexLines (entries : list (string * FileTracker.FileInfo))
    (acc : gmap string FileTracker.FileInfo) :
  Forall (fun entry => FileTracker.path entry.2 = entry.1 /\ wf_entry entry.2)
    entries ->
  FileTracker.loadIndexLines ((fun entry => indexLine entry.2) <$> entries) acc
  = Some (foldl (fun m entry => <[entry.1 := entry.2]> m) acc entries).
Proof.
  intros Hentries. revert acc.
  induction Hentries as [|[k f] entries [Hkey Hwf] _ IH]; intros acc; [done|].
  cbn [fmap list_fmap FileTracker.loadIndexLines foldl fst snd] in *.
  rewrite parseIndexLine_indexLine by assumption. rewrite Hkey. apply IH.
Qed.

(** X13. The index file written by [saveState] is read back by [loadState]:
    for a table whose entries stand under their own path and hold no tab and
    no newline in path, hash and last-commit hash, saving (with an index
    stream that opens) and loading gives the same table. *)
Theorem loadState_saveState (st : FileTracker.state) :
  keyed (FileTracker.files st) ->
  (forall k f, FileTracker.files st !! k = Some f -> wf_entry f) ->
  let saved := FileTracker.saveState true st in
  saved.1 = true
  /\ FileTracker.files saved.2 = FileTracker.files st
  /\ FileTracker.loadState saved.2 = Some saved.2.
Proof.
  intros Hkeyed Hwf. cbn [FileTracker.saveState fst snd FileTracker.files].
  split; [done|]. split; [done|].
  unfold FileTracker.loadState. cbn [FileTracker.index].
  rewrite splitLines_lines_of, indexLines_writeLines, lines_of_writeLines.
  - rewrite loadIndexLines_indexLines.
    + cbn. by rewrite foldl_insert_map_to_list.
    + apply Forall_forall. intros [k f] Hin%elem_of_map_to_list.
      cbn [fst snd]. split; [by apply Hkeyed | by apply (Hwf k)].
  - apply Forall_fmap, Forall_forall. intros [k f] Hin%elem_of_map_to_list.
    apply no_newline_indexLine. by apply (Hwf k).
Qed.

Lemma loadState_saveState_witness :
  let st :=
    {| FileTracker.files :=
         <["a.txt" := {| FileTracker.path := "a.txt"; FileTracker.hash := "h1";
                         FileTracker.lastCommitHash := "";
                         FileTracker.status := FileTracker.STAGED |}]>
           {["b c.txt" := {| FileTracker.path := "b c.txt";
                             FileTracker.hash := "h2";
                             FileTracker.lastCommitHash := "h2";
                             FileTracker.status := FileTracker.COMMITTED |}]};
       FileTracker.index := None |} in
  let saved := FileTracker.saveState true st in
  saved.1 = true
  /\ FileTracker.files saved.2 = FileTracker.files st
  /\ FileTracker.loadState saved.2 = Some saved.2.
Proof.
  intros st. apply (loadState_saveState st); unfold st; cbn [FileTracker.files].
  - intros k f [[<- <-] | [_ [<- <-]%lookup_singleton_Some]]%lookup_insert_Some;
      reflexivity.
  - intros k f [[<- <-] | [_ [<- <-]%lookup_singleton_Some]]%lookup_insert_Some;
      repeat split.
Defined.

(** ** The listings of the tracker *)

Lemma string_compare_trans (s t u : string) :
  String.compare s t <> Gt -> String.compare t u <> Gt ->
  String.compare s u <> Gt.
Proof.
  revert t u. induction s as [|a s IH]; intros [|b t] [|c u]; simpl; try done.
  destruct (Ascii.compare a b) eqn:Hab; [| |done];
    destruct (Ascii.compare b c) eqn:Hbc; try done.
  - apply Ascii.compare_eq_iff in Hab as ->. rewrite Hbc. apply IH.
  - apply Ascii.compare_eq_iff in Hab as ->. by rewrite Hbc.
  - apply Ascii.compare_eq_iff in Hbc as <-. by rewrite Hab.
  - unfold Ascii.compare in *. rewrite N.compare_lt_iff in Hab, Hbc.
    assert (N_of_ascii a < N_of_ascii c)%N as Hac by lia.
    apply N.compare_lt_iff in Hac. by rewrite Hac.
Qed.

Lemma path_le_total : Total FileTracker.path_le.
Proof. intros a b. apply String.leb_total. Qed.

Lemma path_le_trans : Transitive FileTracker.path_le.
Proof.
  intros a b c. unfold FileTracker.path_le, String.leb. intros Hab Hbc.
  pose proof (string_compare_trans (FileTracker.path a) (FileTracker.path b)
                (FileTracker.path c)) as Htrans.
  destruct (String.compare (FileTracker.path a) (FileTracker.path b));
    destruct (String.compare (FileTracker.path b) (FileTracker.path c));
    destruct (String.compare (FileTracker.path a) (FileTracker.path c));
    try done; by exfalso; apply Htrans.
Qed.

(** Two entries of a keyed table with the same path are the same entry. *)
Lemma keyed_path_inj (table : gmap string FileTracker.FileInfo)
    (f g : FileTracker.FileInfo) :
  keyed table ->
  f ∈ (snd <$> map_to_list table) -> g ∈ (snd <$> map_to_list table) ->
  FileTracker.path f = FileTracker.path g -> f = g.
Proof.
  intros Hkeyed [[k f'] [-> Hf%elem_of_map_to_list]]%list_elem_of_fmap
         [[k' g'] [-> Hg%elem_of_map_to_list]]%list_elem_of_fmap Hpath.
  cbn [snd] in *. rewrite (Hkeyed _ _ Hf), (Hkeyed _ _ Hg) in Hpath. subst k'.
  congruence.
Qed.

(** X14. [getFiles] lists the table by path: for a table whose entries stand
    under their own path, the list is sorted by path, holds each entry of the
    table once, and is the only list with these two properties, whatever the
    sorting algorithm does with it. *)
Theorem getFiles_sorted (st : FileTracker.state) :
  keyed (FileTracker.files st) ->
  Sorted FileTracker.path_le (FileTracker.getFiles st)
  /\ FileTracker.getFiles st ≡ₚ (snd <$> map_to_list (FileTracker.files st))
  /\ (forall f, f ∈ FileTracker.getFiles st
                <-> FileTracker.files st !! FileTracker.path f = Some f)
  /\ (forall l, Sorted FileTracker.path_le l ->
                l ≡ₚ (snd <$> map_to_list (FileTracker.files st)) ->
                l = FileTracker.getFiles st).
Proof.
  intros Hkeyed. unfold FileTracker.getFiles.
  split; [apply (@Sorted_merge_sort _ _ _ path_le_total)|].
  split; [apply merge_sort_Permutation|]. split.
  - intros f. rewrite merge_sort_Permutation, list_elem_of_fmap. split.
    + intros [[k f'] [-> Hf%elem_of_map_to_list]]. cbn [snd].
      by rewrite (Hkeyed _ _ Hf).
    + intros Hf. exists (FileTracker.path f, f). split; [done|].
      by apply elem_of_map_to_list.
  - intros l Hsorted Hperm.
    apply (@Sorted_unique_strong _ FileTracker.path_le path_le_trans);
      [| assumption | apply (@Sorted_merge_sort _ _ _ path_le_total)
       | by rewrite merge_sort_Permutation].
    intros f g Hf Hg Hfg Hgf. rewrite Hperm in Hf.
    rewrite merge_sort_Permutation in Hg.
    apply (keyed_path_inj (FileTracker.files st)); try done.
    by apply String.leb_antisym.
Qed.

Lemma getFiles_sorted_witness :
  let fa := {| FileTracker.path := "a.txt"; FileTracker.hash := "h1";
               FileTracker.lastCommitHash := "";
               FileTracker.status := FileTracker.STAGED |} in
  let fb := {| FileTracker.path := "b.txt"; FileTracker.hash := "h2";
               FileTracker.lastCommitHash := "h2";
               FileTracker.status := FileTracker.COMMITTED |} in
  let st := {| FileTracker.files := <["b.txt" := fb]> {["a.txt" := fa]};
               FileTracker.index := None |} in
  FileTracker.getFiles st = [fa; fb]
  /\ Sorted FileTracker.path_le (FileTracker.getFiles st).
Proof.
  intros fa fb st. split; [vm_compute; reflexivity|].
  refine (proj1 (getFiles_sorted st _)). unfold st. cbn [FileTracker.files].
  intros k f [[<- <-] | [_ [<- <-]%lookup_singleton_Some]]%lookup_insert_Some;
    reflexivity.
Defined.

(** *** The table stays keyed by path *)

Lemma loadIndexLines_keyed (ls : list string)
    (acc table : gmap string FileTracker.FileInfo) :
  keyed acc -> FileTracker.loadIndexLines ls acc = Some table -> keyed table.
Proof.
  revert acc. induction ls as [|line ls IH]; intros acc Hacc; simpl.
  - by intros [= <-].
  - destruct (FileTracker.parseIndexLine line) as [[f|]|]; [| by apply IH | done].
    apply IH. intros k g. rewrite lookup_insert.
    case_decide; [by intros [= <-] | apply Hacc].
Qed.

Section TrackerInvariant.

Variable sha256 : string -> string.
Variable indexOpens : bool.

Lemma saveState_files_eq (st : FileTracker.state) :
  FileTracker.files (FileTracker.saveState indexOpens st).2
  = FileTracker.files st.
Proof. unfold FileTracker.saveState. by destruct indexOpens. Qed.

(** X15. Every operation of the tracker keeps its table keyed by path: after
    [updateStatus], [stageFile] or [unstageFile] on a table whose entries
    stand under their own path, and after any [loadState], each entry of the
    table stands under its own path. *)
Theorem tracker_keyed (tree : gmap string string) (st : FileTracker.state)
    (p : string) :
  keyed (FileTracker.files st) ->
  keyed (FileTracker.files (FileTracker.updateStatus sha256 tree st))
  /\ keyed (FileTracker.files
              (FileTracker.stageFile sha256 indexOpens tree st p).2)
  /\ keyed (FileTracker.files
              (FileTracker.unstageFile sha256 indexOpens tree st p).2)
  /\ (forall st', FileTracker.loadState st = Some st' ->
                  keyed (FileTracker.files st')).
Proof.
  intros Hkeyed. repeat split.
  - intros k f. rewrite updateStatus_lookup.
    destruct (tree !! k) as [content|].
    + intros [= <-]. unfold FileTracker.scanEntry.
      by destruct (FileTracker.files st !! k).
    + destruct (FileTracker.files st !! k) as [old|] eqn:Hold; [|done].
      intros [= <-]. cbn [FileTracker.withStatus FileTracker.path].
      by apply Hkeyed.
  - unfold FileTracker.stageFile. destruct (tree !! p); [|done].
    rewrite saveState_files_eq. cbn [FileTracker.files].
    intros k f. destruct (FileTracker.files st !! p) as [old|] eqn:Hold;
      rewrite lookup_insert; (case_decide; [subst k; intros [= <-]|apply Hkeyed]);
      cbn [FileTracker.path]; [by apply Hkeyed | done].
  - unfold FileTracker.unstageFile.
    destruct (FileTracker.files st !! p) as [old|] eqn:Hold; [|done].
    case_bool_decide; [done|].
    rewrite saveState_files_eq. cbn [FileTracker.files].
    intros k f. rewrite lookup_insert.
    case_decide; [|apply Hkeyed]. subst k. intros [= <-].
    cbn [FileTracker.withStatus FileTracker.path]. by apply Hkeyed.
  - intros st'. unfold FileTracker.loadState.
    destruct (FileTracker.index st) as [content|].
    + destruct (FileTracker.loadIndexLines _ _) as [table|] eqn:Hload; [|done].
      intros [= <-]. cbn [FileTracker.files].
      apply (loadIndexLines_keyed _ ∅ table) in Hload; [done|].
      intros k f. by rewrite lookup_empty.
    + by intros [= <-].
Qed.

End TrackerInvariant.

Lemma tracker_keyed_witness :
  let st :=
    {| FileTracker.files :=
         {["a.txt" := {| FileTracker.path := "a.txt"; FileTracker.hash := "h1";
                         FileTracker.lastCommitHash := "";
                         FileTracker.status := FileTracker.UNTRACKED |}]};
       FileTracker.index := None |} in
  let tree : gmap string string := {["b.txt" := "text"]} in
  keyed (FileTracker.files (FileTracker.updateStatus toyDigest tree st))
  /\ keyed (FileTracker.files
              (FileTracker.stageFile toyDigest true tree st "b.txt").2).
Proof.
  intros st tree.
  assert (keyed (FileTracker.files st)) as Hkeyed
      by (unfold st; cbn [FileTracker.files];
          by intros k f [<- <-]%lookup_singleton_Some).
  split.
  - exact (proj1 (tracker_keyed toyDigest true tree st "b.txt" Hkeyed)).
  - exact (proj1 (proj2 (tracker_keyed toyDigest true tree st "b.txt" Hkeyed))).
Defined.

(** *** The staged files *)

Lemma elem_of_getStagedFiles (st : FileTracker.state) (f : FileTracker.FileInfo) :
  f ∈ FileTracker.getStagedFiles st
  <-> (exists k, FileTracker.files st !! k = Some f)
      /\ FileTracker.status f = FileTracker.STAGED.
Proof.
  unfold FileTracker.getStagedFiles.
  rewrite merge_sort_Permutation, list_elem_of_filter, list_elem_of_fmap.
  split.
  - intros [Hstaged [[k f'] [-> Hf%elem_of_map_to_list]]]. split; [|done].
    by exists k.
  - intros [[k Hf] Hstaged]. split; [done|]. exists (k, f). split; [done|].
    by apply elem_of_map_to_list.
Qed.

Lemma nil_no_elem {A : Type} (l : list A) : (forall x, x ∉ l) -> l = [].
Proof.
  destruct l as [|x l]; [done|]. intros Hl. destruct (Hl x). by left.
Qed.

Section StagedFiles.

Variable sha256 : string -> string.
Variable indexOpens : bool.

(** X16. A rescan forgets what was staged: after [updateStatus] no entry of
    the table is staged, so [getStagedFiles] returns nothing. *)
Theorem getStagedFiles_updateStatus (tree : gmap string string)
    (st : FileTracker.state) :
  FileTracker.getStagedFiles (FileTracker.updateStatus sha256 tree st) = [].
Proof.
  apply nil_no_elem. intros f [[k Hf] Hstaged]%elem_of_getStagedFiles.
  rewrite updateStatus_lookup in Hf. destruct (tree !! k) as [content|].
  - injection Hf as <-. unfold FileTracker.scanEntry in Hstaged.
    destruct (FileTracker.files st !! k); [|done].
    cbn [FileTracker.status] in Hstaged. by case_bool_decide.
  - destruct (FileTracker.files st !! k); [|done]. by injection Hf as <-.
Qed.


(** X18. What [unstageFile] does to the staged files: on a table keyed by
    path, after a call that finds the path staged, the path is no longer
    among the staged files and every other staged file still is. *)
Theorem getStagedFiles_unstageFile (tree : gmap string string)
    (st : FileTracker.state) (p : string) (old : FileTracker.FileInfo) :
  keyed (FileTracker.files st) ->
  FileTracker.files st !! p = Some old ->
  FileTracker.status old = FileTracker.STAGED ->
  let unstaged := FileTracker.unstageFile sha256 indexOpens tree st p in
  unstaged.1 = indexOpens
  /\ (forall f, f ∈ FileTracker.getStagedFiles unstaged.2
                <-> f ∈ FileTracker.getStagedFiles st
                    /\ FileTracker.path f <> p).
Proof.
  intros Hkeyed Hold Hstaged unstaged. subst unstaged.
  unfold FileTracker.unstageFile. rewrite Hold.
  rewrite bool_decide_eq_false_2 by (by intros Hne).
  set (s := if bool_decide (FileTracker.lastCommitHash old = "")
            then FileTracker.UNTRACKED
            else if bool_decide (FileTracker.calculateFileHash sha256 tree p
                                 = FileTracker.lastCommitHash old)
                 then FileTracker.COMMITTED else FileTracker.MODIFIED).
  assert (s <> FileTracker.STAGED) as Hs
      by (unfold s; by repeat case_bool_decide).
  split; [unfold FileTracker.saveState; by destruct indexOpens|].
  intros f. rewrite !elem_of_getStagedFiles.
  replace (FileTracker.files (FileTracker.saveState indexOpens _).2)
    with (<[p := FileTracker.withStatus s old]> (FileTracker.files st))
    by (unfold FileTracker.saveState; by destruct indexOpens).
  split.
  - intros [[k Hf] Hfstaged]. rewrite lookup_insert in Hf.
    case_decide; [injection Hf as <-; by cbn in Hfstaged|].
    split; [split; [by exists k | done]|]. by rewrite (Hkeyed _ _ Hf).
  - intros [[[k Hf] Hfstaged] Hpath]. split; [|done]. exists k.
    rewrite lookup_insert_ne; [done|]. by rewrite <- (Hkeyed _ _ Hf).
Qed.

End StagedFiles.


Lemma getStagedFiles_unstageFile_witness :
  let fa := {| FileTracker.path := "a.txt"; FileTracker.hash := "h4";
               FileTracker.lastCommitHash := "h4";
               FileTracker.status := FileTracker.STAGED |} in
  let st := {| FileTracker.files := {["a.txt" := fa]};
               FileTracker.index := None |} in
  let tree : gmap string string := {["a.txt" := "text"]} in
  let unstaged := FileTracker.unstageFile toyDigest true tree st "a.txt" in
  unstaged.1 = true /\ FileTracker.getStagedFiles unstaged.2 = [].
Proof.
  intros fa st tree unstaged.
  assert (keyed (FileTracker.files st)) as Hkeyed
      by (unfold st; cbn [FileTracker.files];
          by intros k f [<- <-]%lookup_singleton_Some).
  pose proof (getStagedFiles_unstageFile toyDigest true tree st "a.txt" fa
                Hkeyed eq_refl eq_refl) as Hunstaged.
  split; [exact (proj1 Hunstaged) | vm_compute; reflexivity].
Defined.

(** ** The remotes file *)

Lemma remoteLines_writeLines (entries : list (string * string)) :
  RemoteManager.remoteLines entries
  = DiffEngine.writeLines (remoteLine <$> entries).
Proof.
  induction entries as [|[name url] entries IH]; [done|].
  cbn [RemoteManager.remoteLines fmap list_fmap DiffEngine.writeLines].
  fold (remoteLine <$> entries). rewrite IH.
  unfold remoteLine, DiffEngine.endl. cbn [fst snd]. by rewrite !append_assoc.
Qed.

Lemma loadRemoteLines_remoteLine (name url : string) (rest : list string)
    (acc : gmap string string) :
  all_chars (differs " ") name = true ->
  RemoteManager.loadRemoteLines (remoteLine (name, url) :: rest) acc
  = RemoteManager.loadRemoteLines rest (<[name := url]> acc).
Proof.
  intros Hname. cbn [RemoteManager.loadRemoteLines].
  change (remoteLine (name, url)) with (name +:+ String " " url).
  rewrite find_char_absent by assumption.
  rewrite (substr_between _ "" name (String " " url)) by done.
  replace (utils.substr_from (String.length name + 1) (name +:+ String " " url))
    with url; [done|].
  replace (String.length name + 1)%nat with (String.length (name +:+ " "))
    by (rewrite length_append; simpl; lia).
  change (name +:+ String " " url) with (name +:+ " " +:+ url).
  by rewrite <- append_assoc, substr_from_append.
Qed.

Lemma loadRemoteLines_remoteLines (entries : list (string * string))
    (acc : gmap string string) :
  Forall (fun entry => all_chars (differs " ") entry.1 = true) entries ->
  RemoteManager.loadRemoteLines (remoteLine <$> entries) acc
  = foldl (fun m entry => <[entry.1 := entry.2]> m) acc entries.
Proof.
  intros Hentries. revert acc.
  induction Hentries as [|[name url] entries Hname _ IH]; intros acc; [done|].
  cbn [fmap list_fmap foldl fst snd] in *. fold (remoteLine <$> entries).
  rewrite loadRemoteLines_remoteLine by assumption. apply IH.
Qed.

Lemma no_newline_remoteLine (name url : string) :
  wf_remote name url -> no_newline (remoteLine (name, url)) = true.
Proof.
  intros (_ & Hname & Hurl). unfold remoteLine, no_newline in *. cbn [fst snd].
  by rewrite !all_chars_append, Hname, Hurl.
Qed.

(** What [loadState] reads from a saved table of well-formed remotes. *)
Lemma loadState_saved (table : gmap string string) :
  (forall name url, table !! name = Some url -> wf_remote name url) ->
  RemoteManager.loadRemoteLines
    (DiffEngine.splitLines (RemoteManager.remoteLines (map_to_list table))) ∅
  = table.
Proof.
  intros Hwf.
  rewrite splitLines_lines_of, remoteLines_writeLines, lines_of_writeLines.
  - rewrite loadRemoteLines_remoteLines; [apply foldl_insert_map_to_list|].
    apply Forall_forall. intros [name url] Hin%elem_of_map_to_list.
    by destruct (Hwf _ _ Hin).
  - apply Forall_fmap, Forall_forall. intros [name url] Hin%elem_of_map_to_list.
    by apply no_newline_remoteLine, Hwf.
Qed.

(** X19. The remotes file written by [saveState] is read back by
    [loadState]: for a table whose names hold no space and whose names and
    URLs hold no newline, saving (with a stream that opens) and loading
    gives the same table. *)
Theorem remotes_loadState_saveState (st : RemoteManager.state) :
  (forall name url, RemoteManager.remotes st !! name = Some url ->
                    wf_remote name url) ->
  let saved := RemoteManager.saveState true st in
  saved.1 = true
  /\ RemoteManager.remotes saved.2 = RemoteManager.remotes st
  /\ RemoteManager.loadState saved.2 = saved.2.
Proof.
  intros Hwf. cbn [RemoteManager.saveState fst snd RemoteManager.remotes].
  split; [done|]. split; [done|].
  unfold RemoteManager.loadState. cbn [RemoteManager.remotesFile].
  by rewrite loadState_saved.
Qed.

Lemma remotes_loadState_saveState_witness :
  let st :=
    {| RemoteManager.remotes :=
         <["origin" := "https://example.org/a.git"]>
           {["backup" := "file:///srv/my repos/a"]};
       RemoteManager.remotesFile := None |} in
  let saved := RemoteManager.saveState true st in
  saved.1 = true
  /\ RemoteManager.remotes saved.2 = RemoteManager.remotes st
  /\ RemoteManager.loadState saved.2 = saved.2.
Proof.
  intros st. apply (remotes_loadState_saveState st).
  unfold st. cbn [RemoteManager.remotes].
  intros name url
    [[<- <-] | [_ [<- <-]%lookup_singleton_Some]]%lookup_insert_Some;
    repeat split.
Defined.

(** X20. Adding and removing remotes survives a reload: on a table of
    well-formed remotes, after [addRemote] of a well-formed remote the
    reloaded table is the old one with the name bound to the URL (a former
    URL of the name is replaced), and after [removeRemote] of a name of the
    table it is the old one without the name. [removeRemote] of a name that
    is not in the table returns false and changes nothing. *)
Theorem remotes_reload (st : RemoteManager.state) (name url : string) :
  (forall n u, RemoteManager.remotes st !! n = Some u -> wf_remote n u) ->
  wf_remote name url ->
  RemoteManager.remotes
    (RemoteManager.loadState (RemoteManager.addRemote true st name url).2)
  = <[name := url]> (RemoteManager.remotes st)
  /\ match RemoteManager.remotes st !! name with
     | Some _ =>
         (RemoteManager.removeRemote true st name).1 = true
         /\ RemoteManager.remotes
              (RemoteManager.loadState
                 (RemoteManager.removeRemote true st name).2)
            = delete name (RemoteManager.remotes st)
     | None => RemoteManager.removeRemote true st name = (false, st)
     end.
Proof.
  intros Hwf Hnew. split.
  - unfold RemoteManager.addRemote, RemoteManager.saveState,
      RemoteManager.loadState.
    cbn [snd RemoteManager.remotes RemoteManager.remotesFile].
    apply loadState_saved. intros n u. rewrite lookup_insert.
    case_decide; [by intros [= <-]; subst n | apply Hwf].
  - unfold RemoteManager.removeRemote.
    destruct (RemoteManager.remotes st !! name); [|done].
    split; [done|].
    unfold RemoteManager.saveState, RemoteManager.loadState.
    cbn [snd RemoteManager.remotes RemoteManager.remotesFile].
    apply loadState_saved. intros n u [_ Hn]%lookup_delete_Some. by apply Hwf.
Qed.

Lemma remotes_reload_witness :
  let st :=
    {| RemoteManager.remotes := {["origin" := "https://example.org/a.git"]};
       RemoteManager.remotesFile := None |} in
  RemoteManager.remotes
    (RemoteManager.loadState
       (RemoteManager.addRemote true st "origin" "https://example.org/b.git").2)
  = {["origin" := "https://example.org/b.git"]}.
Proof.
  intros st.
  pose proof (remotes_reload st "origin" "https://example.org/b.git") as Hreload.
  destruct Hreload as [Hadd _].
  - unfold st. cbn [RemoteManager.remotes].
    intros n u [<- <-]%lookup_singleton_Some. repeat split.
  - repeat split.
  - rewrite Hadd. unfold st. cbn [RemoteManager.remotes].
    apply insert_singleton_eq.
Defined.

(** X21. A name with a space is not read back: the file separates name and
    URL by the first space of the line, so a remote stored under
    [a ++ " " ++ b] comes back under [a], with the rest of the name in front
    of the URL. *)
Theorem remotes_name_with_space (file : option string) (a b url : string) :
  all_chars (differs " ") a = true ->
  no_newline a = true -> no_newline b = true -> no_newline url = true ->
  let st := {| RemoteManager.remotes := ∅; RemoteManager.remotesFile := file |} in
  let added := RemoteManager.addRemote true st (a +:+ " " +:+ b) url in
  added.1 = true
  /\ RemoteManager.remotes added.2 = {[a +:+ " " +:+ b := url]}
  /\ RemoteManager.remotes (RemoteManager.loadState added.2)
     = {[a := b +:+ " " +:+ url]}.
Proof.
  intros Ha Hanl Hb Hurl st added. subst added st.
  unfold RemoteManager.addRemote, RemoteManager.saveState,
    RemoteManager.loadState.
  cbn [fst snd RemoteManager.remotes RemoteManager.remotesFile].
  split; [done|]. split; [by rewrite insert_empty|].
  rewrite insert_empty, map_to_list_singleton.
  rewrite splitLines_lines_of, remoteLines_writeLines, lines_of_writeLines.
  - cbn [fmap list_fmap].
    change (remoteLine (a +:+ " " +:+ b, url))
      with ((a +:+ " " +:+ b) +:+ " " +:+ url).
    rewrite !append_assoc.
    change (a +:+ " " +:+ b +:+ " " +:+ url)
      with (remoteLine (a, b +:+ " " +:+ url)).
    rewrite loadRemoteLines_remoteLine by assumption.
    cbn [RemoteManager.loadRemoteLines]. by rewrite insert_empty.
  - apply Forall_cons_2; [|done]. unfold remoteLine, no_newline in *.
    cbn [fst snd]. by rewrite !all_chars_append, Hanl, Hb, Hurl.
Qed.

Lemma remotes_name_with_space_witness :
  let st := {| RemoteManager.remotes := ∅; RemoteManager.remotesFile := None |} in
  let added := RemoteManager.addRemote true st "my origin" "u" in
  added.1 = true
  /\ RemoteManager.remotes added.2 = {["my origin" := "u"]}
  /\ RemoteManager.remotes (RemoteManager.loadState added.2)
     = {["my" := "origin u"]}.
Proof.
  apply (remotes_name_with_space None "my" "origin" "u"); reflexivity.
Defined.

(** ** Replaying computed diffs on files *)

Lemma firstMismatch_bounds (oldLines newLines : list string) (k i : nat) :
  DiffEngine.firstMismatch k oldLines newLines = Some i ->
  (k <= i)%nat /\ (i - k < length oldLines)%nat /\ (i - k < length newLines)%nat.
Proof.
  revert newLines k.
  induction oldLines as [|o oldRest IH]; intros [|n newRest] k; simpl; try done.
  case_bool_decide.
  - intros [= <-]. lia.
  - intros [Hk [Hold Hnew]]%IH. lia.
Qed.

(** The replay of the hunk of the special case, for a first mismatch after
    the first line. *)
Lemma applyHunk_special (oldLines : list string) (added : string) (i : nat) :
  (0 < i < length oldLines)%nat ->
  (Z.of_nat (length oldLines) < 2 ^ 31)%Z ->
  DiffEngine.applyHunk oldLines
    {| DiffEngine.oldStart := utils.size_to_int i; DiffEngine.oldCount := 2;
       DiffEngine.newStart := utils.size_to_int i; DiffEngine.newCount := 3;
       DiffEngine.lines :=
         [" " +:+ DiffEngine.line_at oldLines (i - 1);
          "-" +:+ DiffEngine.line_at oldLines i;
          "+" +:+ added;
          " " +:+ DiffEngine.line_at oldLines i] |}
  = DiffEngine.Done (take i oldLines ++ added :: drop i oldLines).
Proof.
  intros [Hpos Hi] Hsmall. unfold DiffEngine.applyHunk.
  cbn [DiffEngine.oldStart DiffEngine.oldCount DiffEngine.lines].
  rewrite !wrap_int_small by lia.
  destruct (Z.ltb_spec (Z.of_nat (length oldLines)) (Z.of_nat i)) as [Hlt|_];
    [lia|].
  rewrite bool_decide_eq_true_2 by lia.
  replace (Z.to_nat (Z.of_nat i - 1)) with (i - 1)%nat by lia.
  replace (Z.to_nat (Z.of_nat i - 1 + 2)) with (S i) by lia.
  f_equal. cbn [omap list_omap DiffEngine.insertedLine String.append Ascii.eqb
                Bool.eqb].
  destruct (lookup_lt_is_Some_2 oldLines i Hi) as [x Hx].
  destruct (lookup_lt_is_Some_2 oldLines (i - 1)) as [y Hy]; [lia|].
  unfold DiffEngine.line_at. rewrite Hx, Hy. cbn [default].
  rewrite take_app_le by (rewrite length_take; lia).
  rewrite drop_app_le by (rewrite length_take; lia).
  rewrite take_take, Nat.min_id.
  rewrite (drop_ge (take (i - 1) oldLines)) by (rewrite length_take; lia).
  replace (take i oldLines) with (take (i - 1) oldLines ++ [y]).
  2:{ replace i with (S (i - 1)) at 2 by lia. by rewrite (take_S_r _ _ y). }
  rewrite (drop_S oldLines x i) by assumption.
  rewrite <- !app_assoc. reflexivity.
Qed.

(** X22. The special case of [computeHunks] replayed: when the new sequence
    is exactly one line longer and the first mismatch is at index [i], the
    replay on the old lines inserts the new line of index [i] before the old
    line of that index and keeps every old line, whatever the new lines after
    [i] are; with the mismatch on the first line the hunk starts at line 0
    and the replay erases before the beginning of the vector. *)
Theorem applyHunks_computeHunks_special (oldLines newLines : list string)
    (contextLines : Z) (i : nat) :
  length newLines = S (length oldLines) ->
  DiffEngine.firstMismatch 0 oldLines newLines = Some i ->
  (Z.of_nat (length oldLines) < 2 ^ 31)%Z ->
  DiffEngine.applyHunks
    (DiffEngine.computeHunks oldLines newLines contextLines) oldLines
  = if bool_decide (i = 0%nat) then DiffEngine.Undefined
    else DiffEngine.Done
           (take i oldLines ++ DiffEngine.line_at newLines i :: drop i oldLines).
Proof.
  intros Hlen Hfirst Hsmall.
  pose proof (firstMismatch_bounds _ _ _ _ Hfirst) as (_ & Hi & _).
  unfold DiffEngine.computeHunks.
  rewrite bool_decide_eq_false_2 by (intros ->; lia).
  rewrite bool_decide_eq_true_2 by assumption. rewrite Hfirst.
  cbn [DiffEngine.applyHunks]. destruct i as [|i'].
  - rewrite (bool_decide_eq_true_2 (0 = 0)%nat) by done.
    unfold DiffEngine.applyHunk.
    cbn [DiffEngine.oldStart DiffEngine.oldCount].
    rewrite !wrap_int_small by lia.
    destruct (Z.ltb_spec (Z.of_nat (length oldLines)) (Z.of_nat 0)) as [Hlt|_];
      [lia|].
    by rewrite bool_decide_eq_false_2 by lia.
  - rewrite (bool_decide_eq_false_2 (S i' = 0)%nat) by done.
    rewrite bool_decide_eq_true_2 by lia. cbn [app].
    by rewrite applyHunk_special by lia.
Qed.

Lemma applyHunks_computeHunks_special_witness :
  DiffEngine.applyHunks
    (DiffEngine.computeHunks ["Line 1"; "Line 2"; "Line 3"]
       ["Line 1"; "Modified Line 2"; "Line 3"; "New Line 4"] 3)
    ["Line 1"; "Line 2"; "Line 3"]
  = DiffEngine.Done ["Line 1"; "Modified Line 2"; "Line 2"; "Line 3"].
Proof.
  apply (applyHunks_computeHunks_special ["Line 1"; "Line 2"; "Line 3"]
           ["Line 1"; "Modified Line 2"; "Line 3"; "New Line 4"] 3 1).
  - reflexivity.
  - reflexivity.
  - simpl. lia.
Defined.


(** *** The end of the patched file *)

Lemma lines_of_nil (s : string) : lines_of s = [] -> s = EmptyString.
Proof. destruct s as [|c s]; [done|]. intros Hs. by apply lines_of_nonempty in Hs. Qed.















(** X25. A file that is empty, or missing, is not patched by its own diff:
    the hunk computed from no old line starts at line 1, which [applyDiff]
    refuses on a target with no line; the call returns false and writes
    nothing. *)
Theorem applyDiff_generateDiff_empty_target (disk : gmap string string)
    (oldPath newPath : string) (contextLines : Z) :
  DiffEngine.readFile disk oldPath = EmptyString ->
  DiffEngine.readFile disk newPath <> EmptyString ->
  DiffEngine.applyDiff
    (DiffEngine.generateDiff disk oldPath newPath contextLines) oldPath disk
  = Some (false, disk).
Proof.
  intros Hold Hnew.
  unfold DiffEngine.applyDiff, DiffEngine.generateDiff,
    DiffEngine.generateDiffFromStrings.
  cbn [DiffEngine.hunks]. rewrite Hold, !splitLines_lines_of. cbn [lines_of].
  destruct (lines_of (DiffEngine.readFile disk newPath)) as [|l ls] eqn:Hlines;
    [by apply lines_of_nil in Hlines|].
  unfold DiffEngine.computeHunks.
  rewrite bool_decide_eq_false_2 by done.
  cbn [DiffEngine.firstMismatch].
  by case_bool_decide.
Qed.

Lemma applyDiff_generateDiff_empty_target_witness :
  let disk : gmap string string := {["new.txt" := "Line1" +:+ DiffEngine.endl]} in
  DiffEngine.applyDiff (DiffEngine.generateDiff disk "old.txt" "new.txt" 3)
    "old.txt" disk
  = Some (false, disk).
Proof.
  intros disk.
  apply (applyDiff_generateDiff_empty_target disk "old.txt" "new.txt" 3).
  - reflexivity.
  - vm_compute. discriminate.
Defined.




(** ** Ignored paths and binary files *)

Lemma prefix_append (p s : string) :
  String.prefix p s = true <-> exists rest, s = p +:+ rest.
Proof.
  revert s. induction p as [|a p IH]; intros s.
  - split; [intros _; by exists s | intros _; by destruct s].
  - destruct s as [|b s]; cbn [String.prefix].
    + split; [done | by intros [rest Hrest]].
    + destruct (ascii_dec a b) as [->|Hab].
      * rewrite IH. split; intros [rest Hrest]; exists rest.
        -- by rewrite Hrest.
        -- by injection Hrest.
      * split; [done|]. intros [rest Hrest]. injection Hrest as Hb _.
        by destruct Hab.
Qed.

Lemma find_str_start (p s : string) :
  utils.find_str p s = Some 0%nat
  <-> s <> EmptyString /\ String.prefix p s = true.
Proof.
  destruct s as [|c s]; cbn [utils.find_str]; [by split; [|intros []]|].
  destruct (String.prefix p (String c s)).
  - by split.
  - split; [|by intros []]. by destruct (utils.find_str p s).
Qed.

(** X27. [isIgnored] is a test of the path as a string: a path is ignored
    exactly when it starts with the characters of the metadata directory,
    whether there is a [.mimirionignore] file or not. So the ignore file
    itself, whose path is that of the metadata directory followed by
    ["ignore"], is ignored. *)
Theorem isIgnored_prefix (ignoreFileExists : bool) (mimirionDir path : string) :
  mimirionDir <> EmptyString ->
  (FileTracker.isIgnored ignoreFileExists mimirionDir path = true
   <-> exists rest, path = mimirionDir +:+ rest)
  /\ FileTracker.isIgnored ignoreFileExists mimirionDir
       (mimirionDir +:+ "ignore") = true.
Proof.
  intros Hdir.
  assert (forall q, FileTracker.isIgnored ignoreFileExists mimirionDir q = true
                    <-> exists rest, q = mimirionDir +:+ rest) as Hspec.
  { intros q. unfold FileTracker.isIgnored.
    assert (bool_decide (utils.find_str mimirionDir q = Some 0%nat) = true
            <-> exists rest, q = mimirionDir +:+ rest) as Hfind.
    { rewrite bool_decide_eq_true, find_str_start, prefix_append.
      split; [by intros [_ Hrest]|]. intros [rest ->]. split; [|by exists rest].
      by destruct mimirionDir. }
    by destruct ignoreFileExists. }
  split; [apply Hspec|]. apply Hspec. by exists "ignore".
Qed.

Lemma isIgnored_prefix_witness :
  FileTracker.isIgnored true "/repo/.mimirion" "/repo/.mimirionignore" = true.
Proof.
  refine (proj2 (isIgnored_prefix true "/repo/.mimirion" "/repo/.mimirionignore"
                   _)).
  discriminate.
Defined.

Lemma any_char_impl (p q : ascii -> bool) (s : string) :
  (forall c, p c = true -> q c = true) ->
  utils.any_char p s = true -> utils.any_char q s = true.
Proof.
  intros Hpq. induction s as [|c s IH]; [done|]. cbn [utils.any_char].
  intros [Hc | Hs]%orb_prop; apply orb_true_iff; [left; by apply Hpq | right; by apply IH].
Qed.

Lemma substring_idempotent (n : nat) (s : string) :
  String.substring 0 n (String.substring 0 n s) = String.substring 0 n s.
Proof.
  revert s. induction n as [|n IH]; intros [|c s]; cbn [String.substring];
    try done.
  by rewrite IH.
Qed.

(** X28. [isBinaryFile] looks at the first 4096 bytes only, and its test for
    null bytes adds nothing to its test for control characters: a file that
    opens is binary exactly when one of its first 4096 bytes is below 32 and
    is not a newline, a carriage return or a tab. *)
Theorem isBinaryFile_control (content : string) :
  utils.isBinaryFile (Some content)
  = utils.any_char utils.is_control (utils.substr 0 4096 content)
  /\ utils.isBinaryFile (Some content)
     = utils.isBinaryFile (Some (utils.substr 0 4096 content)).
Proof.
  assert (forall text,
            utils.isBinaryFile (Some text)
            = utils.any_char utils.is_control (utils.substr 0 4096 text))
    as Hcontrol.
  { intros text. unfold utils.isBinaryFile.
    destruct (utils.any_char (fun c => Ascii.eqb c "000") _) eqn:Hnull; [|done].
    symmetry. eapply any_char_impl; [|exact Hnull].
    by intros c ->%Ascii.eqb_eq. }
  split; [apply Hcontrol|]. rewrite !Hcontrol. unfold utils.substr.
  by rewrite substring_idempotent.
Qed.

(** ** Hunk headers that [std::stoi] refuses *)

Lemma lines_of_prefixed (a l rest : string) :
  no_newline a = true -> no_newline l = true ->
  lines_of (a +:+ l +:+ DiffEngine.endl +:+ rest) = (a +:+ l) :: lines_of rest.
Proof.
  intros Ha Hl. rewrite <- lines_of_line
    by (unfold no_newline in *; by rewrite all_chars_append, Ha, Hl).
  by rewrite append_assoc.
Qed.

(** X29. [parseDiff] does not catch what [std::stoi] throws: on a diff with
    both file lines whose first hunk header has the four fields made of
    digits and minus signs, the call throws as soon as one field is no
    number of an [int] (it is empty, has no digit after its sign, or is out
    of range); the old count is read with the space that follows it. *)
Theorem parseDiff_stoi_throws (old new os oc ns nc rest : string) :
  no_newline old = true -> no_newline new = true ->
  all_chars numeric os = true -> all_chars numeric oc = true ->
  all_chars numeric ns = true -> all_chars numeric nc = true ->
  utils.stoi os = None \/ utils.stoi (oc +:+ " ") = None
  \/ utils.stoi ns = None \/ utils.stoi nc = None ->
  DiffEngine.parseDiff
    ("--- " +:+ old +:+ DiffEngine.endl
       +:+ "+++ " +:+ new +:+ DiffEngine.endl
       +:+ headerText os oc ns nc +:+ DiffEngine.endl +:+ rest)
  = None.
Proof.
  intros Hold Hnew Hos Hoc Hns Hnc Hthrows.
  assert (no_newline (headerText os oc ns nc) = true) as Hheader.
  { pose proof (no_newline_numeric _ Hos) as Hos'.
    pose proof (no_newline_numeric _ Hoc) as Hoc'.
    pose proof (no_newline_numeric _ Hns) as Hns'.
    pose proof (no_newline_numeric _ Hnc) as Hnc'.
    unfold headerText, no_newline in *.
    rewrite !all_chars_append, Hos', Hoc', Hns', Hnc'. reflexivity. }
  unfold DiffEngine.parseDiff. rewrite splitLines_lines_of.
  rewrite !lines_of_prefixed by done.
  change (headerText os oc ns nc +:+ DiffEngine.endl +:+ rest)
    with (headerText os oc ns nc +:+ String utils.newline rest).
  rewrite lines_of_line by done.
  rewrite bool_decide_eq_true_2 by (by apply (substr_between _ "" "--- " old)).
  rewrite bool_decide_eq_true_2 by (by apply (substr_between _ "" "+++ " new)).
  cbn [length DiffEngine.parseHunks].
  assert (DiffEngine.is_hunk_start (headerText os oc ns nc) = true) as ->.
  { unfold DiffEngine.is_hunk_start. apply bool_decide_eq_true_2.
    by apply (substr_between _ "" "@@ "
                ("-" +:+ os +:+ "," +:+ oc +:+ " +" +:+ ns +:+ "," +:+ nc
                   +:+ " @@")). }
  cbn [negb]. rewrite parseHunkHeader_headerText by assumption.
  destruct Hthrows as [-> | [-> | [-> | ->]]]; [done | | |].
  - by destruct (utils.stoi os).
  - by destruct (utils.stoi os), (utils.stoi (oc +:+ " ")).
  - by destruct (utils.stoi os), (utils.stoi (oc +:+ " ")), (utils.stoi ns).
Qed.

Lemma parseDiff_stoi_throws_witness :
  DiffEngine.parseDiff
    ("--- " +:+ "a" +:+ DiffEngine.endl
       +:+ "+++ " +:+ "b" +:+ DiffEngine.endl
       +:+ headerText "99999999999" "1" "1" "1" +:+ DiffEngine.endl
       +:+ "+x" +:+ DiffEngine.endl)
  = None.
Proof.
  apply (parseDiff_stoi_throws "a" "b" "99999999999" "1" "1" "1"
           ("+x" +:+ DiffEngine.endl)); try reflexivity.
  left. reflexivity.
Defined.

(** ** The cache of loaded commits *)

(** X30. [getCommit] reads an object once: a commit it has found is in the
    cache under its hash and every later call for the hash returns it
    without looking at the disk, whatever the disk holds by then; the other
    entries of the cache are untouched. A hash that does not load is not
    entered, so that a later call tries the disk again. *)
Theorem getCommit_cached (st later : CommitManager.state)
    (commits commits' : gmap string CommitManager.CommitInfo) (h : string)
    (found : option CommitManager.CommitInfo) :
  CommitManager.getCommit st commits h = (found, commits') ->
  (forall k, k <> h -> commits' !! k = commits !! k)
  /\ match found with
     | Some commit =>
         commits' !! h = Some commit
         /\ CommitManager.getCommit later commits' h = (Some commit, commits')
     | None =>
         commits' = commits
         /\ CommitManager.getCommit later commits' h
            = CommitManager.getCommit later commits h
     end.
Proof.
  unfold CommitManager.getCommit at 1.
  destruct (commits !! h) as [cached|] eqn:Hcached.
  - intros [= <- <-]. split; [done|]. split; [done|].
    unfold CommitManager.getCommit. by rewrite Hcached.
  - case_bool_decide.
    + intros [= <- <-]. by repeat split.
    + intros [= <- <-]. split; [intros k Hk; by rewrite lookup_insert_ne|].
      split; [by rewrite lookup_insert_eq|].
      unfold CommitManager.getCommit. by rewrite lookup_insert_eq.
Qed.

Lemma getCommit_cached_witness :
  let emptied :=
    {| CommitManager.mimirionDir := ".mimirion";
       CommitManager.currentHead := "cc3"; CommitManager.disk := ∅ |} in
  let loaded := CommitManager.getCommit mergeState ∅ "aa1" in
  CommitManager.hash <$> loaded.1 = Some "aa1"
  /\ CommitManager.getCommit emptied loaded.2 "aa1" = loaded
  /\ CommitManager.getCommit emptied ∅ "aa1" = (None, ∅).
Proof.
  intros emptied loaded.
  destruct (CommitManager.getCommit mergeState ∅ "aa1") as [found cache] eqn:Hget.
  pose proof (getCommit_cached mergeState emptied ∅ cache "aa1" found Hget)
    as [_ Hfound].
  assert (CommitManager.hash <$> found = Some "aa1") as Hhash
      by (by injection Hget as <- _).
  subst loaded. cbn [fst snd].
  destruct found as [commit|]; [|done].
  destruct Hfound as [_ Hlater]. by repeat split.
Defined.
